(** * VexCL sparse matrix (vexcl/spmat.hpp): distributed SpMV

    A shallow embedding of [vex::SpMat] and of its CSR device block
    [SpMat::SpMatCSR], of the product with a multivector
    ([multispmv::apply]) and of the calibration run [device_spmv_perf],
    followed by the properties of the exchange planner ([setup_exchange]),
    of the block constructor, of the multiply driver and of the calibration
    matrix.

    Conventions of the embedding.
    - [size_t], [idx_t] and [column_t] are unbounded naturals.  The
      subtractions [cidx[d+1] - cidx[d]], [col[j] - xbeg],
      [cols_to_send[i] -= xpart[d]] and [end - beg] are shown or assumed not
      to go below zero where a statement depends on them; the subtraction
      [row[end] - row[beg]] in the [reserve] calls of the block constructor
      wraps around in [size_t] when it goes below zero, and the constructor
      then throws ([reserve_fits]).
    - a C array or a [std::vector] read [a[i]] is the total lookup [a !!! i];
      a write [a[i] = v] is [<[i:=v]> a].  An access outside the array is
      undefined behaviour in the program and is not modelled: the lookup
      yields a default value and the insert does nothing.  The embedding of
      the kernels and of [mul] is the program only where every access is
      inside its array.  [mul_checked] is the same code with every access
      checked; it agrees with [mul] where [mul_in_bounds] holds
      ([mul_checked_total]), which is the case for a matrix constructed
      from well-formed input and vectors of its sizes ([built_in_bounds]),
      and fails for malformed input or vectors that are too short
      ([fast_path_reads_out_of_range], [short_y_write_out_of_range]).
    - [std::set<column_t>] is a [gset nat]; its iteration order (increasing)
      is [set_elements].  [std::unordered_map] is a [gmap].
    - the template parameter [real] is a type with a zero, an addition and a
      multiplication ([RealOps]); no law is assumed unless a statement asks
      for [RealLaws].
    - a [cl::Buffer] is the list of its elements; the OpenMP loops over the
      devices are run in increasing device order (their iterations touch
      disjoint data); kernels run their work items in increasing id order.
    - [partition(n, queue)] is declared in another header: the row
      partition [part] and the column partition [xpart] are inputs, with
      the contract [partition_ok] where a statement needs it.
    - only the CSR block is embedded ([is_cpu] devices); the hybrid ELL block
      lives in another header. *)

From stdpp Require Import gmap list sorting fin_sets.
From Stdlib Require Import ZArith.

(** ** Arithmetic of the value type *)

Class RealOps (real : Type) := {
  r0 : real;
  radd : real → real → real;
  rmul : real → real → real
}.

Class RealLaws (real : Type) `{RealOps real} : Prop := {
  radd_comm : ∀ a b : real, radd a b = radd b a;
  radd_assoc : ∀ a b c : real, radd a (radd b c) = radd (radd a b) c;
  radd_0_l : ∀ a : real, radd r0 a = a;
  rmul_0_r : ∀ a : real, rmul a r0 = r0;
  rmul_add_distr_l : ∀ a b c : real, rmul a (radd b c) = radd (rmul a b) (rmul a c)
}.

(** Reading past the end of a buffer of values is not modelled; the total
    lookup then yields zero, where the program has undefined behaviour. *)
#[global] Instance real_inhabited `{RealOps real} : Inhabited real | 0 := populate r0.

#[global] Instance Z_RealOps : RealOps Z := {| r0 := 0%Z; radd := Z.add; rmul := Z.mul |}.

(** ** Loops *)

(** [for (i = lo; i < hi; i++) s = body i s]. *)
Definition for_range {S : Type} (lo hi : nat) (body : nat → S → S) (s : S) : S :=
  foldl (λ s i, body i s) s (seq lo (hi - lo)).

(** Iteration of a [std::set<column_t>]: increasing order. *)
Definition set_elements (s : gset nat) : list nat := merge_sort (≤) (elements s).

(** ** Devices, blocks and exchange data *)

(** What the model needs of a queue's device: the work-group size of its
    kernels and [num_workgroups(device)]. *)
Record device := Device { wgsize : nat; num_workgroups : nat }.

(** Modelled from the spec: [alignup(n, m)] is declared in vexcl/util.hpp,
    a header outside the embedded file; the gather kernel is enqueued "with
    a global work size", the element count rounded up to the next multiple
    of the work-group size. *)
Definition alignup (n m : nat) : nat :=
  if n mod m =? 0 then n else n - n mod m + m.

(** The three buffers [row], [col], [val] of [SpMatCSR::loc] and [rem]. *)
Record csr (real : Type) := Csr {
  c_row : list nat;
  c_col : list nat;
  c_val : list real
}.
Arguments Csr {real} _ _ _.
Arguments c_row {real} _.
Arguments c_col {real} _.
Arguments c_val {real} _.

Definition csr_empty {real : Type} : csr real := Csr [] [] [].

Record SpMatCSR (real : Type) := MkSpMatCSR {
  n : nat;
  has_loc : bool;
  has_rem : bool;
  loc : csr real;
  rem : csr real
}.
Arguments MkSpMatCSR {real} _ _ _ _ _.
Arguments n {real} _.
Arguments has_loc {real} _.
Arguments has_rem {real} _.
Arguments loc {real} _.
Arguments rem {real} _.

Record exdata (real : Type) := MkExdata {
  cols_to_recv : list nat;
  vals_to_recv : list real;
  cols_to_send : list nat;
  vals_to_send : list real;
  ex_rx : list real
}.
Arguments MkExdata {real} _ _ _ _ _.
Arguments cols_to_recv {real} _.
Arguments vals_to_recv {real} _.
Arguments cols_to_send {real} _.
Arguments vals_to_send {real} _.
Arguments ex_rx {real} _.

Definition exdata_empty {real : Type} : exdata real := MkExdata [] [] [] [] [].

#[global] Instance exdata_inhabited {real : Type} : Inhabited (exdata real) :=
  populate exdata_empty.

#[global] Instance csr_inhabited {real : Type} : Inhabited (csr real) :=
  populate csr_empty.

(** ** The exchange planner: [SpMat::setup_exchange] *)

(** Lines 419-427 for one device [d]: the ghost set of the rows
    [part[d] .. part[d+1])]. *)
Definition ghost_row (xlo xhi : nat) (row col : list nat) (i : nat)
    (s : gset nat) : gset nat :=
  for_range (row !!! i) (row !!! (i + 1)) (λ j s,
    if (col !!! j <? xlo) || (xhi <=? col !!! j)
    then {[ col !!! j ]} ∪ s else s) s.

Definition ghost_set (part xpart row col : list nat) (d : nat) : gset nat :=
  for_range (part !!! d) (part !!! (d + 1))
    (ghost_row (xpart !!! d) (xpart !!! (d + 1)) row col) ∅.

Definition ghost_sets (D : nat) (part xpart row col : list nat) : list (gset nat) :=
  (λ d, ghost_set part xpart row col d) <$> seq 0 D.

(** Lines 430-437: the union of the ghost sets, read out in increasing
    order. *)
Definition send_list (remote_cols : list (gset nat)) : list nat :=
  set_elements (foldl (λ acc s, acc ∪ s) ∅ remote_cols).

(** Lines 449-450: [for (i = 0, j = 0; ...) if (count) cols_to_recv[j++] = i]. *)
Definition recv_positions (cts : list nat) (rc : gset nat) : list nat :=
  (for_range 0 (length cts) (λ i '(recv, j),
     if bool_decide (cts !!! i ∈ rc) then (<[j := i]> recv, S j) else (recv, j))
     (replicate (size rc) 0, 0)).1.

(** [std::lower_bound(first, last, v)] on indices: the bisection of the
    standard library, the first position in [[first, last)] whose element is
    not less than [v].  [fuel] bounds the number of halvings. *)
Fixpoint lower_bound_loop (fuel : nat) (a : list nat) (first len v : nat) : nat :=
  match fuel with
  | 0 => first
  | S fuel =>
      if len =? 0 then first
      else
        let half := len / 2 in
        let middle := first + half in
        if a !!! middle <? v
        then lower_bound_loop fuel a (middle + 1) (len - half - 1) v
        else lower_bound_loop fuel a first half v
  end.

Definition lower_bound (a : list nat) (first last v : nat) : nat :=
  lower_bound_loop (last - first) a first (last - first) v.

(** Lines 457-464. *)
Definition build_cidx (D : nat) (xpart cts : list nat) : list nat :=
  (for_range 0 (S D) (λ d '(cidx, beg),
     let r := lower_bound cts beg (length cts) (xpart !!! d) in
     (<[d := r]> cidx, r))
     (replicate (S D) 0, 0)).1.

(** Lines 476-477: [cols_to_send[i] -= xpart[d]] on device [d]'s range. *)
Definition rebase (cidx xpart : list nat) (d : nat) (cts : list nat) : list nat :=
  for_range (cidx !!! d) (cidx !!! (d + 1))
    (λ i cts, <[i := cts !!! i - xpart !!! d]> cts) cts.

(** Lines 444-447 and 449-450 for one device: the two host vectors are
    resized to [rcols], the device buffer [rx] is allocated with [rcols]
    elements (a fresh buffer is modelled as zeros), the positions are filled
    in. *)
Definition set_recv {real : Type} `{RealOps real} (rcols : nat) (recv : list nat)
    (e : exdata real) : exdata real :=
  MkExdata recv (replicate rcols r0)
    (cols_to_send e) (vals_to_send e) (replicate rcols r0).

(** Lines 470-474 and 479-481 for one device: two buffers of [ncols]
    elements, the first written from [&cols_to_send[cidx[d]]]. *)
Definition set_send {real : Type} `{RealOps real} (ncols : nat) (send : list nat)
    (e : exdata real) : exdata real :=
  MkExdata (cols_to_recv e) (vals_to_recv e)
    send (replicate ncols r0) (ex_rx e).

(** Lines 442-452 for all devices. *)
Definition plan_recv {real : Type} `{RealOps real} (D : nat)
    (remote_cols : list (gset nat)) (cts : list nat)
    (exc : list (exdata real)) : list (exdata real) :=
  for_range 0 D (λ d exc,
    let rcols := size (remote_cols !!! d) in
    if rcols =? 0 then exc
    else alter (set_recv rcols (recv_positions cts (remote_cols !!! d))) d exc) exc.

(** Lines 466-483 for all devices: the send list is rebased in place, one
    device range after the other, and each range is uploaded as soon as it
    is rebased. *)
Definition plan_send {real : Type} `{RealOps real} (D : nat)
    (cidx xpart : list nat)
    (st : list nat * list (exdata real)) : list nat * list (exdata real) :=
  for_range 0 D (λ d '(cts, exc),
    let ncols := cidx !!! (d + 1) - cidx !!! d in
    if ncols =? 0 then (cts, exc)
    else
      let cts' := rebase cidx xpart d cts in
      (cts', alter (set_send ncols (take ncols (drop (cidx !!! d) cts'))) d exc)) st.

(** The members of [SpMat] that [setup_exchange] writes, and its result. *)
Record exchange (real : Type) := MkExchange {
  x_remote_cols : list (gset nat);
  x_exc : list (exdata real);
  x_cidx : list nat;
  x_rx : list real;
  x_cols_to_send : list nat
}.
Arguments MkExchange {real} _ _ _ _ _.
Arguments x_remote_cols {real} _.
Arguments x_exc {real} _.
Arguments x_cidx {real} _.
Arguments x_rx {real} _.
Arguments x_cols_to_send {real} _.

(** [x_cols_to_send] is the local vector [cols_to_send] as it is when the
    function returns (rebased); the members start as the constructor's
    initialiser list leaves them: [exc(queue.size())], empty [cidx] and
    [rx]. *)
Definition setup_exchange {real : Type} `{RealOps real} (D : nat)
    (part xpart row col : list nat) : exchange real :=
  let exc0 := replicate D exdata_empty in
  if D <=? 1 then MkExchange (replicate D ∅) exc0 [] [] []
  else
    let remote_cols := ghost_sets D part xpart row col in
    let cts := send_list remote_cols in
    if length cts =? 0 then MkExchange remote_cols exc0 [] [] cts
    else
      let exc1 := plan_recv D remote_cols cts exc0 in
      let rx := replicate (length cts) r0 in
      let cidx := build_cidx D xpart cts in
      let '(cts', exc2) := plan_send D cidx xpart (cts, exc1) in
      MkExchange remote_cols exc2 cidx rx cts'.

(** ** The CSR block: [SpMat::SpMatCSR] *)

(** The six host vectors of the renumbering pass (lines 527-533). *)
Record split (real : Type) := MkSplit {
  lrow : list nat;
  lcol : list nat;
  lval : list real;
  rrow : list nat;
  rcol : list nat;
  rval : list real
}.
Arguments MkSplit {real} _ _ _ _ _ _.
Arguments lrow {real} _.
Arguments lcol {real} _.
Arguments lval {real} _.
Arguments rrow {real} _.
Arguments rcol {real} _.
Arguments rval {real} _.

(** Lines 550-554: [idx = r2l.size(); r2l[*c] = idx] over the ghost set in
    increasing order. *)
Definition build_r2l (remote_cols : gset nat) : gmap nat nat :=
  foldl (λ r2l c, <[c := size r2l]> r2l) ∅ (set_elements remote_cols).

Definition push_loc {real : Type} (c : nat) (v : real) (s : split real) : split real :=
  MkSplit (lrow s) (lcol s ++ [c]) (lval s ++ [v]) (rrow s) (rcol s) (rval s).

Definition push_rem {real : Type} (c : nat) (v : real) (s : split real) : split real :=
  MkSplit (lrow s) (lcol s) (lval s) (rrow s) (rcol s ++ [c]) (rval s ++ [v]).

Definition close_row {real : Type} (s : split real) : split real :=
  MkSplit (lrow s ++ [length (lcol s)]) (lcol s) (lval s)
          (rrow s ++ [length (rcol s)]) (rcol s) (rval s).

(** Lines 558-565, one nonzero; [None] is the failure of
    [assert(r2l.count(col[j]))]. *)
Definition split_entry {real : Type} `{RealOps real} (xbeg xend : nat)
    (col : list nat) (val : list real) (r2l : gmap nat nat)
    (j : nat) (s : option (split real)) : option (split real) :=
  s ← s;
  if (xbeg <=? col !!! j) && (col !!! j <? xend)
  then Some (push_loc (col !!! j - xbeg) (val !!! j) s)
  else match r2l !! (col !!! j) with
       | Some k => Some (push_rem k (val !!! j) s)
       | None => None
       end.

(** Lines 556-570, one row. *)
Definition split_row {real : Type} `{RealOps real} (xbeg xend : nat)
    (row col : list nat) (val : list real) (r2l : gmap nat nat)
    (i : nat) (s : option (split real)) : option (split real) :=
  close_row <$>
    for_range (row !!! i) (row !!! (i + 1)) (split_entry xbeg xend col val r2l) s.

Definition split_rows {real : Type} `{RealOps real} (beg end_ xbeg xend : nat)
    (row col : list nat) (val : list real) (remote_cols : gset nat)
    : option (split real) :=
  for_range beg end_ (split_row xbeg xend row col val (build_r2l remote_cols))
    (Some (MkSplit [0] [] []
             (if bool_decide (remote_cols = ∅) then [] else [0]) [] [])).

(** [v.reserve(a - b)] (lines 538-546).  The difference is taken in
    [size_t]: when [a < b] it wraps around to a value above [max_size()]
    and [reserve] throws [std::length_error].  The answer is whether the
    call returns; running out of memory is not modelled. *)
Definition reserve_fits (a b : nat) : bool := b <=? a.

(** The constructor (lines 493-623).  A buffer that is not allocated is
    empty.  [None]: the constructor does not return, because
    [reserve(row[end] - row[beg])] throws or the assertion of line 562
    fails ([split_rows]).  [n] is [end - beg]; the constructor is called
    with [beg < end] (line 299), for which [reserve(end - beg + 1)]
    returns. *)
Definition SpMatCSR_new {real : Type} `{RealOps real} (beg end_ xbeg xend : nat)
    (row col : list nat) (val : list real) (remote_cols : gset nat)
    : option (SpMatCSR real) :=
  let n := end_ - beg in
  if (beg =? 0) && bool_decide (remote_cols = ∅) then
    let nz := row !!! n in
    Some (MkSpMatCSR n (negb (nz =? 0)) false
            (if nz =? 0 then csr_empty
             else Csr (take (n + 1) row) (take nz col) (take nz val))
            csr_empty)
  else if negb (reserve_fits (row !!! end_) (row !!! beg)) then None
  else
    s ← split_rows beg end_ xbeg xend row col val remote_cols;
    let lnz := default 0 (last (lrow s)) in
    Some (MkSpMatCSR n (negb (lnz =? 0)) (negb (bool_decide (remote_cols = ∅)))
            (if lnz =? 0 then csr_empty else Csr (lrow s) (lcol s) (lval s))
            (if bool_decide (remote_cols = ∅) then csr_empty
             else Csr (rrow s) (rcol s) (rval s))).

(** ** Kernels *)

(** The inner loop of [spmv_set] and [spmv_add] (lines 653-657, 703-707):
    [sum = 0; for (j = row[i]; j < row[i+1]; j++) sum += val[j] * x[col[j]]]. *)
Definition row_sum {real : Type} `{RealOps real} (b : csr real) (x : list real)
    (i : nat) : real :=
  for_range (c_row b !!! i) (c_row b !!! (i + 1))
    (λ j sum, radd sum (rmul (c_val b !!! j) (x !!! (c_col b !!! j)))) r0.

(** The rows of one work item: [chunk_start .. chunk_end) (lines 649-652). *)
Definition chunk {S : Type} (n G gid : nat) (body : nat → S → S) (s : S) : S :=
  let chunk_size := (n + G - 1) / G in
  let chunk_start := gid * chunk_size in
  let chunk_end := Nat.min n (chunk_start + chunk_size) in
  for_range chunk_start chunk_end body s.

(** A launch with global size [G]: work items [0 .. G). *)
Definition spmv_set {real : Type} `{RealOps real} (G n : nat) (b : csr real)
    (x y : list real) (alpha : real) : list real :=
  for_range 0 G (λ gid y,
    chunk n G gid (λ i y, <[i := rmul alpha (row_sum b x i)]> y) y) y.

Definition spmv_add {real : Type} `{RealOps real} (G n : nat) (b : csr real)
    (x y : list real) (alpha : real) : list real :=
  for_range 0 G (λ gid y,
    chunk n G gid
      (λ i y, <[i := radd (y !!! i) (rmul alpha (row_sum b x i))]> y) y) y.

(** [gather_vals_to_send] (lines 340-349). *)
Definition gather_vals_to_send {real : Type} `{RealOps real} (G n : nat)
    (vals : list real) (cts : list nat) (vts : list real) : list real :=
  for_range 0 G (λ i vts,
    if i <? n then <[i := vals !!! (cts !!! i)]> vts else vts) vts.

(** ** [mul_local] and [mul_remote] *)

Definition spmv_gsize (dev : device) : nat := num_workgroups dev * wgsize dev.

(** Lines 726-767; [vector<real>(queue, y) = 0] zeroes the whole buffer. *)
Definition mul_local {real : Type} `{RealOps real} (dev : device)
    (A : SpMatCSR real) (x y : list real) (alpha : real) (append : bool)
    : list real :=
  if has_loc A then
    if append then spmv_add (spmv_gsize dev) (n A) (loc A) x y alpha
    else spmv_set (spmv_gsize dev) (n A) (loc A) x y alpha
  else if negb append then replicate (length y) r0
  else y.

(** The events of [SpMat]: [event1[d][0]] and [event2[d][0]]. *)
Inductive event := Event1 (d : nat) | Event2 (d : nat).

Inductive kernel_name := k_spmv_set | k_spmv_add | k_gather_vals_to_send.

(** An [enqueueNDRangeKernel] call: kernel, global and local size and the
    wait list handed to the runtime. *)
Record launch := Launch {
  l_kernel : kernel_name;
  l_global : nat;
  l_local : nat;
  l_wait : list event
}.

(** Lines 770-793: the new contents of [y] and the launch that was
    enqueued, if any. *)
Definition mul_remote {real : Type} `{RealOps real} (dev : device)
    (A : SpMatCSR real) (x y : list real) (alpha : real) (ev : list event)
    : list real * option launch :=
  if negb (has_rem A) then (y, None)
  else (spmv_add (spmv_gsize dev) (n A) (rem A) x y alpha,
        Some (Launch k_spmv_add (spmv_gsize dev) (wgsize dev) ev)).

(** ** The matrix: [SpMat] *)

#[global] Instance device_inhabited : Inhabited device := populate (Device 0 0).

Record SpMat (real : Type) := MkSpMat {
  queue : list device;
  part : list nat;
  mtx : list (option (SpMatCSR real));
  exc : list (exdata real);
  cidx : list nat;
  rx : list real;
  nrows : nat;
  ncols : nat;
  nnz : nat
}.
Arguments MkSpMat {real} _ _ _ _ _ _ _ _ _.
Arguments queue {real} _.
Arguments part {real} _.
Arguments mtx {real} _.
Arguments exc {real} _.
Arguments cidx {real} _.
Arguments rx {real} _.
Arguments nrows {real} _.
Arguments ncols {real} _.
Arguments nnz {real} _.

(** Lines 298-318 for device [d]: [mtx[d]] stays null when the device has
    no row. *)
Definition new_block {real : Type} `{RealOps real} (part xpart row col : list nat)
    (val : list real) (remote_cols : list (gset nat)) (d : nat)
    : option (option (SpMatCSR real)) :=
  if part !!! d <? part !!! (d + 1) then
    Some <$> SpMatCSR_new (part !!! d) (part !!! (d + 1))
               (xpart !!! d) (xpart !!! (d + 1)) row col val (remote_cols !!! d)
  else Some None.

(** The constructor (lines 278-319); [part] and [xpart] stand for
    [partition(n, queue)] and [partition(m, queue)].  [None]: the
    constructor of a block did not return. *)
Definition SpMat_new {real : Type} `{RealOps real} (queue : list device)
    (part xpart : list nat) (n m : nat) (row col : list nat) (val : list real)
    : option (SpMat real) :=
  let D := length queue in
  let ex := setup_exchange D part xpart row col in
  blocks ← mapM (new_block part xpart row col val (x_remote_cols ex)) (seq 0 D);
  Some (MkSpMat queue part blocks (x_exc ex) (x_cidx ex) (x_rx ex) n m (row !!! n)).

(** [enqueueReadBuffer] / [enqueueWriteBuffer] of [len] elements at element
    offset [off] of the destination. *)
Definition copy_into {A : Type} `{Inhabited A} (dst : list A) (off : nat)
    (src : list A) (len : nat) : list A :=
  for_range 0 len (λ k dst, <[off + k := src !!! k]> dst) dst.

Definition with_vals_to_send {real : Type} (v : list real) (e : exdata real)
    : exdata real :=
  MkExdata (cols_to_recv e) (vals_to_recv e) (cols_to_send e) v (ex_rx e).

Definition with_recv {real : Type} (v rxbuf : list real) (e : exdata real)
    : exdata real :=
  MkExdata (cols_to_recv e) v (cols_to_send e) (vals_to_send e) rxbuf.

(** Lines 329-377: every device gathers what it owes and the values are
    read into the host vector [rx] at [cidx[d]]. *)
Definition gather_phase {real : Type} `{RealOps real} (A : SpMat real)
    (xs : list (list real)) : list (exdata real) * list real :=
  for_range 0 (length (queue A)) (λ d '(exc, rx),
    let ncols := cidx A !!! (d + 1) - cidx A !!! d in
    if ncols =? 0 then (exc, rx)
    else
      let e := exc !!! d in
      let g_size := alignup ncols (wgsize (queue A !!! d)) in
      let vts := gather_vals_to_send g_size ncols (xs !!! d)
                   (cols_to_send e) (vals_to_send e) in
      (<[d := with_vals_to_send vts e]> exc, copy_into rx (cidx A !!! d) vts ncols))
    (exc A, rx A).

(** Lines 381-382. *)
Definition local_phase {real : Type} `{RealOps real} (A : SpMat real)
    (xs ys : list (list real)) (alpha : real) (append : bool) : list (list real) :=
  for_range 0 (length (queue A)) (λ d ys,
    match mtx A !!! d with
    | Some M => <[d := mul_local (queue A !!! d) M (xs !!! d) (ys !!! d) alpha append]> ys
    | None => ys
    end) ys.

(** Lines 393-394. *)
Definition redistribute {real : Type} `{RealOps real} (rx : list real)
    (recv : list nat) (vals : list real) : list real :=
  for_range 0 (length recv) (λ i vals, <[i := rx !!! (recv !!! i)]> vals) vals.

(** Lines 389-403; [None] is the call through a null [mtx[d]]. *)
Definition remote_phase {real : Type} `{RealOps real} (A : SpMat real)
    (rx : list real) (alpha : real)
    (st : list (exdata real) * list (list real))
    : option (list (exdata real) * list (list real)) :=
  for_range 0 (length (queue A)) (λ d st,
    '(exc, ys) ← st;
    let e := exc !!! d in
    if length (cols_to_recv e) =? 0 then Some (exc, ys)
    else
      let v := redistribute rx (cols_to_recv e) (vals_to_recv e) in
      let rxbuf := copy_into (ex_rx e) 0 v (length v) in
      M ← mtx A !!! d;
      Some (<[d := with_recv v rxbuf e]> exc,
            <[d := (mul_remote (queue A !!! d) M rxbuf (ys !!! d) alpha [Event2 d]).1]> ys))
    (Some st).

Definition with_staging {real : Type} (exc : list (exdata real)) (rx : list real)
    (A : SpMat real) : SpMat real :=
  MkSpMat (queue A) (part A) (mtx A) exc (cidx A) rx (nrows A) (ncols A) (nnz A).

(** [SpMat::mul] (lines 321-405) on the device parts [x(d)] and [y(d)] of
    the two vectors: the matrix with its staging members as the call leaves
    them, and the new parts of [y].  The reads and writes of the kernels and
    of the host loops are total here; the result is that of the program
    when every access is inside its buffer ([mul_in_bounds],
    [mul_checked]). *)
Definition mul {real : Type} `{RealOps real} (A : SpMat real)
    (xs ys : list (list real)) (alpha : real) (append : bool)
    : option (SpMat real * list (list real)) :=
  if length (rx A) =? 0 then
    Some (A, local_phase A xs ys alpha append)
  else
    let '(exc1, rx1) := gather_phase A xs in
    let ys1 := local_phase A xs ys alpha append in
    '(exc2, ys2) ← remote_phase A rx1 alpha (exc1, ys1);
    Some (with_staging exc2 rx1 A, ys2).

(** ** Reference: dense SpMV and the layout of a distributed vector *)

(** Row [i] of [A x] on the global arrays, columns in storage order. *)
Definition ref_row {real : Type} `{RealOps real} (row col : list nat)
    (val x : list real) (i : nat) : real :=
  for_range (row !!! i) (row !!! (i + 1))
    (λ j sum, radd sum (rmul (val !!! j) (x !!! (col !!! j)))) r0.

(** Device [d]'s part of a vector partitioned by [p] ([vex::vector]). *)
Definition vpart {A : Type} (p : list nat) (v : list A) (d : nat) : list A :=
  take (p !!! (d + 1) - p !!! d) (drop (p !!! d) v).

Definition vparts {A : Type} (D : nat) (p : list nat) (v : list A) : list (list A) :=
  (λ d, vpart p v d) <$> seq 0 D.

(** ** Predicates used in the statements *)

(** [c] is not in the column range [[lo, hi)]. *)
Definition outside (lo hi c : nat) : Prop := ¬ (lo ≤ c < hi).


(** A sorted, duplicate-free array: strictly increasing along its indices. *)
Definition increasing (l : list nat) : Prop :=
  ∀ i j, i < j < length l → l !!! i < l !!! j.

(** What lines 456-464 establish about [cidx], for the send list [cts]
    before it is rebased. *)
Record cidx_spec (D : nat) (xpart cts cidx : list nat) : Prop := {
  cidx_length : length cidx = S D;
  cidx_bound : ∀ d, d ≤ D → cidx !!! d ≤ length cts;
  cidx_mono : ∀ d, d < D → cidx !!! d ≤ cidx !!! (d + 1);
  cidx_ge : ∀ d i, d ≤ D → cidx !!! d ≤ i < length cts → xpart !!! d ≤ cts !!! i;
  cidx_lt : ∀ d i, d < D → cidx !!! d ≤ i < cidx !!! (d + 1) →
            cts !!! i < xpart !!! (d + 1);
  cidx_first : ∀ i, i < cidx !!! 0 → cts !!! i < xpart !!! 0
}.

(** A partition of [[0, N)] over [D] devices: [D + 1] non-decreasing
    boundaries from [0] to [N]. *)
Record partition_ok (D N : nat) (p : list nat) : Prop := {
  p_length : length p = S D;
  p_first : p !!! 0 = 0;
  p_last : p !!! D = N;
  p_mono : ∀ d, d < D → p !!! d ≤ p !!! (d + 1)
}.

(** A well-formed CSR input for an [n] x [m] matrix. *)
Record csr_ok {real : Type} (n m : nat) (row col : list nat) (val : list real)
    : Prop := {
  row_length : length row = S n;
  row_mono : ∀ i, i < n → row !!! i ≤ row !!! (i + 1);
  col_length : length col = row !!! n;
  val_length : length val = row !!! n;
  col_bound : ∀ j, j < row !!! n → col !!! j < m
}.

(** ** Row-wise views *)

(** The positions [j] of the nonzeros of row [i]. *)
Definition row_range (row : list nat) (i : nat) : list nat :=
  seq (row !!! i) (row !!! (i + 1) - row !!! i).

(** Row [r] of a device block: its (column, value) pairs in storage order. *)
Definition block_row {real : Type} `{RealOps real} (b : csr real) (r : nat)
    : list (nat * real) :=
  (λ k, (c_col b !!! k, c_val b !!! k)) <$> row_range (c_row b) r.

(** The nonzeros of global row [i] that the renumbering pass sends to the
    local block, with the column renumbered to [col - xbeg]. *)
Definition local_entries {real : Type} `{RealOps real} (xbeg xend : nat)
    (row col : list nat) (val : list real) (i : nat) : list (nat * real) :=
  (λ j, (col !!! j - xbeg, val !!! j)) <$>
    filter (λ j, xbeg ≤ col !!! j < xend) (row_range row i).

(** The nonzeros sent to the remote block, with the column renumbered
    through [r2l]. *)
Definition remote_entries {real : Type} `{RealOps real} (xbeg xend : nat)
    (row col : list nat) (val : list real) (r2l : gmap nat nat) (i : nat)
    : list (nat * real) :=
  (λ j, (default 0 (r2l !! (col !!! j)), val !!! j)) <$>
    filter (λ j, outside xbeg xend (col !!! j)) (row_range row i).

(** [rp], [cs], [vs] hold the rows [0 .. m) of a block whose row [r] is
    [E r], and [rp] ends with the number of entries so far. *)
Definition rows_built {real : Type} `{RealOps real} (rp cs : list nat)
    (vs : list real) (E : nat → list (nat * real)) (m : nat) : Prop :=
  length rp = S m ∧ length vs = length cs ∧ last rp = Some (length cs) ∧
  ∀ r, r < m → rp !!! (r + 1) ≤ length cs ∧ block_row (Csr rp cs vs) r = E r.

(** [sum += v * x[c]] over a list of (column, value) pairs. *)
Definition dot {real : Type} `{RealOps real} (x : list real)
    (es : list (nat * real)) : real :=
  foldl (λ sum e, radd sum (rmul e.2 (x !!! e.1))) r0 es.

(** [((0 + t1) + t2) + ...]. *)
Definition rsum {real : Type} `{RealOps real} (ts : list real) : real :=
  foldl radd r0 ts.

(** The input arrays can be read for the rows [[beg, end_)]: [row] holds
    the offsets of these rows, none of them is past the end of [col], and
    [val] is as long as [col].  Nothing is asked of the order of the offsets
    or of the values of the columns. *)
Definition rows_readable {real : Type} (beg end_ : nat) (row col : list nat)
    (val : list real) : Prop :=
  end_ < length row ∧ length val = length col ∧
  ∀ i, beg ≤ i ≤ end_ → row !!! i ≤ length col.

(** ** The matrix between two calls of [mul] *)

(** [e] is [e0] up to the contents of the staging buffers. *)
Definition same_plan {real : Type} (e0 e : exdata real) : Prop :=
  cols_to_recv e = cols_to_recv e0 ∧
  cols_to_send e = cols_to_send e0 ∧
  length (vals_to_recv e) = length (vals_to_recv e0) ∧
  length (vals_to_send e) = length (vals_to_send e0) ∧
  length (ex_rx e) = length (ex_rx e0).

(** [A] is the matrix constructed from the given input, up to the contents
    of the staging buffers [rx], [vals_to_send], [vals_to_recv] and
    [exc[d].rx], which [mul] overwrites. *)
Record built {real : Type} `{RealOps real} (q : list device)
    (part xpart row col : list nat) (val : list real) (A : SpMat real) : Prop := {
  built_queue : queue A = q;
  built_mtx :
    mapM (new_block part xpart row col val
            (x_remote_cols (setup_exchange (real:=real) (length q) part xpart row col)))
         (seq 0 (length q)) = Some (mtx A);
  built_cidx :
    cidx A = x_cidx (setup_exchange (real:=real) (length q) part xpart row col);
  built_rx :
    length (rx A)
    = length (x_rx (setup_exchange (real:=real) (length q) part xpart row col));
  built_exc_length : length (exc A) = length q;
  built_exc : ∀ d, d < length q →
    same_plan (x_exc (setup_exchange (real:=real) (length q) part xpart row col) !!! d)
              (exc A !!! d)
}.

(** The fast path of the block constructor is entered only by a device
    whose column range starts at 0. *)
Definition fast_path_sound (D : nat) (part xpart : list nat) : Prop :=
  ∀ d, d < D → part !!! d = 0 → part !!! d < part !!! (d + 1) → xpart !!! d = 0.

(** [y = alpha A x], or [y += alpha A x], by the reference. *)
Definition ref_mul {real : Type} `{RealOps real} (nr : nat) (row col : list nat)
    (val x y : list real) (alpha : real) (append : bool) : list real :=
  (λ i, if append then radd (y !!! i) (rmul alpha (ref_row row col val x i))
        else rmul alpha (ref_row row col val x i)) <$> seq 0 nr.

(** ** The calibration run: [device_spmv_perf] *)

(** Lines 826-858 with the increment [i++, idx++]: one grid point.  The
    host vectors [row], [col], [val] are the three lists of a [csr];
    [one], [off] and [diag] stand for the values [1], [-h2i] and [6 * h2i],
    which the source computes in [float]. *)
Definition poisson_point {real : Type} (n : nat) (one off diag : real)
    (i j k : nat) (st : csr real * nat) : csr real * nat :=
  let '(m, idx) := st in
  let back := default 0 (last (c_row m)) in
  (if (i =? 0) || (i =? n - 1) || (j =? 0) || (j =? n - 1) ||
      (k =? 0) || (k =? n - 1)
   then Csr (c_row m ++ [back + 1]) (c_col m ++ [idx]) (c_val m ++ [one])
   else Csr (c_row m ++ [back + 7])
          (c_col m ++ [idx - n * n; idx - n; idx - 1; idx;
                       idx + 1; idx + n; idx + n * n])
          (c_val m ++ [off; off; off; diag; off; off; off]),
   S idx).

(** Lines 822-861: the matrix of the 3D Poisson problem on an [n]^3 grid. *)
Definition poisson_matrix {real : Type} (n : nat) (one off diag : real)
    : csr real :=
  (for_range 0 n (λ k,
     for_range 0 n (λ j,
       for_range 0 n (λ i, poisson_point n one off diag i j k)))
     (Csr [0] [] [], 0)).1.

(** Lines 864-876 without the timing: the matrix on the single queue, [x = 1]
    and the two runs of [A.mul(x, y)] ([alpha = 1], [append = false]); [y] is
    the content of the freshly allocated vector.  Modelled from the spec:
    [partition(n3, queue)] returns D + 1 boundaries from 0 to n3, which for
    the one queue of this function is [[0, n3]]. *)
Definition device_spmv_perf_runs {real : Type} `{RealOps real} (dev : device)
    (n : nat) (one off diag : real) (y : list real)
    : option (SpMat real * list (list real)) :=
  let n3 := n * n * n in
  let P := poisson_matrix n one off diag in
  A ← SpMat_new [dev] [0; n3] [0; n3] n3 n3 (c_row P) (c_col P) (c_val P);
  '(A1, y1) ← mul A [replicate n3 one] [y] one false;
  mul A1 [replicate n3 one] y1 one false.

(** Row [idx] of the Poisson matrix: the grid point [(i, j, k)] with
    [idx = (k n + j) n + i] carries the identity on the boundary of the cube
    and the 7-point stencil inside. *)
Definition poisson_row {real : Type} (n : nat) (one off diag : real)
    (idx : nat) : list (nat * real) :=
  let i := idx mod n in
  let j := idx / n mod n in
  let k := idx / (n * n) in
  if (i =? 0) || (i =? n - 1) || (j =? 0) || (j =? n - 1) ||
     (k =? 0) || (k =? n - 1)
  then [(idx, one)]
  else [(idx - n * n, off); (idx - n, off); (idx - 1, off); (idx, diag);
        (idx + 1, off); (idx + n, off); (idx + n * n, off)].

(** The state of the loops of [device_spmv_perf] after [m] grid points:
    [idx] is [m], [row] starts with 0 and the vectors hold the rows
    [0 .. m) of the Poisson matrix. *)
Definition poisson_inv {real : Type} `{RealOps real} (n : nat)
    (one off diag : real) (m : nat) (st : csr real * nat) : Prop :=
  st.2 = m ∧ c_row st.1 !!! 0 = 0 ∧
  rows_built (c_row st.1) (c_col st.1) (c_val st.1)
    (poisson_row n one off diag) m.

(** ** Work distribution of the kernels *)

(** Lines 649-652 and 699-702: the rows [[chunk_start, chunk_end)] of the
    work item [gid] in a launch of [G] work items. *)
Definition chunk_range (n G gid : nat) : nat * nat :=
  let chunk_size := (n + G - 1) / G in
  let chunk_start := gid * chunk_size in
  (chunk_start, Nat.min n (chunk_start + chunk_size)).

(** ** Products with a multivector: [multispmv::apply] *)


(** ** What [mul] computes, in the order in which the kernels add *)

(** The nonzeros of row [i] whose column is inside [[xlo, xhi)], and the
    others, as (column, value) pairs with the global column, in storage
    order. *)
Definition inner_entries {real : Type} `{RealOps real} (xlo xhi : nat)
    (row col : list nat) (val : list real) (i : nat) : list (nat * real) :=
  (λ j, (col !!! j, val !!! j)) <$>
    filter (λ j, xlo ≤ col !!! j < xhi) (row_range row i).

Definition outer_entries {real : Type} `{RealOps real} (xlo xhi : nat)
    (row col : list nat) (val : list real) (i : nat) : list (nat * real) :=
  (λ j, (col !!! j, val !!! j)) <$>
    filter (λ j, outside xlo xhi (col !!! j)) (row_range row i).

(** The rows of device [d]. *)
Definition dev_rows (part : list nat) (d : nat) : list nat :=
  seq (part !!! d) (part !!! (d + 1) - part !!! d).

(** Some row of device [d] has a nonzero inside (outside) the column range
    of the device. *)
Definition has_inner (part xpart row col : list nat) (d : nat) : bool :=
  bool_decide (Exists (λ i,
    Exists (λ j, xpart !!! d ≤ col !!! j < xpart !!! (d + 1)) (row_range row i))
    (dev_rows part d)).

Definition has_outer (part xpart row col : list nat) (d : nat) : bool :=
  bool_decide (Exists (λ i,
    Exists (λ j, outside (xpart !!! d) (xpart !!! (d + 1)) (col !!! j))
      (row_range row i))
    (dev_rows part d)).

(** Row [i] of device [d] after [y = alpha A x] or [y += alpha A x]: the
    sum over the nonzeros inside the column range is scaled and stored or
    added first (a device without such a nonzero fills with zeros or keeps
    [y]), then, on a device with a nonzero outside its column range, the
    scaled sum over the other nonzeros of the row is added.  Every sum
    starts from 0 and runs in storage order. *)
Definition mul_row_value {real : Type} `{RealOps real}
    (part xpart row col : list nat) (val x y : list real) (alpha : real)
    (append : bool) (d i : nat) : real :=
  let l := rmul alpha (dot x (inner_entries (xpart !!! d) (xpart !!! (d + 1))
                                row col val i)) in
  let y1 := if has_inner part xpart row col d
            then (if append then radd (y !!! i) l else l)
            else (if append then y !!! i else r0) in
  if has_outer part xpart row col d
  then radd y1 (rmul alpha (dot x (outer_entries (xpart !!! d) (xpart !!! (d + 1))
                                     row col val i)))
  else y1.

(** The parts of [y], one per device. *)
Definition mul_value {real : Type} `{RealOps real} (D : nat)
    (part xpart row col : list nat) (val x y : list real) (alpha : real)
    (append : bool) : list (list real) :=
  (λ d, (λ i, mul_row_value part xpart row col val x y alpha append d i)
          <$> dev_rows part d) <$> seq 0 D.

(** ** The buffer accesses of [mul] *)

(** Every index that a launch of [spmv_set] or [spmv_add] over [n] rows
    uses is inside its buffer (lines 649-658): [row[i]], [row[i + 1]] and
    [y[i]] for a row [i < n], and [col[j]], [val[j]] and [x[col[j]]] for
    [j] from [row[i]] up to [row[i + 1]]. *)
Definition spmv_in_bounds {real : Type} (n : nat) (b : csr real)
    (x y : list real) : Prop :=
  ∀ i, i < n →
    i + 1 < length (c_row b) ∧ i < length y ∧
    ∀ j, c_row b !!! i ≤ j < c_row b !!! (i + 1) →
      j < length (c_col b) ∧ j < length (c_val b) ∧
      c_col b !!! j < length x.

(** Every index that [mul] (lines 321-405) uses on the call [mul(x, y)] is
    inside its buffer or vector, and [mtx[d]] is not null where it is
    dereferenced without a test.  The lengths of the buffers do not change
    during the call, so they are those of the matrix before the call. *)
Definition mul_in_bounds {real : Type} `{RealOps real} (A : SpMat real)
    (xs ys : list (list real)) : Prop :=
  length xs = length (queue A) ∧ length ys = length (queue A) ∧
  length (mtx A) = length (queue A) ∧ length (exc A) = length (queue A) ∧
  ∀ d, d < length (queue A) →
    let e := exc A !!! d in
    let ncols := cidx A !!! (d + 1) - cidx A !!! d in
    (* lines 327-377: [cidx[d + 1]], the gather kernel, the read into [rx] *)
    (length (rx A) ≠ 0 →
       d + 1 < length (cidx A) ∧
       (ncols ≠ 0 →
          ncols ≤ length (cols_to_send e) ∧ ncols ≤ length (vals_to_send e) ∧
          cidx A !!! d + ncols ≤ length (rx A) ∧
          ∀ t, t < ncols → cols_to_send e !!! t < length (xs !!! d))) ∧
    (* lines 381-382: the kernel of [mul_local] *)
    (∀ M, mtx A !!! d = Some M → has_loc M = true →
       spmv_in_bounds (n M) (loc M) (xs !!! d) (ys !!! d)) ∧
    (* lines 385-403: [vals_to_recv[i] = rx[cols_to_recv[i]]], the write
       into [exc[d].rx], the call through [mtx[d]], the kernel of
       [mul_remote] *)
    (length (rx A) ≠ 0 → cols_to_recv e ≠ [] →
       length (cols_to_recv e) ≤ length (vals_to_recv e) ∧
       length (vals_to_recv e) ≤ length (ex_rx e) ∧
       (∀ t, t < length (cols_to_recv e) →
          cols_to_recv e !!! t < length (rx A)) ∧
       ∃ M, mtx A !!! d = Some M ∧
            (has_rem M = true →
             spmv_in_bounds (n M) (rem M) (ex_rx e) (ys !!! d))).

(** ** [mul] with every access checked

    The code of [mul] and of its kernels once more, with every read [a[i]]
    as the partial lookup [a !! i] and every write [a[i] = v] as
    [write a i v].  [None] is an access outside an array, which is
    undefined behaviour in the program, or the call through a null
    [mtx[d]]. *)

Definition write {A : Type} (l : list A) (i : nat) (v : A) : option (list A) :=
  if decide (i < length l) then Some (<[i := v]> l) else None.

(** [for (i = lo; i < hi; i++)] with a body that can fail. *)
Definition for_range_opt {S : Type} (lo hi : nat) (body : nat → S → option S)
    (s : S) : option S :=
  for_range lo hi (λ i st, st ≫= body i) (Some s).

(** Lines 653-657. *)
Definition row_sum_checked {real : Type} `{RealOps real} (b : csr real)
    (x : list real) (i : nat) : option real :=
  beg ← c_row b !! i;
  end_ ← c_row b !! (i + 1);
  for_range_opt beg end_ (λ j sum,
    c ← c_col b !! j;
    v ← c_val b !! j;
    xc ← x !! c;
    Some (radd sum (rmul v xc))) r0.

(** Lines 649-652. *)
Definition chunk_checked {S : Type} (n G gid : nat) (body : nat → S → option S)
    (s : S) : option S :=
  let chunk_size := (n + G - 1) / G in
  let chunk_start := gid * chunk_size in
  let chunk_end := Nat.min n (chunk_start + chunk_size) in
  for_range_opt chunk_start chunk_end body s.

Definition spmv_set_checked {real : Type} `{RealOps real} (G n : nat)
    (b : csr real) (x y : list real) (alpha : real) : option (list real) :=
  for_range_opt 0 G (λ gid y,
    chunk_checked n G gid (λ i y,
      sum ← row_sum_checked b x i;
      write y i (rmul alpha sum)) y) y.

Definition spmv_add_checked {real : Type} `{RealOps real} (G n : nat)
    (b : csr real) (x y : list real) (alpha : real) : option (list real) :=
  for_range_opt 0 G (λ gid y,
    chunk_checked n G gid (λ i y,
      sum ← row_sum_checked b x i;
      yi ← y !! i;
      write y i (radd yi (rmul alpha sum))) y) y.

(** Lines 340-349. *)
Definition gather_vals_to_send_checked {real : Type} `{RealOps real} (G n : nat)
    (vals : list real) (cts : list nat) (vts : list real) : option (list real) :=
  for_range_opt 0 G (λ i vts,
    if i <? n then
      c ← cts !! i;
      v ← vals !! c;
      write vts i v
    else Some vts) vts.

(** Lines 726-767. *)
Definition mul_local_checked {real : Type} `{RealOps real} (dev : device)
    (A : SpMatCSR real) (x y : list real) (alpha : real) (append : bool)
    : option (list real) :=
  if has_loc A then
    if append then spmv_add_checked (spmv_gsize dev) (n A) (loc A) x y alpha
    else spmv_set_checked (spmv_gsize dev) (n A) (loc A) x y alpha
  else Some (if negb append then replicate (length y) r0 else y).

(** Lines 770-793. *)
Definition mul_remote_checked {real : Type} `{RealOps real} (dev : device)
    (A : SpMatCSR real) (x y : list real) (alpha : real) (ev : list event)
    : option (list real * option launch) :=
  if negb (has_rem A) then Some (y, None)
  else
    y' ← spmv_add_checked (spmv_gsize dev) (n A) (rem A) x y alpha;
    Some (y', Some (Launch k_spmv_add (spmv_gsize dev) (wgsize dev) ev)).

Definition copy_into_checked {A : Type} (dst : list A) (off : nat)
    (src : list A) (len : nat) : option (list A) :=
  for_range_opt 0 len (λ k dst, v ← src !! k; write dst (off + k) v) dst.

(** Lines 329-377. *)
Definition gather_phase_checked {real : Type} `{RealOps real} (A : SpMat real)
    (xs : list (list real)) : option (list (exdata real) * list real) :=
  for_range_opt 0 (length (queue A)) (λ d '(exc, rx),
    lo ← cidx A !! d;
    hi ← cidx A !! (d + 1);
    let ncols := hi - lo in
    if ncols =? 0 then Some (exc, rx)
    else
      e ← exc !! d;
      x ← xs !! d;
      let g_size := alignup ncols (wgsize (queue A !!! d)) in
      vts ← gather_vals_to_send_checked g_size ncols x
               (cols_to_send e) (vals_to_send e);
      rx' ← copy_into_checked rx lo vts ncols;
      Some (<[d := with_vals_to_send vts e]> exc, rx'))
    (exc A, rx A).

(** Lines 381-382. *)
Definition local_phase_checked {real : Type} `{RealOps real} (A : SpMat real)
    (xs ys : list (list real)) (alpha : real) (append : bool)
    : option (list (list real)) :=
  for_range_opt 0 (length (queue A)) (λ d ys,
    m ← mtx A !! d;
    match m with
    | Some M =>
        x ← xs !! d;
        y ← ys !! d;
        y' ← mul_local_checked (queue A !!! d) M x y alpha append;
        Some (<[d := y']> ys)
    | None => Some ys
    end) ys.

(** Lines 393-394. *)
Definition redistribute_checked {real : Type} `{RealOps real} (rx : list real)
    (recv : list nat) (vals : list real) : option (list real) :=
  for_range_opt 0 (length recv) (λ i vals,
    c ← recv !! i;
    v ← rx !! c;
    write vals i v) vals.

(** Lines 389-403. *)
Definition remote_phase_checked {real : Type} `{RealOps real} (A : SpMat real)
    (rx : list real) (alpha : real)
    (st : list (exdata real) * list (list real))
    : option (list (exdata real) * list (list real)) :=
  for_range_opt 0 (length (queue A)) (λ d '(exc, ys),
    e ← exc !! d;
    if length (cols_to_recv e) =? 0 then Some (exc, ys)
    else
      v ← redistribute_checked rx (cols_to_recv e) (vals_to_recv e);
      rxbuf ← copy_into_checked (ex_rx e) 0 v (length v);
      m ← mtx A !! d;
      M ← m;
      y ← ys !! d;
      r ← mul_remote_checked (queue A !!! d) M rxbuf y alpha [Event2 d];
      Some (<[d := with_recv v rxbuf e]> exc, <[d := r.1]> ys)) st.

(** [SpMat::mul] (lines 321-405). *)
Definition mul_checked {real : Type} `{RealOps real} (A : SpMat real)
    (xs ys : list (list real)) (alpha : real) (append : bool)
    : option (SpMat real * list (list real)) :=
  if length (rx A) =? 0 then
    ys1 ← local_phase_checked A xs ys alpha append;
    Some (A, ys1)
  else
    '(exc1, rx1) ← gather_phase_checked A xs;
    ys1 ← local_phase_checked A xs ys alpha append;
    '(exc2, ys2) ← remote_phase_checked A rx1 alpha (exc1, ys1);
    Some (with_staging exc2 rx1 A, ys2).

(** ** Concrete inputs *)

(** Two devices, a 4 x 4 matrix with two nonzeros per row, rows and columns
    split two and two. *)
Definition ex_queue : list device := [Device 4 2; Device 4 2].
Definition ex_part : list nat := [0; 2; 4].
Definition ex_row : list nat := [0; 2; 4; 6; 8].
Definition ex_col : list nat := [0; 3; 1; 2; 0; 2; 1; 3].
Definition ex_val : list Z := [1; 2; 3; 4; 5; 6; 7; 8]%Z.
Definition ex_x : list Z := [10; 20; 30; 40]%Z.

(** Device 0's block of the matrix above, as the constructor builds it. *)
Definition ex_block : SpMatCSR Z :=
  MkSpMatCSR 2 true true
    (Csr [0; 1; 2] [0; 1] [1; 3]%Z) (Csr [0; 1; 2] [1; 0] [2; 4]%Z).

(** A block of two rows whose local and remote parts are both empty. *)
Definition ex_block_none : SpMatCSR Z :=
  MkSpMatCSR 2 false false csr_empty csr_empty.

(** Malformed CSR inputs: a column index 5 in a matrix of two columns, and
    row offsets that decrease.  [bad_part] gives one row to each of two
    devices, [one_part] both rows to a single device. *)
Definition bad_part : list nat := [0; 1; 2].
Definition one_queue : list device := [Device 4 2].
Definition one_part : list nat := [0; 2].
Definition bad_row : list nat := [0; 1; 2].
Definition bad_col : list nat := [5; 0].
Definition bad_val : list Z := [1; 1]%Z.
Definition bad_row' : list nat := [0; 2; 1].
Definition bad_col' : list nat := [0; 1].

(** Two devices whose shares are 1 : 3, a 3 x 64 matrix with the single
    nonzero [A[0][16] = 1]: [partition(3, queue)] leaves device 0 without
    rows, [partition(64, queue)] gives it the columns [[0, 16)]. *)
Definition bug_queue : list device := [Device 4 2; Device 4 2].
Definition bug_part : list nat := [0; 0; 3].
Definition bug_xpart : list nat := [0; 16; 64].
Definition bug_row : list nat := [0; 1; 1; 1].
Definition bug_col : list nat := [16].
Definition bug_val : list Z := [1]%Z.
Definition bug_x : list Z := Z.of_nat <$> seq 0 64.
(** * Properties *)

(** ** Loops *)

Lemma for_range_nil {St : Type} (lo hi : nat) (body : nat → St → St) (s : St) :
  hi ≤ lo → for_range lo hi body s = s.
Proof.
  intros Hle. unfold for_range.
  by replace (hi - lo) with 0 by lia.
Qed.

Lemma for_range_S {St : Type} (lo hi : nat) (body : nat → St → St) (s : St) :
  lo ≤ hi → for_range lo (S hi) body s = body hi (for_range lo hi body s).
Proof.
  intros Hle. unfold for_range.
  replace (S hi - lo) with (S (hi - lo)) by lia.
  rewrite seq_S, foldl_app. simpl.
  by replace (lo + (hi - lo)) with hi by lia.
Qed.

(** Loop invariant rule: [P i s] holds of the state before iteration [i]. *)
Lemma for_range_ind {St : Type} (P : nat → St → Prop) (lo hi : nat)
    (body : nat → St → St) (s : St) :
  lo ≤ hi →
  P lo s →
  (∀ i s, lo ≤ i < hi → P i s → P (S i) (body i s)) →
  P hi (for_range lo hi body s).
Proof.
  intros Hle H0 Hstep.
  induction hi as [|hi IH].
  - assert (lo = 0) as -> by lia. by rewrite for_range_nil.
  - destruct (decide (lo = S hi)) as [->|Hne].
    + by rewrite for_range_nil.
    + rewrite for_range_S by lia. apply Hstep; [lia|].
      apply IH; [lia|]. intros i s' Hi. apply Hstep. lia.
Qed.

(** The same rule when the bounds may be crossed: the loop then does not
    run. *)
Lemma for_range_inv {St : Type} (P : nat → St → Prop) (lo hi : nat)
    (body : nat → St → St) (s : St) :
  P lo s →
  (∀ i s, lo ≤ i < hi → P i s → P (S i) (body i s)) →
  P (lo `max` hi) (for_range lo hi body s).
Proof.
  intros H0 Hstep.
  destruct (decide (lo ≤ hi)) as [Hle|Hgt].
  - replace (lo `max` hi) with hi by lia. by apply for_range_ind.
  - replace (lo `max` hi) with lo by lia. by rewrite for_range_nil by lia.
Qed.

Lemma for_range_ext {St : Type} (lo hi : nat) (f g : nat → St → St) (s : St) :
  (∀ i s, lo ≤ i < hi → f i s = g i s) →
  for_range lo hi f s = for_range lo hi g s.
Proof.
  intros Hfg.
  destruct (decide (lo ≤ hi)) as [Hle|Hgt].
  - apply (for_range_ind (λ i t, t = for_range lo i g s) lo hi f s Hle).
    + by rewrite for_range_nil.
    + intros i t Hi ->. rewrite for_range_S by lia. apply Hfg. lia.
  - by rewrite !for_range_nil by lia.
Qed.

(** ** Ghost sets (lines 417-427) *)

Lemma outside_test (lo hi c : nat) :
  (c <? lo) || (hi <=? c) = true ↔ outside lo hi c.
Proof.
  unfold outside. rewrite orb_true_iff, Nat.ltb_lt, Nat.leb_le. lia.
Qed.

Lemma elem_of_ghost_row (xlo xhi : nat) (row col : list nat) (i : nat)
    (s : gset nat) (c : nat) :
  c ∈ ghost_row xlo xhi row col i s ↔
  c ∈ s ∨ ∃ j, row !!! i ≤ j < row !!! (i + 1) ∧ col !!! j = c ∧ outside xlo xhi c.
Proof.
  unfold ghost_row.
  set (lo := row !!! i). set (hi := row !!! (i + 1)).
  pose (P := λ (k : nat) (t : gset nat),
    c ∈ t ↔ c ∈ s ∨ ∃ j, lo ≤ j < k ∧ j < hi ∧ col !!! j = c ∧ outside xlo xhi c).
  assert (P (lo `max` hi) (for_range lo hi (λ j s0,
    if (col !!! j <? xlo) || (xhi <=? col !!! j)
    then {[ col !!! j ]} ∪ s0 else s0) s)) as HP.
  { apply for_range_inv.
    - unfold P. split; [by left|]. intros [?|(j & ? & _)]; [done|lia].
    - intros k t Hk IH. unfold P in *.
      destruct ((col !!! k <? xlo) || (xhi <=? col !!! k)) eqn:Ht.
      + apply outside_test in Ht. rewrite elem_of_union, elem_of_singleton, IH.
        split.
        * intros [->|[?|(j & ? & ? & ? & ?)]]; [right; exists k|by left|right; exists j];
            repeat split; try done; lia.
        * intros [?|(j & ? & ? & ? & ?)]; [by right; left|].
          destruct (decide (j = k)) as [->|]; [by left|].
          right; right. exists j. repeat split; try done; lia.
      + assert (¬ outside xlo xhi (col !!! k)) as Hin.
        { rewrite <-outside_test, Ht. done. }
        rewrite IH. split.
        * intros [?|(j & ? & ? & ? & ?)]; [by left|right; exists j].
          repeat split; try done; lia.
        * intros [?|(j & ? & ? & ? & ?)]; [by left|].
          destruct (decide (j = k)) as [->|]; [by subst c|].
          right. exists j. repeat split; try done; lia. }
  unfold P in HP. rewrite HP. split.
  - intros [?|(j & ? & ? & ? & ?)]; [by left|right; exists j]. repeat split; try done; lia.
  - intros [?|(j & ? & ? & ?)]; [by left|right; exists j]. repeat split; try done; lia.
Qed.

Lemma elem_of_ghost_set (part xpart row col : list nat) (d c : nat) :
  c ∈ ghost_set part xpart row col d ↔
  ∃ i j, part !!! d ≤ i < part !!! (d + 1) ∧
         row !!! i ≤ j < row !!! (i + 1) ∧
         col !!! j = c ∧ outside (xpart !!! d) (xpart !!! (d + 1)) c.
Proof.
  unfold ghost_set.
  set (lo := part !!! d). set (hi := part !!! (d + 1)).
  set (xlo := xpart !!! d). set (xhi := xpart !!! (d + 1)).
  pose (P := λ (k : nat) (t : gset nat),
    c ∈ t ↔ ∃ i j, (lo ≤ i < k ∧ i < hi) ∧ row !!! i ≤ j < row !!! (i + 1) ∧
                   col !!! j = c ∧ outside xlo xhi c).
  assert (P (lo `max` hi) (for_range lo hi (ghost_row xlo xhi row col) ∅)) as HP.
  { apply for_range_inv.
    - unfold P. split; [set_solver|]. intros (i & j & ? & _). lia.
    - intros k t Hk IH. unfold P in *.
      rewrite elem_of_ghost_row, IH. split.
      + intros [(i & j & ? & ? & ? & ?)|(j & ? & ? & ?)].
        * exists i, j. repeat split; try done; lia.
        * exists k, j. repeat split; try done; lia.
      + intros (i & j & ? & ? & ? & ?).
        destruct (decide (i = k)) as [->|].
        * right. by exists j.
        * left. exists i, j. repeat split; try done; lia. }
  unfold P in HP. rewrite HP. split.
  - intros (i & j & ? & ?). exists i, j. split; [lia|done].
  - intros (i & j & ? & ?). exists i, j. split; [lia|done].
Qed.

Lemma length_ghost_sets (D : nat) (part xpart row col : list nat) :
  length (ghost_sets D part xpart row col) = D.
Proof. unfold ghost_sets. by rewrite length_fmap, length_seq. Qed.

Lemma lookup_ghost_sets (D : nat) (part xpart row col : list nat) (d : nat) :
  d < D →
  ghost_sets D part xpart row col !!! d = ghost_set part xpart row col d.
Proof.
  intros Hd. unfold ghost_sets.
  apply list_lookup_total_correct.
  rewrite list_lookup_fmap, lookup_seq_lt by done. done.
Qed.

Lemma setup_exchange_remote_cols {real : Type} `{RealOps real} (D : nat)
    (part xpart row col : list nat) :
  2 ≤ D →
  x_remote_cols (setup_exchange (real:=real) D part xpart row col)
  = ghost_sets D part xpart row col.
Proof.
  intros HD. unfold setup_exchange.
  destruct (D <=? 1) eqn:E; [apply Nat.leb_le in E; lia|].
  simpl. destruct (length _ =? 0); [done|].
  by destruct (plan_send _ _ _ _).
Qed.

(** ** [std::set] iteration and the send list (lines 429-437) *)

Lemma StronglySorted_lookup_le (l : list nat) (i j x y : nat) :
  StronglySorted (≤) l → l !! i = Some x → l !! j = Some y → i < j → x ≤ y.
Proof.
  intros Hs. revert i j. induction Hs as [|a l Hs IH Hall]; intros i j Hi Hj Hij.
  - done.
  - destruct j as [|j]; [lia|]. simpl in Hj.
    destruct i as [|i]; simpl in Hi.
    + injection Hi as ->. rewrite Forall_forall in Hall.
      apply Hall. by eapply list_elem_of_lookup_2.
    + apply (IH i j); [done..|lia].
Qed.

Lemma elem_of_set_elements (s : gset nat) (c : nat) :
  c ∈ set_elements s ↔ c ∈ s.
Proof. unfold set_elements. by rewrite merge_sort_Permutation, elem_of_elements. Qed.

Lemma NoDup_set_elements (s : gset nat) : NoDup (set_elements s).
Proof.
  unfold set_elements.
  rewrite merge_sort_Permutation. apply NoDup_elements.
Qed.

Lemma length_set_elements (s : gset nat) : length (set_elements s) = size s.
Proof. unfold set_elements. by rewrite merge_sort_Permutation. Qed.

Lemma increasing_set_elements (s : gset nat) : increasing (set_elements s).
Proof.
  intros i j [Hij Hj].
  assert (is_Some (set_elements s !! i)) as [x Hx] by (apply lookup_lt_is_Some; lia).
  assert (is_Some (set_elements s !! j)) as [y Hy] by (by apply lookup_lt_is_Some).
  rewrite (list_lookup_total_correct _ _ _ Hx), (list_lookup_total_correct _ _ _ Hy).
  assert (x ≤ y) as Hle.
  { eapply (StronglySorted_lookup_le (set_elements s)); [|done..].
    apply StronglySorted_merge_sort; apply _. }
  assert (x ≠ y); [|lia].
  intros ->. pose proof (NoDup_set_elements s) as Hnd.
  rewrite NoDup_alt in Hnd. specialize (Hnd i j y Hx Hy). lia.
Qed.

Lemma lookup_set_elements_elem_of (s : gset nat) (i : nat) :
  i < size s → set_elements s !!! i ∈ s.
Proof.
  intros Hi. apply elem_of_set_elements, list_elem_of_lookup_total_2.
  by rewrite length_set_elements.
Qed.

Lemma increasing_inj (l : list nat) (i j : nat) :
  increasing l → i < length l → j < length l → l !!! i = l !!! j → i = j.
Proof.
  intros Hinc Hi Hj Heq.
  destruct (Nat.lt_trichotomy i j) as [Hlt|[->|Hlt]]; [|done|].
  - specialize (Hinc i j). lia.
  - specialize (Hinc j i). lia.
Qed.

Lemma increasing_le (l : list nat) (i j : nat) :
  increasing l → i ≤ j → j < length l → l !!! i ≤ l !!! j.
Proof.
  intros Hinc Hij Hj. destruct (decide (i = j)) as [->|]; [done|].
  specialize (Hinc i j). lia.
Qed.

Lemma elem_of_foldl_union (l : list (gset nat)) (acc : gset nat) (c : nat) :
  c ∈ foldl (λ acc s, acc ∪ s) acc l ↔ c ∈ acc ∨ ∃ s, s ∈ l ∧ c ∈ s.
Proof.
  revert acc. induction l as [|s l IH]; intros acc; simpl.
  - split; [by left|]. intros [?|(s & Hs & _)]; [done|]. by apply elem_of_nil in Hs.
  - rewrite IH, elem_of_union. split.
    + intros [[?|?]|(s' & ? & ?)]; [by left|right; exists s|right; exists s'];
        split; try done; [left|by right].
    + intros [?|(s' & Hs' & ?)]; [by left; left|].
      apply elem_of_cons in Hs' as [->|?]; [by left; right|right; by exists s'].
Qed.

Lemma elem_of_send_list (rc : list (gset nat)) (c : nat) :
  c ∈ send_list rc ↔ ∃ d, d < length rc ∧ c ∈ rc !!! d.
Proof.
  unfold send_list. rewrite elem_of_set_elements, elem_of_foldl_union. split.
  - intros [Hc|(s & Hs & Hc)]; [set_solver|].
    apply list_elem_of_lookup in Hs as [d Hd].
    exists d. split; [by eapply lookup_lt_Some|].
    by rewrite (list_lookup_total_correct _ _ _ Hd).
  - intros (d & Hd & Hc). right. exists (rc !!! d). split; [|done].
    by apply list_elem_of_lookup_total_2.
Qed.

Lemma increasing_send_list (rc : list (gset nat)) : increasing (send_list rc).
Proof. apply increasing_set_elements. Qed.

(** ** [std::lower_bound] and [cidx] (lines 456-464) *)

Lemma lower_bound_loop_spec (fuel : nat) (a : list nat) (first len v : nat) :
  increasing a → len ≤ fuel → first + len ≤ length a →
  first ≤ lower_bound_loop fuel a first len v ≤ first + len ∧
  (∀ i, first ≤ i < lower_bound_loop fuel a first len v → a !!! i < v) ∧
  (∀ i, lower_bound_loop fuel a first len v ≤ i < first + len → v ≤ a !!! i).
Proof.
  intros Hinc. revert first len.
  induction fuel as [|fuel IH]; intros first len Hfuel Hlen; cbn [lower_bound_loop].
  { repeat split; intros; lia. }
  destruct (len =? 0) eqn:E0.
  { apply Nat.eqb_eq in E0. repeat split; intros; lia. }
  apply Nat.eqb_neq in E0.
  assert (len / 2 < len) as Hhalf by (apply Nat.div_lt; lia).
  destruct (a !!! (first + len / 2) <? v) eqn:Ecmp.
  - apply Nat.ltb_lt in Ecmp.
    destruct (IH (first + len / 2 + 1) (len - len / 2 - 1)) as (Hr & Hlt & Hge);
      [lia..|].
    split; [lia|]. split.
    + intros i Hi. destruct (decide (i ≤ first + len / 2)) as [Hle|Hgt].
      * pose proof (increasing_le a i (first + len / 2) Hinc Hle). lia.
      * apply Hlt. lia.
    + intros i Hi. apply Hge. lia.
  - apply Nat.ltb_ge in Ecmp.
    destruct (IH first (len / 2)) as (Hr & Hlt & Hge); [lia..|].
    split; [lia|]. split; [done|].
    intros i Hi. destruct (decide (i < first + len / 2)) as [Hlt'|Hge'].
    + apply Hge. lia.
    + pose proof (increasing_le a (first + len / 2) i Hinc). lia.
Qed.

Lemma lower_bound_spec (a : list nat) (first v : nat) :
  increasing a → first ≤ length a →
  first ≤ lower_bound a first (length a) v ≤ length a ∧
  (∀ i, first ≤ i < lower_bound a first (length a) v → a !!! i < v) ∧
  (∀ i, lower_bound a first (length a) v ≤ i < length a → v ≤ a !!! i).
Proof.
  intros Hinc Hfirst. unfold lower_bound.
  destruct (lower_bound_loop_spec (length a - first) a first (length a - first) v)
    as (Hr & Hlt & Hge); [done|lia..|].
  split; [lia|]. split; [done|]. intros i Hi. apply Hge. lia.
Qed.

(** What the loop of lines 460-463 has established when it has filled
    [cidx[0 .. k)]; [beg] is the index the next search starts from. *)
Lemma build_cidx_inv (D : nat) (xpart cts : list nat) :
  increasing cts →
  let '(cidx, beg) :=
    for_range 0 (S D) (λ d '(cidx, beg),
      let r := lower_bound cts beg (length cts) (xpart !!! d) in
      (<[d := r]> cidx, r)) (replicate (S D) 0, 0) in
  length cidx = S D ∧
  (∀ d, d ≤ D → cidx !!! d ≤ length cts) ∧
  (∀ d, d < D → cidx !!! d ≤ cidx !!! (d + 1)) ∧
  (∀ d i, d ≤ D → cidx !!! d ≤ i < length cts → xpart !!! d ≤ cts !!! i) ∧
  (∀ d i, d < D → cidx !!! d ≤ i < cidx !!! (d + 1) → cts !!! i < xpart !!! (d + 1)) ∧
  (∀ i, i < cidx !!! 0 → cts !!! i < xpart !!! 0).
Proof.
  intros Hinc.
  pose (P := λ (k : nat) (st : list nat * nat),
    length st.1 = S D ∧ st.2 ≤ length cts ∧ (k = 0 → st.2 = 0) ∧
    (∀ d, d < k → st.1 !!! d ≤ length cts) ∧
    (0 < k → st.1 !!! (k - 1) = st.2) ∧
    (∀ d, d + 1 < k → st.1 !!! d ≤ st.1 !!! (d + 1)) ∧
    (∀ d i, d < k → st.1 !!! d ≤ i < length cts → xpart !!! d ≤ cts !!! i) ∧
    (∀ d i, d + 1 < k → st.1 !!! d ≤ i < st.1 !!! (d + 1) → cts !!! i < xpart !!! (d + 1)) ∧
    (∀ i, 0 < k → i < st.1 !!! 0 → cts !!! i < xpart !!! 0)).
  match goal with |- let '(_, _) := ?loop in _ => assert (P (S D) loop) as HP end.
  { apply for_range_ind; [lia| |].
    - unfold P; simpl. rewrite length_replicate.
      repeat split; intros; lia.
    - intros k [cidx beg] Hk (Hlen & Hbeg & Hbeg0 & Hle & Hlast & Hmono & Hge & Hlt & H0).
      simpl in *.
      destruct (lower_bound_spec cts beg (xpart !!! k) Hinc Hbeg) as (Hr & Hrlt & Hrge).
      set (r := lower_bound cts beg (length cts) (xpart !!! k)) in *.
      assert (∀ d, d < k → <[k := r]> cidx !!! d = cidx !!! d) as Hold.
      { intros d Hd. apply list_lookup_total_insert_ne. lia. }
      assert (<[k := r]> cidx !!! k = r) as Hnew.
      { apply list_lookup_total_insert_eq. lia. }
      unfold P; cbn [fst snd]. rewrite length_insert.
      split; [done|]. split; [lia|]. split; [lia|]. split.
      { intros d Hd. destruct (decide (d = k)) as [->|]; [lia|].
        rewrite Hold by lia. apply Hle. lia. }
      split.
      { intros _. by replace (S k - 1) with k by lia. }
      split.
      { intros d Hd. destruct (decide (d + 1 = k)) as [<-|].
        - rewrite Hnew, Hold by lia.
          specialize (Hlast ltac:(lia)). replace (d + 1 - 1) with d in Hlast by lia. lia.
        - rewrite !Hold by lia. apply Hmono. lia. }
      split.
      { intros d i Hd. destruct (decide (d = k)) as [->|].
        - rewrite Hnew. intros Hi. apply Hrge. lia.
        - rewrite Hold by lia. apply Hge. lia. }
      split.
      { intros d i Hd. destruct (decide (d + 1 = k)) as [<-|].
        - rewrite Hnew, Hold by lia. intros Hi. apply Hrlt.
          specialize (Hlast ltac:(lia)). replace (d + 1 - 1) with d in Hlast by lia. lia.
        - rewrite !Hold by lia. apply Hlt. lia. }
      intros i _. destruct (decide (k = 0)) as [->|].
      + rewrite Hnew. intros Hi. apply Hrlt. specialize (Hbeg0 eq_refl). lia.
      + rewrite Hold by lia. apply H0. lia. }
  destruct (for_range _ _ _ _) as [cidx beg].
  destruct HP as (Hlen & Hbeg & _ & Hle & Hlast & Hmono & Hge & Hlt & H0). simpl in *.
  split; [done|]. split; [intros; apply Hle; lia|].
  split; [intros; apply Hmono; lia|].
  split; [intros d i ?; apply Hge; lia|].
  split; [intros d i ?; apply Hlt; lia|].
  intros i. apply H0. lia.
Qed.

Lemma build_cidx_spec (D : nat) (xpart cts : list nat) :
  increasing cts → cidx_spec D xpart cts (build_cidx D xpart cts).
Proof.
  intros Hinc. pose proof (build_cidx_inv D xpart cts Hinc) as HI.
  unfold build_cidx. destruct (for_range _ _ _ _) as [cidx beg].
  destruct HI as (? & ? & ? & ? & ? & ?). by split.
Qed.

Lemma steps_le (p : list nat) (D a b : nat) :
  (∀ d, d < D → p !!! d ≤ p !!! (d + 1)) → a ≤ b → b ≤ D → p !!! a ≤ p !!! b.
Proof.
  intros Hstep Hab HbD. induction b as [|b IH].
  - by replace a with 0 by lia.
  - destruct (decide (a = S b)) as [->|]; [done|].
    etrans; [apply IH; lia|].
    replace (S b) with (b + 1) by lia. apply Hstep. lia.
Qed.

(** An index between the first and the last boundary lies in one of the
    ranges. *)
Lemma steps_cover (p : list nat) (D i : nat) :
  p !!! 0 ≤ i < p !!! D → ∃ d, d < D ∧ p !!! d ≤ i < p !!! (d + 1).
Proof.
  induction D as [|D IH]; [lia|]. intros Hi.
  destruct (decide (i < p !!! D)) as [Hlt|Hge].
  - destruct IH as (d & Hd & ?); [lia|]. exists d. split; [lia|done].
  - exists D. replace (D + 1) with (S D) by lia. split; lia.
Qed.

Lemma partition_le (D N : nat) (p : list nat) (a b : nat) :
  partition_ok D N p → a ≤ b → b ≤ D → p !!! a ≤ p !!! b.
Proof. intros [? ? ? Hm]. by apply steps_le. Qed.

Lemma partition_bound (D N : nat) (p : list nat) (d : nat) :
  partition_ok D N p → d ≤ D → p !!! d ≤ N.
Proof.
  intros Hp Hd. rewrite <-(p_last _ _ _ Hp). by eapply partition_le.
Qed.

Lemma csr_row_le {real : Type} (n m : nat) (row col : list nat) (val : list real)
    (a b : nat) :
  csr_ok n m row col val → a ≤ b → b ≤ n → row !!! a ≤ row !!! b.
Proof. intros [? Hm ? ? ?]. by apply steps_le. Qed.

(** Every column that enters a ghost set of a well-formed input is a column
    of the matrix. *)
Lemma ghost_set_bound {real : Type} (D n m : nat) (part xpart row col : list nat)
    (val : list real) (d c : nat) :
  partition_ok D n part → csr_ok n m row col val → d < D →
  c ∈ ghost_set part xpart row col d → c < m.
Proof.
  intros Hp Hcsr Hd (i & j & Hi & Hj & <- & _)%elem_of_ghost_set.
  apply (col_bound _ _ _ _ _ Hcsr).
  assert (part !!! (d + 1) ≤ n) by (eapply partition_bound; [done|lia]).
  assert (row !!! (i + 1) ≤ row !!! n) by (eapply csr_row_le; [done|lia..]).
  lia.
Qed.

Lemma setup_exchange_unfold {real : Type} `{RealOps real} (D : nat)
    (part xpart row col : list nat) :
  2 ≤ D →
  let rc := ghost_sets D part xpart row col in
  let cts := send_list rc in
  let cidx := build_cidx D xpart cts in
  let st := plan_send D cidx xpart
              (cts, plan_recv D rc cts (replicate D exdata_empty)) in
  0 < length cts →
  setup_exchange (real:=real) D part xpart row col
  = MkExchange rc st.2 cidx (replicate (length cts) r0) st.1.
Proof.
  intros HD rc cts cidx st Hne. unfold setup_exchange.
  destruct (D <=? 1) eqn:E; [apply Nat.leb_le in E; lia|].
  fold rc. fold cts. cbv zeta.
  destruct (length cts =? 0) eqn:E0; [apply Nat.eqb_eq in E0; lia|].
  fold cidx. fold st. by destruct st.
Qed.

Lemma setup_exchange_cidx {real : Type} `{RealOps real} (D : nat)
    (part xpart row col : list nat) :
  2 ≤ D →
  let ex := setup_exchange (real:=real) D part xpart row col in
  let cts := send_list (x_remote_cols ex) in
  (0 < length cts ∧ x_cidx ex = build_cidx D xpart cts) ∨
  (length cts = 0 ∧ x_cidx ex = []).
Proof.
  intros HD ex cts. unfold cts, ex.
  rewrite setup_exchange_remote_cols by done.
  destruct (decide (0 < length (send_list (ghost_sets D part xpart row col)))) as [Hpos|Hz].
  - left. split; [done|]. by rewrite setup_exchange_unfold.
  - right. split; [lia|]. unfold setup_exchange.
    destruct (D <=? 1); [done|]. cbv zeta.
    destruct (length _ =? 0) eqn:E0; [done|]. apply Nat.eqb_neq in E0. lia.
Qed.

(** ** Concrete inputs are well formed *)

Tactic Notation "below" integer(k) :=
  let j := fresh "j" in
  let Hj := fresh "Hj" in
  intros j Hj; vm_compute in Hj;
  do k (destruct j as [|j]; [vm_compute; lia|]); exfalso; lia.

Lemma ex_part_ok : partition_ok 2 4 ex_part.
Proof. split; [done..|below 2]. Qed.

Lemma ex_csr_ok : csr_ok 4 4 ex_row ex_col ex_val.
Proof. split; [done|below 4|done|done|below 8]. Qed.

Lemma bad_part_ok : partition_ok 2 2 bad_part.
Proof. split; [done..|below 2]. Qed.

Lemma one_part_ok : partition_ok 1 2 one_part.
Proof. split; [done..|below 1]. Qed.

Lemma bad_readable : rows_readable 0 2 bad_row bad_col bad_val.
Proof.
  split; [vm_compute; lia|]. split; [done|].
  intros i [_ Hi]. do 3 (destruct i as [|i]; [vm_compute; lia|]). lia.
Qed.

Lemma bad_readable' : rows_readable 0 2 bad_row' bad_col' bad_val.
Proof.
  split; [vm_compute; lia|]. split; [done|].
  intros i [_ Hi]. do 3 (destruct i as [|i]; [vm_compute; lia|]). lia.
Qed.

Lemma ex_readable : rows_readable 0 2 ex_row ex_col ex_val.
Proof.
  split; [vm_compute; lia|]. split; [done|].
  intros i [_ Hi]. do 3 (destruct i as [|i]; [vm_compute; lia|]). lia.
Qed.

(** ** The exchange planner *)

Lemma ghost_set_of_setup_exchange {real : Type} `{RealOps real} (D : nat)
    (part xpart row col : list nat) (d c : nat) :
  2 ≤ D → d < D →
  (∃ i j, part !!! d ≤ i < part !!! (d + 1) ∧
          row !!! i ≤ j < row !!! (i + 1) ∧
          col !!! j = c ∧ outside (xpart !!! d) (xpart !!! (d + 1)) c) →
  c ∈ x_remote_cols (setup_exchange (real:=real) D part xpart row col) !!! d.
Proof.
  intros HD Hd Hex.
  rewrite setup_exchange_remote_cols, lookup_ghost_sets by done.
  by apply elem_of_ghost_set.
Qed.

(** C3. With two or more devices, [setup_exchange] returns for device [d]
    exactly the set of the columns [col[j]], [j] in a row of the device's row
    range, that lie outside the device's column range; a column inside the
    range never enters the set. *)
Theorem setup_exchange_ghost_set {real : Type} `{RealOps real} (D : nat)
    (part xpart row col : list nat) (d c : nat) :
  2 ≤ D → d < D →
  c ∈ x_remote_cols (setup_exchange (real:=real) D part xpart row col) !!! d ↔
  ∃ i j, part !!! d ≤ i < part !!! (d + 1) ∧
         row !!! i ≤ j < row !!! (i + 1) ∧
         col !!! j = c ∧ outside (xpart !!! d) (xpart !!! (d + 1)) c.
Proof.
  intros HD Hd.
  rewrite setup_exchange_remote_cols, lookup_ghost_sets by done.
  apply elem_of_ghost_set.
Qed.

Lemma setup_exchange_ghost_set_witness :
  2 ≤ 2 ∧ 0 < 2 ∧
  (3 ∈ x_remote_cols (setup_exchange (real:=Z) 2 ex_part ex_part ex_row ex_col) !!! 0 ↔
   ∃ i j, ex_part !!! 0 ≤ i < ex_part !!! (0 + 1) ∧
          ex_row !!! i ≤ j < ex_row !!! (i + 1) ∧
          ex_col !!! j = 3 ∧ outside (ex_part !!! 0) (ex_part !!! (0 + 1)) 3).
Proof.
  split; [lia|]. split; [lia|].
  apply (setup_exchange_ghost_set 2 ex_part ex_part ex_row ex_col 0 3); lia.
Defined.

(** ** Strictly increasing arrays *)

Lemma increasing_cons (x : nat) (l : list nat) :
  increasing (x :: l) ↔ Forall (lt x) l ∧ increasing l.
Proof.
  split.
  - intros Hinc. split.
    + apply Forall_lookup. intros i y Hy.
      pose proof (lookup_lt_Some _ _ _ Hy).
      specialize (Hinc 0 (S i) ltac:(simpl; lia)).
      change ((x :: l) !!! S i) with (l !!! i) in Hinc.
      by rewrite (list_lookup_total_correct _ _ _ Hy) in Hinc.
    + intros i j Hij. apply (Hinc (S i) (S j)). simpl. lia.
  - intros [Hall Hinc] i j Hij. simpl in Hij.
    destruct j as [|j]; [lia|]. change ((x :: l) !!! S j) with (l !!! j).
    destruct i as [|i].
    + change ((x :: l) !!! 0) with x.
      rewrite Forall_lookup in Hall. apply (Hall j).
      apply list_lookup_lookup_total_lt. lia.
    + change ((x :: l) !!! S i) with (l !!! i). apply Hinc. lia.
Qed.

Lemma increasing_StronglySorted (l : list nat) :
  increasing l ↔ StronglySorted lt l.
Proof.
  induction l as [|x l IH].
  - split; [constructor|]. intros _ i j. simpl. lia.
  - rewrite increasing_cons, IH. split.
    + intros [? ?]. by constructor.
    + intros Hs. by inv Hs.
Qed.

Lemma StronglySorted_filter_lt (P : nat → Prop) `{∀ x, Decision (P x)}
    (l : list nat) :
  StronglySorted lt l → StronglySorted lt (filter P l).
Proof.
  induction 1 as [|x l Hs IH Hall]; [constructor|].
  rewrite filter_cons. destruct (decide (P x)); [|done].
  constructor; [done|].
  rewrite Forall_forall in Hall |- *.
  intros y [_ Hy]%list_elem_of_filter. by apply Hall.
Qed.

Lemma increasing_NoDup (l : list nat) : increasing l → NoDup l.
Proof.
  intros Hinc. apply NoDup_alt. intros i j x Hi Hj.
  apply (increasing_inj l i j Hinc).
  - by eapply lookup_lt_Some.
  - by eapply lookup_lt_Some.
  - by rewrite (list_lookup_total_correct _ _ _ Hi), (list_lookup_total_correct _ _ _ Hj).
Qed.

(** The members of a set, picked out of an increasing array that holds
    them all, come in the set's iteration order. *)
Lemma filter_increasing_set_elements (cts : list nat) (rc : gset nat) :
  increasing cts → (∀ c, c ∈ rc → c ∈ cts) →
  filter (λ c, c ∈ rc) cts = set_elements rc.
Proof.
  intros Hinc Hsub.
  apply (StronglySorted_unique_strong lt).
  - intros x1 x2 _ _ ? ?. lia.
  - by apply StronglySorted_filter_lt, increasing_StronglySorted.
  - apply increasing_StronglySorted, increasing_set_elements.
  - apply NoDup_Permutation.
    + by apply NoDup_filter, increasing_NoDup.
    + apply NoDup_set_elements.
    + intros c. rewrite list_elem_of_filter, elem_of_set_elements.
      split; [by intros [? ?]|]. intros Hc. split; [done|by apply Hsub].
Qed.

(** ** Receive positions (lines 443-451) *)

Lemma filter_positions (cts : list nat) (rc : gset nat) (k : nat) :
  k ≤ length cts →
  (λ i, cts !!! i) <$> filter (λ i, cts !!! i ∈ rc) (seq 0 k)
  = filter (λ c, c ∈ rc) (take k cts).
Proof.
  induction k as [|k IH]; intros Hk.
  - by rewrite take_0.
  - assert (cts !! k = Some (cts !!! k)) as Hlk
      by (apply list_lookup_lookup_total_lt; lia).
    rewrite seq_S, (take_S_r _ _ _ Hlk), !filter_app, fmap_app, IH by lia.
    f_equal. simpl. rewrite !filter_cons, !filter_nil.
    by destruct (decide (cts !!! k ∈ rc)).
Qed.

Lemma length_filter_seq_mono (Q : nat → Prop) `{∀ i, Decision (Q i)} (k n : nat) :
  k ≤ n → length (filter Q (seq 0 k)) ≤ length (filter Q (seq 0 n)).
Proof.
  intros Hkn. replace n with (k + (n - k)) by lia.
  rewrite seq_app, filter_app, length_app. lia.
Qed.

Lemma recv_positions_filter (cts : list nat) (rc : gset nat) :
  increasing cts → (∀ c, c ∈ rc → c ∈ cts) →
  recv_positions cts rc = filter (λ i, cts !!! i ∈ rc) (seq 0 (length cts)).
Proof.
  intros Hinc Hsub. unfold recv_positions.
  set (Q := λ i, cts !!! i ∈ rc).
  assert (length (filter Q (seq 0 (length cts))) = size rc) as Htotal.
  { rewrite <-(length_fmap (λ i, cts !!! i)). unfold Q.
    rewrite filter_positions, firstn_all by done.
    by rewrite filter_increasing_set_elements, length_set_elements. }
  pose (P := λ (k : nat) (st : list nat * nat),
    length st.1 = size rc ∧ st.2 = length (filter Q (seq 0 k)) ∧
    take st.2 st.1 = filter Q (seq 0 k)).
  match goal with |- ?loop.1 = _ => assert (P (length cts) loop) as HP end.
  { apply for_range_ind; [lia| |].
    - unfold P; simpl. by rewrite length_replicate.
    - intros k [recv j] Hk (Hlen & Hj & Htake). simpl in *.
      unfold P. rewrite seq_S, filter_app, length_app. simpl.
      rewrite filter_cons, filter_nil. fold (Q k).
      destruct (bool_decide (Q k)) eqn:E.
      + apply bool_decide_eq_true in E. rewrite decide_True by done. simpl.
        pose proof (length_filter_seq_mono Q (S k) (length cts) ltac:(lia)) as Hm.
        rewrite seq_S, filter_app, length_app in Hm. simpl in Hm.
        rewrite filter_cons, filter_nil, decide_True in Hm by done. simpl in Hm.
        rewrite length_insert. split; [done|]. split; [lia|].
        rewrite (take_S_r _ _ k) by (apply list_lookup_insert_eq; lia).
        by rewrite take_insert_ge, Htake by lia.
      + apply bool_decide_eq_false in E. rewrite decide_False by done. simpl.
        rewrite app_nil_r, Nat.add_0_r. done. }
  destruct (for_range _ _ _ _) as [recv j]. destruct HP as (Hlen & Hj & Htake).
  simpl in *. rewrite <-Htake, take_ge; [done|]. lia.
Qed.

Lemma recv_positions_spec (cts : list nat) (rc : gset nat) :
  increasing cts → (∀ c, c ∈ rc → c ∈ cts) →
  length (recv_positions cts rc) = size rc ∧
  ∀ j, j < size rc →
    recv_positions cts rc !!! j < length cts ∧
    cts !!! (recv_positions cts rc !!! j) = set_elements rc !!! j.
Proof.
  intros Hinc Hsub.
  pose proof (filter_positions cts rc (length cts) ltac:(lia)) as Hf.
  rewrite <-recv_positions_filter, firstn_all,
    filter_increasing_set_elements in Hf by done.
  assert (length (recv_positions cts rc) = size rc) as Hlen.
  { by rewrite <-length_set_elements, <-Hf, length_fmap. }
  split; [done|]. intros j Hj. split.
  - assert (recv_positions cts rc !!! j ∈ recv_positions cts rc) as Hin
      by (apply list_elem_of_lookup_total_2; lia).
    rewrite recv_positions_filter in Hin at 2 by done.
    apply list_elem_of_filter in Hin as [_ Hin].
    apply elem_of_seq in Hin. lia.
  - rewrite <-Hf.
    by rewrite (list_lookup_total_fmap (λ i, cts !!! i) (recv_positions cts rc) j) by lia.
Qed.

(** ** Loops that write one array element per iteration *)

Lemma for_range_split {St : Type} (lo mid hi : nat) (body : nat → St → St) (s : St) :
  lo ≤ mid → mid ≤ hi →
  for_range lo hi body s = for_range mid hi body (for_range lo mid body s).
Proof.
  intros Hlm Hmh. unfold for_range.
  replace (hi - lo) with ((mid - lo) + (hi - mid)) by lia.
  rewrite seq_app, foldl_app. by replace (lo + (mid - lo)) with mid by lia.
Qed.

(** [for (i = lo; i < hi; i++) a[i] = f(i, a[i])]: the elements inside the
    array and the range are updated, the others are kept; a write past the
    end of the array is not modelled and leaves the array as it is. *)
Lemma for_range_update {A : Type} `{Inhabited A} (lo hi : nat)
    (f : nat → A → A) (l : list A) :
  length (for_range lo hi (λ i l, <[i := f i (l !!! i)]> l) l) = length l ∧
  ∀ i, for_range lo hi (λ i l, <[i := f i (l !!! i)]> l) l !!! i
       = if decide (lo ≤ i < hi ∧ i < length l) then f i (l !!! i) else l !!! i.
Proof.
  pose (P := λ (k : nat) (t : list A),
    length t = length l ∧
    ∀ i, t !!! i = if decide ((lo ≤ i < k ∧ i < hi) ∧ i < length l)
                   then f i (l !!! i) else l !!! i).
  assert (P (lo `max` hi) (for_range lo hi (λ i l, <[i := f i (l !!! i)]> l) l)) as HP.
  { apply for_range_inv.
    - split; [done|]. intros i. rewrite decide_False by lia. done.
    - intros k t Hk [Hlen Hlk]. split; [by rewrite length_insert|].
      intros i. destruct (decide (i = k)) as [->|Hne].
      + destruct (decide (k < length l)) as [Hin|Hout].
        * rewrite list_lookup_total_insert_eq, decide_True, Hlk, decide_False by lia.
          done.
        * rewrite list_insert_ge, Hlk, !decide_False by lia. done.
      + rewrite list_lookup_total_insert_ne, Hlk by done.
        destruct (decide ((lo ≤ i < k ∧ i < hi) ∧ i < length l));
          [rewrite decide_True by lia|rewrite decide_False by lia]; done. }
  destruct HP as [Hlen Hlk]. split; [done|]. intros i. rewrite Hlk.
  destruct (decide (lo ≤ i < hi ∧ i < length l));
    [rewrite decide_True by lia|rewrite decide_False by lia]; done.
Qed.

(** ** Receive side of the plan (lines 442-452) *)

Lemma plan_recv_spec {real : Type} `{RealOps real} (D : nat)
    (rc : list (gset nat)) (cts : list nat) (exc : list (exdata real)) :
  length exc = D →
  length (plan_recv D rc cts exc) = D ∧
  ∀ d, d < D →
    plan_recv D rc cts exc !!! d
    = if size (rc !!! d) =? 0 then exc !!! d
      else set_recv (size (rc !!! d)) (recv_positions cts (rc !!! d)) (exc !!! d).
Proof.
  intros Hlen. unfold plan_recv.
  pose (F := λ (d : nat) (e : exdata real),
    if size (rc !!! d) =? 0 then e
    else set_recv (size (rc !!! d)) (recv_positions cts (rc !!! d)) e).
  rewrite (for_range_ext 0 D _ (λ d exc, <[d := F d (exc !!! d)]> exc)).
  - destruct (for_range_update 0 D F exc) as [Hl Hlk].
    split; [lia|]. intros d Hd. rewrite Hlk, decide_True by lia. done.
  - intros d e Hd. unfold F. destruct (size (rc !!! d) =? 0).
    + symmetry. apply list_insert_id'. intros Hlt.
      by apply list_lookup_lookup_total_lt.
    + apply list_eq. intros i. destruct (decide (i = d)) as [->|Hne].
      * destruct (decide (d < length e)).
        -- rewrite list_lookup_alter_eq, list_lookup_insert_eq by done.
           by rewrite (list_lookup_lookup_total_lt e d).
        -- rewrite list_insert_ge by lia.
           rewrite !lookup_ge_None_2; rewrite ?length_alter; done || lia.
      * by rewrite list_lookup_alter_ne, list_lookup_insert_ne.
Qed.

(** ** Send side of the plan (lines 466-483) *)

Lemma rebase_spec (cidx xpart : list nat) (d : nat) (cts : list nat) :
  length (rebase cidx xpart d cts) = length cts ∧
  ∀ i, rebase cidx xpart d cts !!! i
       = if decide (cidx !!! d ≤ i < cidx !!! (d + 1) ∧ i < length cts)
         then cts !!! i - xpart !!! d else cts !!! i.
Proof.
  unfold rebase.
  apply (for_range_update (cidx !!! d) (cidx !!! (d + 1))
           (λ _ v, v - xpart !!! d) cts).
Qed.

Lemma plan_send_spec {real : Type} `{RealOps real} (D : nat)
    (cidx xpart cts0 : list nat) (exc0 : list (exdata real)) :
  cidx_spec D xpart cts0 cidx → length exc0 = D →
  length (plan_send D cidx xpart (cts0, exc0)).2 = D ∧
  ∀ d, d < D →
    let e := (plan_send D cidx xpart (cts0, exc0)).2 !!! d in
    let e0 := exc0 !!! d in
    cols_to_recv e = cols_to_recv e0 ∧
    vals_to_recv e = vals_to_recv e0 ∧
    ex_rx e = ex_rx e0 ∧
    (cidx !!! d = cidx !!! (d + 1) → e = e0) ∧
    (cidx !!! d < cidx !!! (d + 1) →
       length (cols_to_send e) = cidx !!! (d + 1) - cidx !!! d ∧
       length (vals_to_send e) = cidx !!! (d + 1) - cidx !!! d ∧
       ∀ t, t < cidx !!! (d + 1) - cidx !!! d →
         cols_to_send e !!! t = cts0 !!! (cidx !!! d + t) - xpart !!! d).
Proof.
  intros [Hclen Hbound Hmono _ _ _] Hlen. unfold plan_send.
  pose (sent := λ (d : nat) (e : exdata real),
    let e0 := exc0 !!! d in
    cols_to_recv e = cols_to_recv e0 ∧
    vals_to_recv e = vals_to_recv e0 ∧
    ex_rx e = ex_rx e0 ∧
    (cidx !!! d = cidx !!! (d + 1) → e = e0) ∧
    (cidx !!! d < cidx !!! (d + 1) →
       length (cols_to_send e) = cidx !!! (d + 1) - cidx !!! d ∧
       length (vals_to_send e) = cidx !!! (d + 1) - cidx !!! d ∧
       ∀ t, t < cidx !!! (d + 1) - cidx !!! d →
         cols_to_send e !!! t = cts0 !!! (cidx !!! d + t) - xpart !!! d)).
  pose (P := λ (k : nat) (st : list nat * list (exdata real)),
    length st.1 = length cts0 ∧ length st.2 = D ∧
    (∀ i, cidx !!! k ≤ i → st.1 !!! i = cts0 !!! i) ∧
    (∀ d, k ≤ d → st.2 !!! d = exc0 !!! d) ∧
    (∀ d, d < k → sent d (st.2 !!! d))).
  match goal with |- length ?loop.2 = _ ∧ _ => assert (P D loop) as HP end.
  { apply for_range_ind; [lia| |].
    - unfold P; simpl. do 4 (split; [done|]). intros; lia.
    - intros k [cts exc] Hk (Hl1 & Hl2 & Hrest & Hlater & Hsent). simpl in *.
      pose proof (Hmono k ltac:(lia)) as Hm.
      pose proof (Hbound (k + 1) ltac:(lia)) as Hb.
      replace (S k) with (k + 1) by lia.
      destruct (cidx !!! (k + 1) - cidx !!! k =? 0) eqn:E.
      + apply Nat.eqb_eq in E. unfold P; simpl.
        split; [done|]. split; [done|].
        split; [intros i Hi; apply Hrest; lia|].
        split; [intros d Hd; apply Hlater; lia|].
        intros d Hd. destruct (decide (d = k)) as [->|]; [|apply Hsent; lia].
        rewrite Hlater by lia. unfold sent. do 4 (split; [done|]). intros; lia.
      + apply Nat.eqb_neq in E.
        destruct (rebase_spec cidx xpart k cts) as [Hrl Hrk].
        unfold P; simpl. rewrite length_alter.
        split; [lia|]. split; [done|]. split.
        { intros i Hi. rewrite Hrk, decide_False by lia. apply Hrest. lia. }
        split.
        { intros d Hd. rewrite list_lookup_total_alter_ne by lia. apply Hlater. lia. }
        intros d Hd. destruct (decide (d = k)) as [->|].
        * rewrite list_lookup_total_alter_eq by lia.
          rewrite Hlater by lia. unfold sent, set_send; simpl.
          split; [done|]. split; [done|]. split; [done|]. split; [lia|].
          intros _. rewrite length_replicate, length_take, length_drop, Hrl.
          split; [lia|]. split; [lia|]. intros t Ht.
          rewrite lookup_total_take_lt, lookup_total_drop by lia.
          rewrite Hrk, decide_True by lia. f_equal. apply Hrest. lia.
        * rewrite list_lookup_total_alter_ne by lia. apply Hsent. lia. }
  destruct (for_range _ _ _ _) as [cts exc].
  destruct HP as (_ & Hl2 & _ & _ & Hsent). simpl in *.
  split; [done|]. intros d Hd. apply (Hsent d Hd).
Qed.

(** ** The renumbering map (lines 550-554) *)

Lemma renumber_spec (l : list nat) :
  NoDup l →
  let r2l := foldl (λ (r2l : gmap nat nat) c, <[c := size r2l]> r2l) ∅ l in
  size r2l = length l ∧
  (∀ t c, l !! t = Some c → r2l !! c = Some t) ∧
  (∀ c, c ∉ l → r2l !! c = None).
Proof.
  induction l as [|c l IH] using rev_ind; intros Hnd; simpl.
  - split; [apply map_size_empty|]. split; [done|]. intros. apply lookup_empty.
  - apply NoDup_app in Hnd as (Hnd & Hnotin & _).
    destruct (IH Hnd) as (Hsize & Hin & Hout). clear IH.
    rewrite foldl_app. simpl.
    set (m := foldl (λ (r2l : gmap nat nat) c, <[c := size r2l]> r2l) ∅ l) in *.
    assert (c ∉ l) as Hc.
    { intros Hcl. apply (Hnotin c Hcl). by apply list_elem_of_singleton. }
    split.
    { rewrite map_size_insert_None by (by apply Hout). rewrite length_app. simpl. lia. }
    split.
    + intros t x Ht. destruct (decide (t < length l)) as [Hlt|Hge].
      * rewrite lookup_app_l in Ht by done.
        rewrite lookup_insert_ne; [by apply Hin|].
        intros ->. apply Hc. by eapply list_elem_of_lookup_2.
      * rewrite lookup_app_r in Ht by lia.
        apply list_lookup_singleton_Some in Ht as [Ht <-].
        rewrite lookup_insert_eq. f_equal. lia.
    + intros x Hx. rewrite lookup_insert_ne.
      * apply Hout. intros Hxl. apply Hx, elem_of_app. by left.
      * intros ->. apply Hx, elem_of_app. right. by apply list_elem_of_singleton.
Qed.

Lemma build_r2l_spec (rc : gset nat) :
  size (build_r2l rc) = size rc ∧
  (∀ j, j < size rc → build_r2l rc !! (set_elements rc !!! j) = Some j) ∧
  (∀ c k, build_r2l rc !! c = Some k → k < size rc ∧ set_elements rc !!! k = c) ∧
  (∀ c, c ∈ rc ↔ is_Some (build_r2l rc !! c)).
Proof.
  destruct (renumber_spec (set_elements rc) (NoDup_set_elements rc))
    as (Hsize & Hin & Hout).
  fold (build_r2l rc) in Hsize, Hin, Hout.
  rewrite length_set_elements in Hsize.
  assert (∀ c k, build_r2l rc !! c = Some k → k < size rc ∧ set_elements rc !!! k = c)
    as Hinv.
  { intros c k Hk.
    destruct (decide (c ∈ set_elements rc)) as [Hc|Hc].
    - apply list_elem_of_lookup in Hc as [t Ht].
      pose proof (Hin t c Ht) as Hk'. rewrite Hk in Hk'. injection Hk' as ->.
      split; [|by apply list_lookup_total_correct].
      rewrite <-length_set_elements. by eapply lookup_lt_Some.
    - rewrite (Hout c Hc) in Hk. done. }
  split; [done|]. split; [|split; [done|]].
  - intros j Hj. apply Hin, list_lookup_lookup_total_lt.
    by rewrite length_set_elements.
  - intros c. split.
    + intros Hc%elem_of_set_elements.
      apply list_elem_of_lookup in Hc as [t Ht]. exists t. by apply Hin.
    + intros [k Hk]. destruct (Hinv c k Hk) as [Hlt <-].
      by apply lookup_set_elements_elem_of.
Qed.

(** ** The planner's result for a device *)

Lemma setup_exchange_single {real : Type} `{RealOps real} (D : nat)
    (part xpart row col : list nat) :
  D ≤ 1 →
  setup_exchange (real:=real) D part xpart row col
  = MkExchange (replicate D ∅) (replicate D exdata_empty) [] [] [].
Proof.
  intros HD. unfold setup_exchange.
  destruct (D <=? 1) eqn:E; [done|]. apply Nat.leb_gt in E. lia.
Qed.

Lemma ghost_subset_send_list (rc : list (gset nat)) (d c : nat) :
  d < length rc → c ∈ rc !!! d → c ∈ send_list rc.
Proof. intros Hd Hc. apply elem_of_send_list. by exists d. Qed.

(** Receive positions of device [d] after [setup_exchange]. *)
Lemma setup_exchange_recv {real : Type} `{RealOps real} (D : nat)
    (part xpart row col : list nat) (d : nat) :
  d < D →
  let ex := setup_exchange (real:=real) D part xpart row col in
  let rc := x_remote_cols ex !!! d in
  0 < size rc →
  2 ≤ D ∧
  cols_to_recv (x_exc ex !!! d) = recv_positions (send_list (x_remote_cols ex)) rc ∧
  length (vals_to_recv (x_exc ex !!! d)) = size rc ∧
  length (ex_rx (x_exc ex !!! d)) = size rc ∧
  length (x_rx ex) = length (send_list (x_remote_cols ex)).
Proof.
  intros Hd ex rc Hrc.
  assert (2 ≤ D) as HD.
  { destruct (decide (2 ≤ D)) as [|Hn]; [done|]. exfalso.
    unfold rc, ex in Hrc. rewrite setup_exchange_single in Hrc by lia.
    simpl in Hrc. rewrite lookup_total_replicate_2, size_empty in Hrc by done. lia. }
  split; [done|].
  unfold rc, ex in *. clear rc ex.
  pose proof (setup_exchange_remote_cols (real:=real) D part xpart row col HD) as Hrcs.
  rewrite Hrcs in *.
  set (rcs := ghost_sets D part xpart row col) in *.
  assert (length rcs = D) as Hlrcs by apply length_ghost_sets.
  assert (increasing (send_list rcs)) as Hinc by apply increasing_send_list.
  assert (0 < length (send_list rcs)) as Hpos.
  { destruct (size_pos_elem_of _ Hrc) as [c Hc].
    assert (c ∈ send_list rcs) as Hin by (apply (ghost_subset_send_list rcs d); [lia|done]).
    destruct (send_list rcs); [by apply elem_of_nil in Hin|simpl; lia]. }
  rewrite setup_exchange_unfold by done. fold rcs. simpl.
  destruct (plan_recv_spec (real:=real) D rcs (send_list rcs)
              (replicate D exdata_empty)) as [Hl1 Hr]; [by rewrite length_replicate|].
  destruct (plan_send_spec D (build_cidx D xpart (send_list rcs)) xpart (send_list rcs)
              (plan_recv D rcs (send_list rcs) (replicate D exdata_empty)))
    as [Hl2 Hs]; [by apply build_cidx_spec|done|].
  destruct (Hs d Hd) as (Hcr & Hvr & Hrx & _). rewrite Hcr, Hvr, Hrx, (Hr d Hd).
  destruct (size (rcs !!! d) =? 0) eqn:E; [apply Nat.eqb_eq in E; lia|].
  unfold set_recv; simpl. rewrite !length_replicate.
  destruct (recv_positions_spec (send_list rcs) (rcs !!! d) Hinc) as [Hlen _].
  { intros c Hc. apply (ghost_subset_send_list rcs d); [lia|done]. }
  done.
Qed.

(** C5. For a device with a ghost set of [size rc] columns and [j] below that
    size, [cols_to_recv[j]] is the position in the send list of the [j]-th
    smallest ghost column ([set_elements rc] is increasing, and so is the
    send list, so the position is the only one); the renumbering map of the
    remote block sends that column to [j]; and the redistribution loop of
    [mul] leaves [rx[cols_to_recv[j]]] at index [j] of [vals_to_recv]. *)
Theorem cols_to_recv_positions {real : Type} `{RealOps real} (D : nat)
    (part xpart row col : list nat) (d j : nat) :
  d < D →
  let ex := setup_exchange (real:=real) D part xpart row col in
  let rc := x_remote_cols ex !!! d in
  let cts := send_list (x_remote_cols ex) in
  let e := x_exc ex !!! d in
  j < size rc →
  length (cols_to_recv e) = size rc ∧
  cols_to_recv e !!! j < length cts ∧
  cts !!! (cols_to_recv e !!! j) = set_elements rc !!! j ∧
  (∀ i, i < length cts → cts !!! i = set_elements rc !!! j →
        i = cols_to_recv e !!! j) ∧
  build_r2l rc !! (set_elements rc !!! j) = Some j ∧
  ∀ rx : list real,
    redistribute rx (cols_to_recv e) (vals_to_recv e) !!! j
    = rx !!! (cols_to_recv e !!! j).
Proof.
  intros Hd ex rc cts e Hj.
  destruct (setup_exchange_recv (real:=real) D part xpart row col d Hd)
    as (HD & Hrecv & Hlv & _); [fold ex rc; lia|].
  fold ex rc cts e in Hrecv, Hlv.
  destruct (recv_positions_spec cts rc) as [Hlen Hpos].
  { apply increasing_send_list. }
  { intros c Hc. apply (ghost_subset_send_list _ d); [|done].
    unfold ex. by rewrite setup_exchange_remote_cols, length_ghost_sets. }
  destruct (Hpos j Hj) as [Hlt Heq].
  rewrite Hrecv. split; [done|]. split; [done|]. split; [done|].
  split.
  { intros i Hi Hc. apply (increasing_inj cts); [apply increasing_send_list|done..|].
    by rewrite Hc, Heq. }
  split; [by apply build_r2l_spec|].
  intros rx0. unfold redistribute.
  destruct (for_range_update 0 (length (recv_positions cts rc))
              (λ i _, rx0 !!! (recv_positions cts rc !!! i)) (vals_to_recv e))
    as [_ Hlk].
  rewrite Hlk, decide_True by lia. done.
Qed.

Lemma cols_to_recv_positions_witness :
  0 < 2 ∧
  let ex := setup_exchange (real:=Z) 2 ex_part ex_part ex_row ex_col in
  let rc := x_remote_cols ex !!! 0 in
  let cts := send_list (x_remote_cols ex) in
  let e := x_exc ex !!! 0 in
  1 < size rc ∧
  length (cols_to_recv e) = size rc ∧
  cols_to_recv e !!! 1 < length cts ∧
  cts !!! (cols_to_recv e !!! 1) = set_elements rc !!! 1 ∧
  (∀ i, i < length cts → cts !!! i = set_elements rc !!! 1 →
        i = cols_to_recv e !!! 1) ∧
  build_r2l rc !! (set_elements rc !!! 1) = Some 1 ∧
  ∀ rx : list Z,
    redistribute rx (cols_to_recv e) (vals_to_recv e) !!! 1
    = rx !!! (cols_to_recv e !!! 1).
Proof.
  split; [lia|]. intros ex rc cts e.
  assert (1 < size rc) as Hj by (vm_compute; lia).
  split; [exact Hj|].
  exact (cols_to_recv_positions 2 ex_part ex_part ex_row ex_col 0 1 ltac:(lia) Hj).
Defined.

(** Send indices of device [d] after [setup_exchange], in terms of the send
    list [cts] before it is rebased. *)
Lemma setup_exchange_send {real : Type} `{RealOps real} (D : nat)
    (part xpart row col : list nat) (d : nat) :
  2 ≤ D → d < D →
  let cts := send_list (ghost_sets D part xpart row col) in
  let cidx := build_cidx D xpart cts in
  let e := x_exc (setup_exchange (real:=real) D part xpart row col) !!! d in
  0 < length cts →
  x_cidx (setup_exchange (real:=real) D part xpart row col) = cidx ∧
  (cidx !!! d = cidx !!! (d + 1) → cols_to_send e = [] ∧ vals_to_send e = []) ∧
  (cidx !!! d < cidx !!! (d + 1) →
     length (cols_to_send e) = cidx !!! (d + 1) - cidx !!! d ∧
     length (vals_to_send e) = cidx !!! (d + 1) - cidx !!! d ∧
     ∀ t, t < cidx !!! (d + 1) - cidx !!! d →
       cols_to_send e !!! t = cts !!! (cidx !!! d + t) - xpart !!! d).
Proof.
  intros HD Hd cts cidx e Hpos. unfold e.
  rewrite setup_exchange_unfold by done. fold cts cidx. simpl.
  split; [done|].
  assert (cidx_spec D xpart cts cidx) as Hspec
    by apply build_cidx_spec, increasing_send_list.
  set (rcs := ghost_sets D part xpart row col).
  destruct (plan_recv_spec (real:=real) D rcs cts (replicate D exdata_empty))
    as [Hl1 Hr]; [by rewrite length_replicate|].
  destruct (plan_send_spec D cidx xpart cts _ Hspec Hl1) as [_ Hs].
  destruct (Hs d Hd) as (_ & _ & _ & Hsame & Hsend).
  split; [|done].
  intros Heq. rewrite (Hsame Heq), (Hr d Hd).
  rewrite lookup_total_replicate_2 by done.
  by destruct (size (rcs !!! d) =? 0).
Qed.

(** C10. With two or more devices, the indices uploaded to
    [exc[d].cols_to_send] for a device with a non-empty send range are the
    columns of that range of the send list minus [xpart[d]] (the subtraction
    does not go below zero), and each is smaller than the size
    [xpart[d+1] - xpart[d]] of the device's part of the input vector. *)
Theorem cols_to_send_rebased {real : Type} `{RealOps real} (D : nat)
    (part xpart row col : list nat) (d : nat) :
  2 ≤ D → d < D →
  let ex := setup_exchange (real:=real) D part xpart row col in
  let cts := send_list (x_remote_cols ex) in
  let e := x_exc ex !!! d in
  x_cidx ex !!! d < x_cidx ex !!! (d + 1) →
  length (cols_to_send e) = x_cidx ex !!! (d + 1) - x_cidx ex !!! d ∧
  ∀ k, k < length (cols_to_send e) →
    cols_to_send e !!! k + xpart !!! d = cts !!! (x_cidx ex !!! d + k) ∧
    cols_to_send e !!! k < xpart !!! (d + 1) - xpart !!! d.
Proof.
  intros HD Hd ex cts e.
  destruct (setup_exchange_cidx (real:=real) D part xpart row col HD)
    as [[Hpos Hcidx]|[Hpos Hcidx]]; fold ex in Hcidx; fold cts in Hpos, Hcidx;
    rewrite Hcidx; cycle 1.
  { rewrite !lookup_total_nil. simpl. lia. }
  intros Hne.
  assert (cts = send_list (ghost_sets D part xpart row col)) as Hcts.
  { unfold cts, ex. by rewrite setup_exchange_remote_cols. }
  destruct (setup_exchange_send (real:=real) D part xpart row col d HD Hd)
    as (_ & _ & Hsend); [by rewrite <-Hcts|].
  rewrite <-Hcts in Hsend. fold ex e in Hsend.
  destruct (Hsend Hne) as (Hlen & _ & Hlk).
  split; [done|]. intros k Hk. rewrite Hlen in Hk. rewrite (Hlk k Hk).
  destruct (build_cidx_spec D xpart cts (increasing_send_list _))
    as [_ Hbound _ Hge Hlt _].
  pose proof (Hbound (d + 1) ltac:(lia)).
  pose proof (Hge d (build_cidx D xpart cts !!! d + k) ltac:(lia) ltac:(lia)).
  pose proof (Hlt d (build_cidx D xpart cts !!! d + k) ltac:(lia) ltac:(lia)).
  lia.
Qed.

Lemma cols_to_send_rebased_witness :
  2 ≤ 2 ∧ 1 < 2 ∧
  let ex := setup_exchange (real:=Z) 2 ex_part ex_part ex_row ex_col in
  let cts := send_list (x_remote_cols ex) in
  let e := x_exc ex !!! 1 in
  x_cidx ex !!! 1 < x_cidx ex !!! (1 + 1) ∧
  length (cols_to_send e) = x_cidx ex !!! (1 + 1) - x_cidx ex !!! 1 ∧
  ∀ k, k < length (cols_to_send e) →
    cols_to_send e !!! k + ex_part !!! 1 = cts !!! (x_cidx ex !!! 1 + k) ∧
    cols_to_send e !!! k < ex_part !!! (1 + 1) - ex_part !!! 1.
Proof.
  split; [lia|]. split; [lia|]. intros ex cts e.
  assert (x_cidx ex !!! 1 < x_cidx ex !!! (1 + 1)) as Hne by (vm_compute; lia).
  split; [exact Hne|].
  exact (cols_to_send_rebased 2 ex_part ex_part ex_row ex_col 1
           ltac:(lia) ltac:(lia) Hne).
Defined.

(** ** Kernels: the work items of a launch cover the rows once *)

Lemma chunk_size_cover (n G : nat) : 0 < G → n ≤ G * ((n + G - 1) / G).
Proof.
  intros HG.
  pose proof (Nat.div_mod_eq (n + G - 1) G).
  pose proof (Nat.mod_upper_bound (n + G - 1) G ltac:(lia)).
  lia.
Qed.

Lemma launch_chunks {St : Type} (n G : nat) (body : nat → St → St) (s : St) :
  0 < G →
  for_range 0 G (λ gid s, chunk n G gid body s) s = for_range 0 n body s.
Proof.
  intros HG. pose proof (chunk_size_cover n G HG) as Hcover. unfold chunk.
  set (cs := (n + G - 1) / G) in *. clearbody cs.
  pose (P := λ (k : nat) (t : St), t = for_range 0 (Nat.min n (k * cs)) body s).
  match goal with |- ?loop = _ => assert (P G loop) as HP end.
  { apply for_range_ind; [lia| |].
    - unfold P. by rewrite for_range_nil by lia.
    - intros k t Hk ->. unfold P.
      replace (S k * cs) with (k * cs + cs) by lia.
      destruct (decide (k * cs ≤ n)) as [Hle|Hgt].
      + replace (Nat.min n (k * cs)) with (k * cs) by lia.
        symmetry. apply for_range_split; lia.
      + rewrite for_range_nil by lia. f_equal. lia. }
  unfold P in HP. rewrite HP. f_equal. lia.
Qed.

Lemma spmv_set_spec {real : Type} `{RealOps real} (G n : nat) (b : csr real)
    (x y : list real) (alpha : real) :
  0 < G →
  length (spmv_set G n b x y alpha) = length y ∧
  ∀ i, spmv_set G n b x y alpha !!! i
       = if decide (i < n ∧ i < length y)
         then rmul alpha (row_sum b x i) else y !!! i.
Proof.
  intros HG. unfold spmv_set. rewrite launch_chunks by done.
  destruct (for_range_update 0 n (λ i _, rmul alpha (row_sum b x i)) y) as [Hl Hlk].
  split; [done|]. intros i. rewrite Hlk.
  destruct (decide (i < n ∧ i < length y));
    [rewrite decide_True by lia|rewrite decide_False by lia]; done.
Qed.

Lemma spmv_add_spec {real : Type} `{RealOps real} (G n : nat) (b : csr real)
    (x y : list real) (alpha : real) :
  0 < G →
  length (spmv_add G n b x y alpha) = length y ∧
  ∀ i, spmv_add G n b x y alpha !!! i
       = if decide (i < n ∧ i < length y)
         then radd (y !!! i) (rmul alpha (row_sum b x i)) else y !!! i.
Proof.
  intros HG. unfold spmv_add. rewrite launch_chunks by done.
  destruct (for_range_update 0 n (λ i v, radd v (rmul alpha (row_sum b x i))) y)
    as [Hl Hlk].
  split; [done|]. intros i. rewrite Hlk.
  destruct (decide (i < n ∧ i < length y));
    [rewrite decide_True by lia|rewrite decide_False by lia]; done.
Qed.

(** ** [mul_local] and [mul_remote] *)

Lemma for_range_foldl {St : Type} (lo hi : nat) (body : nat → St → St) (s : St) :
  for_range lo hi body s = foldl (λ s i, body i s) s (seq lo (hi - lo)).
Proof. done. Qed.

(** The inner loop of the kernels adds up the entries of the row. *)
Lemma row_sum_dot {real : Type} `{RealOps real} (b : csr real) (x : list real)
    (r : nat) :
  row_sum b x r = dot x (block_row b r).
Proof.
  unfold row_sum, dot, block_row, row_range. rewrite for_range_foldl.
  generalize (seq (c_row b !!! r) (c_row b !!! (r + 1) - c_row b !!! r)).
  generalize (r0 : real).
  intros a l. revert a. induction l as [|k l IH]; intros a; [done|]. simpl. apply IH.
Qed.

(** C6. [mul_local], launched with a positive global size: with a local
    block ([has_loc]), row [i] of [y] becomes [alpha] times the sum of
    [val * x[col]] over the (column, value) pairs of row [i] of the block,
    taken in storage order from 0, and added to the old [y[i]] when
    [append] is set; the elements of [y] past the rows of the block are
    untouched; without a local block [y] is zeroed when [append] is not set
    and left as it is when it is set. *)
Theorem mul_local_cases {real : Type} `{RealOps real} (dev : device)
    (A : SpMatCSR real) (x y : list real) (alpha : real) (append : bool) :
  0 < spmv_gsize dev →
  length (mul_local dev A x y alpha append) = length y ∧
  (has_loc A = true →
     (∀ i, i < n A → i < length y →
        mul_local dev A x y alpha append !!! i
        = if append then radd (y !!! i) (rmul alpha (dot x (block_row (loc A) i)))
          else rmul alpha (dot x (block_row (loc A) i))) ∧
     (∀ i, n A ≤ i → mul_local dev A x y alpha append !!! i = y !!! i)) ∧
  (has_loc A = false → append = false →
     mul_local dev A x y alpha append = replicate (length y) r0) ∧
  (has_loc A = false → append = true →
     mul_local dev A x y alpha append = y).
Proof.
  intros HG. unfold mul_local.
  destruct (has_loc A), append; simpl.
  - destruct (spmv_add_spec (spmv_gsize dev) (n A) (loc A) x y alpha HG) as [Hl Hlk].
    split; [done|]. split; [|done]. intros _. split.
    + intros i ? ?. rewrite Hlk, decide_True by lia. by rewrite row_sum_dot.
    + intros i ?. rewrite Hlk, decide_False by lia. done.
  - destruct (spmv_set_spec (spmv_gsize dev) (n A) (loc A) x y alpha HG) as [Hl Hlk].
    split; [done|]. split; [|done]. intros _. split.
    + intros i ? ?. rewrite Hlk, decide_True by lia. by rewrite row_sum_dot.
    + intros i ?. rewrite Hlk, decide_False by lia. done.
  - done.
  - by rewrite length_replicate.
Qed.

(** The three cases at concrete blocks: rows [(0, 1)] and [(1, 3)] with
    [x = (10, 20)], [y = (5, 6)] and [alpha = 2] give
    [(5 + 2 * 10, 6 + 2 * 60)]; a block without local part zeroes [y] or
    leaves it. *)
Lemma mul_local_cases_witness :
  0 < spmv_gsize (Device 4 2) ∧
  (length (mul_local (Device 4 2) ex_block [10; 20]%Z [5; 6]%Z 2%Z true) = 2 ∧
   (has_loc ex_block = true →
      (∀ i, i < n ex_block → i < 2 →
         mul_local (Device 4 2) ex_block [10; 20]%Z [5; 6]%Z 2%Z true !!! i
         = radd ([5; 6]%Z !!! i)
             (rmul 2%Z (dot [10; 20]%Z (block_row (loc ex_block) i)))) ∧
      (∀ i, n ex_block ≤ i →
         mul_local (Device 4 2) ex_block [10; 20]%Z [5; 6]%Z 2%Z true !!! i
         = [5; 6]%Z !!! i)) ∧
   (has_loc ex_block = false → true = false →
      mul_local (Device 4 2) ex_block [10; 20]%Z [5; 6]%Z 2%Z true = replicate 2 r0) ∧
   (has_loc ex_block = false → true = true →
      mul_local (Device 4 2) ex_block [10; 20]%Z [5; 6]%Z 2%Z true = [5; 6]%Z)) ∧
  mul_local (Device 4 2) ex_block [10; 20]%Z [5; 6]%Z 2%Z true = [25; 126]%Z ∧
  mul_local (Device 4 2) ex_block [10; 20]%Z [5; 6]%Z 2%Z false = [20; 120]%Z ∧
  mul_local (Device 4 2) ex_block_none [10; 20]%Z [5; 6]%Z 2%Z false = [0; 0]%Z ∧
  mul_local (Device 4 2) ex_block_none [10; 20]%Z [5; 6]%Z 2%Z true = [5; 6]%Z.
Proof.
  assert (0 < spmv_gsize (Device 4 2)) as HG by (vm_compute; lia).
  split; [exact HG|]. split.
  - exact (mul_local_cases (Device 4 2) ex_block [10; 20]%Z [5; 6]%Z 2%Z true HG).
  - split; [reflexivity|]. split; [reflexivity|].
    destruct (mul_local_cases (Device 4 2) ex_block_none [10; 20]%Z [5; 6]%Z 2%Z
                false HG) as (_ & _ & Hzero & _).
    destruct (mul_local_cases (Device 4 2) ex_block_none [10; 20]%Z [5; 6]%Z 2%Z
                true HG) as (_ & _ & _ & Hkeep).
    split; [exact (Hzero eq_refl eq_refl)|exact (Hkeep eq_refl eq_refl)].
Defined.



(** ** The assertion of the renumbering pass (line 562) *)

Lemma for_range_is_Some {St : Type} (lo hi : nat)
    (body : nat → option St → option St) (s : option St) :
  is_Some s →
  (∀ i s, lo ≤ i < hi → is_Some s → is_Some (body i s)) →
  is_Some (for_range lo hi body s).
Proof.
  intros Hs Hbody.
  apply (for_range_inv (λ _ s, is_Some s) lo hi body s Hs).
  intros i t Hi Ht. by apply Hbody.
Qed.

(** The pass goes through when every column of a row of the block is in the
    column range or in the ghost set. *)
Lemma split_rows_is_Some {real : Type} `{RealOps real} (beg end_ xbeg xend : nat)
    (row col : list nat) (val : list real) (rc : gset nat) :
  (∀ i j, beg ≤ i < end_ → row !!! i ≤ j < row !!! (i + 1) →
          outside xbeg xend (col !!! j) → col !!! j ∈ rc) →
  is_Some (split_rows beg end_ xbeg xend row col val rc).
Proof.
  intros Hcov. unfold split_rows.
  apply for_range_is_Some; [done|].
  intros i s Hi Hs. unfold split_row.
  apply fmap_is_Some, for_range_is_Some; [done|].
  intros j [t|] Hj Ht; [|by destruct Ht]. unfold split_entry. simpl.
  destruct ((xbeg <=? col !!! j) && (col !!! j <? xend)) eqn:E; [done|].
  assert (outside xbeg xend (col !!! j)) as Hout.
  { unfold outside. intros [? ?].
    apply andb_false_iff in E as [E|E];
      [apply Nat.leb_gt in E|apply Nat.ltb_ge in E]; lia. }
  assert (col !!! j ∈ rc) as Hin by (by apply (Hcov i j)).
  destruct (build_r2l_spec rc) as (_ & _ & _ & Hdom).
  apply Hdom in Hin as [k Hk]. by rewrite Hk.
Qed.

Lemma reserve_fits_true (a b : nat) : b ≤ a → reserve_fits a b = true.
Proof. intros Hle. unfold reserve_fits. by apply Nat.leb_le. Qed.

Lemma SpMatCSR_new_is_Some {real : Type} `{RealOps real} (beg end_ xbeg xend : nat)
    (row col : list nat) (val : list real) (rc : gset nat) :
  (beg = 0 ∧ rc = ∅) ∨
  (row !!! beg ≤ row !!! end_ ∧
   ∀ i j, beg ≤ i < end_ → row !!! i ≤ j < row !!! (i + 1) →
          outside xbeg xend (col !!! j) → col !!! j ∈ rc) →
  is_Some (SpMatCSR_new beg end_ xbeg xend row col val rc).
Proof.
  intros Hcase. unfold SpMatCSR_new.
  destruct ((beg =? 0) && bool_decide (rc = ∅)) eqn:E; [done|].
  destruct Hcase as [[-> ->]|[Hrow Hcov]].
  { by rewrite bool_decide_eq_true_2 in E. }
  unfold reserve_fits. destruct (Nat.leb_spec (row !!! beg) (row !!! end_)); [|lia].
  simpl.
  destruct (split_rows_is_Some beg end_ xbeg xend row col val rc Hcov) as [s Hs].
  by rewrite Hs.
Qed.

(** On the renumbering pass the constructor fails to return exactly when
    [reserve] throws. *)
Lemma SpMatCSR_new_None {real : Type} `{RealOps real} (beg end_ xbeg xend : nat)
    (row col : list nat) (val : list real) (rc : gset nat) :
  (beg = 0 ∧ rc = ∅) ∨
  (∀ i j, beg ≤ i < end_ → row !!! i ≤ j < row !!! (i + 1) →
          outside xbeg xend (col !!! j) → col !!! j ∈ rc) →
  SpMatCSR_new beg end_ xbeg xend row col val rc = None ↔
  ¬ (beg = 0 ∧ rc = ∅) ∧ row !!! end_ < row !!! beg.
Proof.
  intros Hcase.
  destruct (decide (beg = 0 ∧ rc = ∅)) as [Hfast|Hslow].
  { split; [|by intros [? _]]. intros Hnone.
    destruct (SpMatCSR_new_is_Some beg end_ xbeg xend row col val rc) as [A HA];
      [by left|]. by rewrite HA in Hnone. }
  destruct Hcase as [|Hcov]; [done|].
  destruct (decide (row !!! beg ≤ row !!! end_)) as [Hle|Hgt].
  - split; [|intros [_ ?]; lia]. intros Hnone.
    destruct (SpMatCSR_new_is_Some beg end_ xbeg xend row col val rc) as [A HA];
      [by right|]. by rewrite HA in Hnone.
  - split; [intros _; split; [done|lia]|]. intros _. unfold SpMatCSR_new.
    destruct ((beg =? 0) && bool_decide (rc = ∅)) eqn:E.
    { apply andb_true_iff in E as [Hb%Nat.eqb_eq Hr%bool_decide_eq_true].
      by destruct Hslow. }
    unfold reserve_fits.
    by destruct (Nat.leb_spec (row !!! beg) (row !!! end_)); [lia|].
Qed.

(** Whatever the arrays are, a device takes the fast path or finds every
    column outside its column range in its ghost set. *)
Lemma fast_or_covered {real : Type} `{RealOps real} (D : nat)
    (part xpart row col : list nat) (d : nat) :
  part !!! 0 = 0 → d < D →
  (part !!! d = 0 ∧
   x_remote_cols (setup_exchange (real:=real) D part xpart row col) !!! d = ∅) ∨
  (∀ i j, part !!! d ≤ i < part !!! (d + 1) → row !!! i ≤ j < row !!! (i + 1) →
          outside (xpart !!! d) (xpart !!! (d + 1)) (col !!! j) →
          col !!! j ∈ x_remote_cols
                       (setup_exchange (real:=real) D part xpart row col) !!! d).
Proof.
  intros Hp0 Hd.
  destruct (decide (2 ≤ D)) as [HD|HD].
  - right. intros i j Hi Hj Hout.
    apply ghost_set_of_setup_exchange; [done..|]. by exists i, j.
  - left. assert (d = 0) as -> by lia. split; [done|].
    rewrite setup_exchange_single by lia. simpl.
    by rewrite lookup_total_replicate_2 by lia.
Qed.

Lemma new_block_None {real : Type} `{RealOps real} (D : nat)
    (part xpart row col : list nat) (val : list real) (d : nat) :
  part !!! 0 = 0 → d < D →
  new_block part xpart row col val
    (x_remote_cols (setup_exchange (real:=real) D part xpart row col)) d = None ↔
  part !!! d < part !!! (d + 1) ∧
  ¬ (part !!! d = 0 ∧
     x_remote_cols (setup_exchange (real:=real) D part xpart row col) !!! d = ∅) ∧
  row !!! (part !!! (d + 1)) < row !!! (part !!! d).
Proof.
  intros Hp0 Hd. unfold new_block.
  destruct (Nat.ltb_spec (part !!! d) (part !!! (d + 1))) as [Hlt|Hge].
  - rewrite fmap_None, SpMatCSR_new_None by (by apply fast_or_covered).
    split; [by intros [? ?]|by intros (_ & ? & ?)].
  - split; [done|]. intros [? _]. lia.
Qed.

Lemma new_block_is_Some {real : Type} `{RealOps real} (D : nat)
    (part xpart row col : list nat) (val : list real) (d : nat) :
  part !!! 0 = 0 → d < D →
  (part !!! d < part !!! (d + 1) →
   row !!! (part !!! d) ≤ row !!! (part !!! (d + 1))) →
  is_Some (new_block part xpart row col val
             (x_remote_cols (setup_exchange (real:=real) D part xpart row col)) d).
Proof.
  intros Hp0 Hd Hrow.
  destruct (new_block _ _ _ _ _ _ d) eqn:E; [done|].
  apply new_block_None in E as (Hlt & _ & Hgt); [|done..].
  specialize (Hrow Hlt). lia.
Qed.

(** Well-formed input is constructed. *)
Lemma SpMat_new_is_Some {real : Type} `{RealOps real}
    (queue : list device) (part xpart : list nat) (n m : nat)
    (row col : list nat) (val : list real) :
  partition_ok (length queue) n part → csr_ok n m row col val →
  is_Some (SpMat_new queue part xpart n m row col val).
Proof.
  intros Hpart Hcsr. unfold SpMat_new.
  assert (is_Some (mapM (new_block part xpart row col val
            (x_remote_cols (setup_exchange (real:=real) (length queue) part xpart row col)))
            (seq 0 (length queue)))) as [blocks Hb].
  { apply mapM_is_Some, Forall_forall. intros d Hd%elem_of_seq.
    apply new_block_is_Some; [apply (p_first _ _ _ Hpart)|lia|].
    intros Hlt. eapply csr_row_le; [done|lia|].
    eapply partition_bound; [done|lia]. }
  rewrite Hb. simpl. by eexists.
Qed.

(** A column index outside [[0, n_cols)] goes through construction on the
    renumbering pass of two devices, and decreasing row offsets go through
    it on the fast path of a single device; both inputs have valid
    partitions and arrays that are read inside their bounds. *)
Lemma malformed_input_not_detected :
  (partition_ok (length ex_queue) 2 bad_part ∧
   rows_readable 0 2 bad_row bad_col bad_val ∧
   ¬ csr_ok 2 2 bad_row bad_col bad_val ∧
   is_Some (SpMat_new ex_queue bad_part bad_part 2 2 bad_row bad_col bad_val)) ∧
  (partition_ok (length one_queue) 2 one_part ∧
   rows_readable 0 2 bad_row' bad_col' bad_val ∧
   ¬ csr_ok 2 2 bad_row' bad_col' bad_val ∧
   is_Some (SpMat_new one_queue one_part one_part 2 2 bad_row' bad_col' bad_val)).
Proof.
  split; (split; [|split; [|split]]).
  - exact bad_part_ok.
  - exact bad_readable.
  - intros [_ _ _ _ Hb]. specialize (Hb 0). vm_compute in Hb. lia.
  - eexists. vm_compute. reflexivity.
  - exact one_part_ok.
  - exact bad_readable'.
  - intros [_ Hm _ _ _]. specialize (Hm 1). vm_compute in Hm. lia.
  - eexists. vm_compute. reflexivity.
Qed.

(** C9, as the code has it.  For valid partitions and input arrays that are
    read inside their bounds, whether the CSR matrix in them is well formed
    or not (row offsets in any order, columns of any value), the assertion
    of the local/remote split does not fail when the renumbering pass runs:
    with two or more devices [setup_exchange] has put every column outside
    the device's column range into the ghost set the renumbering map is
    built from, and a single device takes the fast path, which checks
    nothing.  Construction fails to return exactly when a device with rows,
    on the renumbering pass, has [row[part[d+1]] < row[part[d]]], through
    the [std::length_error] of [reserve] and not through a check of the
    input; any other malformed input is built.  Well-formed input is
    built. *)
Theorem construction_check_never_fails {real : Type} `{RealOps real}
    (queue : list device) (part xpart : list nat) (n m : nat)
    (row col : list nat) (val : list real) :
  partition_ok (length queue) n part → partition_ok (length queue) m xpart →
  rows_readable 0 n row col val →
  (∀ d, d < length queue →
     ¬ (part !!! d = 0 ∧
        x_remote_cols (setup_exchange (real:=real) (length queue)
                         part xpart row col) !!! d = ∅) →
     is_Some (split_rows (part !!! d) (part !!! (d + 1))
                (xpart !!! d) (xpart !!! (d + 1)) row col val
                (x_remote_cols (setup_exchange (real:=real) (length queue)
                                  part xpart row col) !!! d))) ∧
  (SpMat_new queue part xpart n m row col val = None ↔
   ∃ d, d < length queue ∧ part !!! d < part !!! (d + 1) ∧
        ¬ (part !!! d = 0 ∧
           x_remote_cols (setup_exchange (real:=real) (length queue)
                            part xpart row col) !!! d = ∅) ∧
        row !!! (part !!! (d + 1)) < row !!! (part !!! d)) ∧
  (csr_ok n m row col val →
   is_Some (SpMat_new queue part xpart n m row col val)).
Proof.
  intros Hpart _ _. pose proof (p_first _ _ _ Hpart) as Hp0. split; [|split].
  - intros d Hd Hslow. apply split_rows_is_Some.
    by destruct (fast_or_covered (real:=real) (length queue) part xpart row col
                   d Hp0 Hd).
  - unfold SpMat_new.
    set (f := new_block part xpart row col val
                (x_remote_cols (setup_exchange (real:=real) (length queue)
                                  part xpart row col))).
    split.
    + intros Hnone.
      destruct (decide (Forall (is_Some ∘ f) (seq 0 (length queue))))
        as [Hall|Hex].
      { apply mapM_is_Some in Hall as [blocks Hb]. by rewrite Hb in Hnone. }
      apply not_Forall_Exists in Hex; [|apply _].
      apply Exists_exists in Hex as (d & Hd%elem_of_seq & Hn).
      exists d. split; [lia|].
      apply (new_block_None (length queue) part xpart row col val d Hp0); [lia|].
      unfold f, compose in Hn. destruct (new_block _ _ _ _ _ _ d); [|done].
      by destruct Hn.
    + intros (d & Hd & Hrest).
      destruct (mapM f (seq 0 (length queue))) as [blocks|] eqn:Hb; [|done].
      exfalso. apply mapM_Some_1 in Hb.
      destruct (Forall2_lookup_l _ _ _ d d Hb) as (b & _ & Hfd);
        [by apply lookup_seq_lt|].
      assert (f d = None) as Hnone
        by (by apply (new_block_None (length queue) part xpart row col val d Hp0)).
      by rewrite Hnone in Hfd.
  - by apply SpMat_new_is_Some.
Qed.

(** At the rows [[0; 2; 1]] split one and one over two devices: the
    assertion holds for both devices, and the constructor of device 1 does
    not return, because [row[2] < row[1]]. *)
Lemma construction_check_never_fails_witness :
  partition_ok (length ex_queue) 2 bad_part ∧
  rows_readable 0 2 bad_row' bad_col' bad_val ∧
  SpMat_new ex_queue bad_part bad_part 2 2 bad_row' bad_col' bad_val = None ∧
  (∀ d, d < length ex_queue →
     ¬ (bad_part !!! d = 0 ∧
        x_remote_cols (setup_exchange (real:=Z) (length ex_queue)
                         bad_part bad_part bad_row' bad_col') !!! d = ∅) →
     is_Some (split_rows (bad_part !!! d) (bad_part !!! (d + 1))
                (bad_part !!! d) (bad_part !!! (d + 1)) bad_row' bad_col' bad_val
                (x_remote_cols (setup_exchange (real:=Z) (length ex_queue)
                                  bad_part bad_part bad_row' bad_col') !!! d))) ∧
  (SpMat_new ex_queue bad_part bad_part 2 2 bad_row' bad_col' bad_val = None ↔
   ∃ d, d < length ex_queue ∧ bad_part !!! d < bad_part !!! (d + 1) ∧
        ¬ (bad_part !!! d = 0 ∧
           x_remote_cols (setup_exchange (real:=Z) (length ex_queue)
                            bad_part bad_part bad_row' bad_col') !!! d = ∅) ∧
        bad_row' !!! (bad_part !!! (d + 1)) < bad_row' !!! (bad_part !!! d)) ∧
  (csr_ok 2 2 bad_row' bad_col' bad_val →
   is_Some (SpMat_new ex_queue bad_part bad_part 2 2 bad_row' bad_col' bad_val)).
Proof.
  split; [exact bad_part_ok|]. split; [exact bad_readable'|].
  split; [vm_compute; reflexivity|].
  exact (construction_check_never_fails ex_queue bad_part bad_part 2 2
           bad_row' bad_col' bad_val bad_part_ok bad_part_ok bad_readable').
Defined.

(** ** The renumbering pass (lines 549-570), row by row *)



Lemma ref_row_dot {real : Type} `{RealOps real} (row col : list nat)
    (val x : list real) (i : nat) :
  ref_row row col val x i = dot x ((λ j, (col !!! j, val !!! j)) <$> row_range row i).
Proof.
  unfold ref_row, dot, row_range. rewrite for_range_foldl.
  generalize (seq (row !!! i) (row !!! (i + 1) - row !!! i)).
  generalize (r0 : real).
  intros a l. revert a. induction l as [|k l IH]; intros a; [done|]. simpl. apply IH.
Qed.

Lemma fmap_lookup_app_seq {A : Type} `{Inhabited A} (l1 l2 : list A) :
  (λ k, (l1 ++ l2) !!! k) <$> seq (length l1) (length l2) = l2.
Proof.
  apply list_eq. intros t. rewrite list_lookup_fmap.
  destruct (decide (t < length l2)) as [Hlt|Hge].
  - rewrite lookup_seq_lt by done. simpl.
    rewrite lookup_total_app_r by lia.
    replace (length l1 + t - length l1) with t by lia.
    by rewrite (list_lookup_lookup_total_lt l2 t).
  - rewrite lookup_seq_ge, lookup_ge_None_2 by lia. done.
Qed.

Lemma rows_built_0 {real : Type} `{RealOps real} (E : nat → list (nat * real)) :
  rows_built [0] [] [] E 0.
Proof. do 3 (split; [done|]). intros r Hr. lia. Qed.

Lemma rows_built_snoc {real : Type} `{RealOps real} (rp cs : list nat)
    (vs : list real) (E : nat → list (nat * real)) (m : nat) :
  rows_built rp cs vs E m →
  rows_built (rp ++ [length (cs ++ (E m).*1)]) (cs ++ (E m).*1) (vs ++ (E m).*2)
    E (S m).
Proof.
  intros (Hlen & Hvs & Hlast & Hrows). unfold rows_built.
  rewrite !length_app, !length_fmap. simpl.
  split; [lia|]. split; [lia|]. split.
  { by rewrite last_snoc. }
  assert (rp !!! m = length cs) as Hm.
  { rewrite last_lookup in Hlast. rewrite Hlen in Hlast. simpl in Hlast.
    by apply list_lookup_total_correct. }
  intros r Hr. unfold block_row, row_range. simpl.
  destruct (decide (r = m)) as [->|Hne].
  - rewrite (lookup_total_app_l rp _ m) by lia. rewrite Hm.
    rewrite (lookup_total_app_r rp _ (m + 1)) by lia.
    replace (m + 1 - length rp) with 0 by lia. simpl.
    split; [lia|].
    replace (length cs + length (E m) - length cs) with (length (E m)) by lia.
    apply list_eq. intros t. rewrite list_lookup_fmap.
    destruct (decide (t < length (E m))) as [Hlt|Hge].
    + rewrite lookup_seq_lt by done. simpl.
      rewrite !lookup_total_app_r by lia.
      replace (length cs + t - length cs) with t by lia.
      replace (length cs + t - length vs) with t by lia.
      destruct (lookup_lt_is_Some_2 (E m) t Hlt) as [[c v] Hcv]. rewrite Hcv.
      rewrite (list_lookup_total_correct (E m).*1 t c)
        by (by rewrite list_lookup_fmap, Hcv).
      rewrite (list_lookup_total_correct (E m).*2 t v)
        by (by rewrite list_lookup_fmap, Hcv).
      done.
    + rewrite lookup_seq_ge, lookup_ge_None_2 by lia. done.
  - destruct (Hrows r ltac:(lia)) as [Hle Hrow].
    rewrite !lookup_total_app_l by lia. split; [lia|].
    rewrite <-Hrow. unfold block_row, row_range. simpl.
    apply list_fmap_ext. intros t k Hk. apply lookup_seq in Hk as [-> Ht].
    rewrite !lookup_total_app_l by lia. done.
Qed.

Lemma split_entries_foldl {real : Type} `{RealOps real} (xbeg xend : nat)
    (col : list nat) (val : list real) (r2l : gmap nat nat) (js : list nat)
    (s : split real) :
  (∀ j, j ∈ js → outside xbeg xend (col !!! j) → is_Some (r2l !! (col !!! j))) →
  foldl (λ s j, split_entry xbeg xend col val r2l j s) (Some s) js
  = Some (MkSplit (lrow s)
            (lcol s ++ ((λ j, col !!! j - xbeg) <$>
                          filter (λ j, xbeg ≤ col !!! j < xend) js))
            (lval s ++ ((λ j, val !!! j) <$>
                          filter (λ j, xbeg ≤ col !!! j < xend) js))
            (rrow s)
            (rcol s ++ ((λ j, default 0 (r2l !! (col !!! j))) <$>
                          filter (λ j, outside xbeg xend (col !!! j)) js))
            (rval s ++ ((λ j, val !!! j) <$>
                          filter (λ j, outside xbeg xend (col !!! j)) js))).
Proof.
  revert s. induction js as [|j js IH]; intros s Hr2l.
  - simpl. rewrite !app_nil_r. by destruct s.
  - simpl. rewrite !filter_cons.
    destruct ((xbeg <=? col !!! j) && (col !!! j <? xend)) eqn:E.
    + apply andb_true_iff in E as [E1%Nat.leb_le E2%Nat.ltb_lt].
      rewrite decide_True by lia.
      rewrite (decide_False (P := outside _ _ _)) by (unfold outside; lia).
      rewrite IH by (intros j' Hj'; apply Hr2l; by right).
      simpl. by rewrite <-!app_assoc.
    + assert (outside xbeg xend (col !!! j)) as Hout.
      { unfold outside. intros [? ?].
        apply andb_false_iff in E as [E|E];
          [apply Nat.leb_gt in E|apply Nat.ltb_ge in E]; lia. }
      rewrite decide_False by done. rewrite decide_True by done.
      destruct (Hr2l j ltac:(by left) Hout) as [k Hk]. rewrite Hk.
      rewrite IH by (intros j' Hj'; apply Hr2l; by right).
      unfold push_rem. simpl. rewrite Hk. simpl. by rewrite <-!app_assoc.
Qed.

Lemma split_row_spec {real : Type} `{RealOps real} (xbeg xend : nat)
    (row col : list nat) (val : list real) (r2l : gmap nat nat) (i : nat)
    (s : split real) :
  (∀ j, row !!! i ≤ j < row !!! (i + 1) → outside xbeg xend (col !!! j) →
        is_Some (r2l !! (col !!! j))) →
  split_row xbeg xend row col val r2l i (Some s)
  = Some (close_row
            (MkSplit (lrow s)
               (lcol s ++ (local_entries xbeg xend row col val i).*1)
               (lval s ++ (local_entries xbeg xend row col val i).*2)
               (rrow s)
               (rcol s ++ (remote_entries xbeg xend row col val r2l i).*1)
               (rval s ++ (remote_entries xbeg xend row col val r2l i).*2))).
Proof.
  intros Hr2l. unfold split_row. rewrite for_range_foldl.
  rewrite split_entries_foldl.
  - unfold local_entries, remote_entries, row_range.
    by rewrite <-!list_fmap_compose.
  - intros j Hj%elem_of_seq. apply Hr2l. lia.
Qed.

Lemma split_rows_spec {real : Type} `{RealOps real} (beg end_ xbeg xend : nat)
    (row col : list nat) (val : list real) (rc : gset nat) :
  beg ≤ end_ →
  (∀ i j, beg ≤ i < end_ → row !!! i ≤ j < row !!! (i + 1) →
          outside xbeg xend (col !!! j) → col !!! j ∈ rc) →
  ∃ s, split_rows beg end_ xbeg xend row col val rc = Some s ∧
       rows_built (lrow s) (lcol s) (lval s)
         (λ r, local_entries xbeg xend row col val (beg + r)) (end_ - beg) ∧
       (rc ≠ ∅ →
        rows_built (rrow s) (rcol s) (rval s)
          (λ r, remote_entries xbeg xend row col val (build_r2l rc) (beg + r))
          (end_ - beg)).
Proof.
  intros Hle Hcov. unfold split_rows.
  set (EL := λ r, local_entries xbeg xend row col val (beg + r)).
  set (ER := λ r, remote_entries xbeg xend row col val (build_r2l rc) (beg + r)).
  pose (P := λ (k : nat) (st : option (split real)),
    ∃ s, st = Some s ∧
         rows_built (lrow s) (lcol s) (lval s) EL (k - beg) ∧
         (rc ≠ ∅ → rows_built (rrow s) (rcol s) (rval s) ER (k - beg))).
  apply (for_range_ind P beg end_); [done| |].
  - eexists. split; [done|]. replace (beg - beg) with 0 by lia. simpl.
    split; [apply rows_built_0|].
    intros Hne. rewrite bool_decide_eq_false_2 by done. apply rows_built_0.
  - intros k st Hk (s & -> & HL & HR).
    rewrite split_row_spec; cycle 1.
    { intros j Hj Hout. apply build_r2l_spec. by apply (Hcov k j). }
    assert (local_entries xbeg xend row col val k = EL (k - beg)) as ->
      by (unfold EL; f_equal; lia).
    assert (remote_entries xbeg xend row col val (build_r2l rc) k = ER (k - beg)) as ->
      by (unfold ER; f_equal; lia).
    eexists. split; [done|]. unfold close_row. simpl.
    replace (S k - beg) with (S (k - beg)) by lia.
    split.
    + by apply rows_built_snoc.
    + intros Hne. by apply rows_built_snoc, HR.
Qed.

(** ** What a constructed block computes *)

Lemma row_range_nil (row : list nat) (i : nat) :
  row !!! (i + 1) ≤ row !!! i → row_range row i = [].
Proof. intros Hle. unfold row_range. by replace (row !!! (i + 1) - row !!! i) with 0 by lia. Qed.

Lemma rows_built_row_sum {real : Type} `{RealOps real} (rp cs : list nat)
    (vs : list real) (E : nat → list (nat * real)) (m r : nat) (x : list real) :
  rows_built rp cs vs E m → r < m →
  row_sum (Csr rp cs vs) x r = dot x (E r).
Proof.
  intros (_ & _ & _ & Hrows) Hr. rewrite row_sum_dot.
  by destruct (Hrows r Hr) as [_ ->].
Qed.

Lemma rows_built_empty {real : Type} `{RealOps real} (rp cs : list nat)
    (vs : list real) (E : nat → list (nat * real)) (m r : nat) :
  rows_built rp cs vs E m → r < m → cs = [] → E r = [].
Proof.
  intros (_ & _ & _ & Hrows) Hr ->.
  destruct (Hrows r Hr) as [Hle <-]. simpl in Hle.
  unfold block_row. rewrite row_range_nil; [done|]. simpl. lia.
Qed.

Lemma filter_all {A : Type} (P : A → Prop) `{∀ x, Decision (P x)} (l : list A) :
  (∀ x, x ∈ l → P x) → filter P l = l.
Proof.
  induction l as [|a l IH]; intros Hall; [done|].
  rewrite filter_cons, decide_True by (apply Hall; by left).
  f_equal. apply IH. intros x Hx. apply Hall. by right.
Qed.

Lemma filter_none {A : Type} (P : A → Prop) `{∀ x, Decision (P x)} (l : list A) :
  (∀ x, x ∈ l → ¬ P x) → filter P l = [].
Proof.
  induction l as [|a l IH]; intros Hall; [done|].
  rewrite filter_cons, decide_False by (apply Hall; by left).
  apply IH. intros x Hx. apply Hall. by right.
Qed.

Lemma elem_of_row_range (row : list nat) (i j : nat) :
  j ∈ row_range row i ↔ row !!! i ≤ j < row !!! (i + 1).
Proof. unfold row_range. rewrite elem_of_seq. lia. Qed.

(** The block of a device with rows [[beg, end_)] and columns
    [[xbeg, xend)], when every column outside the column range is in the
    ghost set [rc], and the fast path is taken only with [xbeg = 0]. *)
Lemma SpMatCSR_new_spec {real : Type} `{RealOps real} (nr nc beg end_ xbeg xend : nat)
    (row col : list nat) (val : list real) (rc : gset nat) :
  csr_ok nr nc row col val → beg ≤ end_ → end_ ≤ nr →
  (∀ i j, beg ≤ i < end_ → row !!! i ≤ j < row !!! (i + 1) →
          outside xbeg xend (col !!! j) → col !!! j ∈ rc) →
  (beg = 0 → rc = ∅ → xbeg = 0) →
  ∃ A, SpMatCSR_new beg end_ xbeg xend row col val rc = Some A ∧
       n A = end_ - beg ∧
       has_rem A = negb (bool_decide (rc = ∅)) ∧
       ∀ r, r < end_ - beg →
         (if has_loc A
          then ∀ x, row_sum (loc A) x r
                    = dot x (local_entries xbeg xend row col val (beg + r))
          else local_entries xbeg xend row col val (beg + r) = []) ∧
         (if has_rem A
          then ∀ x, row_sum (rem A) x r
                    = dot x (remote_entries xbeg xend row col val (build_r2l rc) (beg + r))
          else remote_entries xbeg xend row col val (build_r2l rc) (beg + r) = []).
Proof.
  intros Hcsr Hle Hend Hcov Hslip.
  assert (∀ r, r < end_ - beg → rc = ∅ →
          remote_entries xbeg xend row col val (build_r2l rc) (beg + r) = []) as Hnorem.
  { intros r Hr ->. unfold remote_entries. rewrite filter_none; [done|].
    intros j Hj%elem_of_row_range Hout.
    specialize (Hcov (beg + r) j ltac:(lia) Hj Hout). set_solver. }
  unfold SpMatCSR_new.
  destruct ((beg =? 0) && bool_decide (rc = ∅)) eqn:Efast.
  - (* fast path *)
    apply andb_true_iff in Efast as [Hbeg%Nat.eqb_eq Hrc%bool_decide_eq_true].
    specialize (Hslip Hbeg Hrc). subst beg xbeg.
    replace (end_ - 0) with end_ in * by lia.
    eexists. split; [done|]. simpl. split; [done|].
    split; [by rewrite bool_decide_eq_true_2|].
    intros r Hr. split; [|by apply (Hnorem r)].
    assert (row !!! (r + 1) ≤ row !!! end_) as Hrle
      by (eapply csr_row_le; [done|lia..]).
    assert (row !!! end_ ≤ row !!! nr) as Hnle
      by (eapply csr_row_le; [done|lia..]).
    destruct (row !!! end_ =? 0) eqn:Enz; simpl.
    + apply Nat.eqb_eq in Enz. unfold local_entries.
      rewrite row_range_nil; [done|]. simpl. lia.
    + intros x. rewrite row_sum_dot. f_equal.
      unfold block_row, local_entries, row_range. simpl.
      rewrite !lookup_total_take_lt by lia.
      rewrite filter_all.
      * apply list_fmap_ext. intros t j Hj. apply lookup_seq in Hj as [-> Ht].
        rewrite !lookup_total_take_lt by lia. by rewrite Nat.sub_0_r.
      * intros j Hj%elem_of_seq.
        destruct (decide (0 ≤ col !!! j < xend)) as [|Hout]; [done|].
        specialize (Hcov r j ltac:(lia) ltac:(simpl; lia) Hout). set_solver.
  - (* renumbering pass *)
    rewrite reserve_fits_true by (eapply csr_row_le; [done|lia..]). cbn [negb].
    destruct (split_rows_spec beg end_ xbeg xend row col val rc Hle Hcov)
      as (s & -> & HL & HR).
    simpl. eexists. split; [done|]. simpl. split; [done|]. split; [done|].
    intros r Hr. split.
    + pose proof HL as (_ & _ & HLlast & _).
      rewrite HLlast. simpl.
      destruct (length (lcol s) =? 0) eqn:Enz; simpl.
      * apply Nat.eqb_eq in Enz.
        exact (rows_built_empty _ _ _ _ _ r HL Hr (nil_length_inv _ Enz)).
      * intros x. exact (rows_built_row_sum _ _ _ _ _ r x HL Hr).
    + destruct (bool_decide (rc = ∅)) eqn:Erc; simpl.
      * apply Hnorem; [done|]. by apply bool_decide_eq_true in Erc.
      * apply bool_decide_eq_false in Erc. intros x.
        exact (rows_built_row_sum _ _ _ _ _ r x (HR Erc) Hr).
Qed.

(** ** Sums *)

Section sums.
Context {real : Type} `{RealLaws real}.

Lemma radd_0_r (a : real) : radd a r0 = a.
Proof. by rewrite radd_comm, radd_0_l. Qed.

Lemma rsum_snoc (ts : list real) (t : real) : rsum (ts ++ [t]) = radd (rsum ts) t.
Proof. unfold rsum. by rewrite foldl_app. Qed.

Lemma dot_rsum (x : list real) (es : list (nat * real)) :
  dot x es = rsum ((λ e, rmul e.2 (x !!! e.1)) <$> es).
Proof. unfold dot, rsum. by rewrite foldl_fmap. Qed.

(** A sum taken in two parts, by any decidable test on the index. *)
Lemma rsum_split {J : Type} (P : J → Prop) `{∀ j, Decision (P j)}
    (t : J → real) (l : list J) :
  radd (rsum (t <$> filter P l)) (rsum (t <$> filter (λ j, ¬ P j) l))
  = rsum (t <$> l).
Proof.
  induction l as [|j l IH] using rev_ind.
  - apply radd_0_l.
  - rewrite !filter_app, !fmap_app, !filter_cons, !filter_nil. simpl.
    rewrite (rsum_snoc (t <$> l)), <-IH.
    destruct (decide (P j)) as [Hj|Hj].
    + rewrite (decide_False (P := ¬ P j)) by tauto. simpl.
      rewrite app_nil_r, rsum_snoc.
      rewrite <-!radd_assoc. f_equal. apply radd_comm.
    + rewrite (decide_True (P := ¬ P j)) by done. simpl.
      rewrite app_nil_r, rsum_snoc. by rewrite radd_assoc.
Qed.

(** Row [i] of the reference is the local part plus the remote part, when
    the device's part [xd] of [x] and the received ghost values [xr] hold
    the entries of [x] the renumbered columns stand for. *)
Lemma local_plus_remote (xbeg xend : nat) (row col : list nat)
    (val x xd xr : list real) (r2l : gmap nat nat) (i : nat) :
  (∀ c, xbeg ≤ c < xend → xd !!! (c - xbeg) = x !!! c) →
  (∀ j, j ∈ row_range row i → outside xbeg xend (col !!! j) →
        ∃ k, r2l !! (col !!! j) = Some k ∧ xr !!! k = x !!! (col !!! j)) →
  radd (dot xd (local_entries xbeg xend row col val i))
       (dot xr (remote_entries xbeg xend row col val r2l i))
  = ref_row row col val x i.
Proof.
  intros Hxd Hxr.
  rewrite ref_row_dot, !dot_rsum. unfold local_entries, remote_entries.
  rewrite <-!list_fmap_compose.
  rewrite <-(rsum_split (λ j, xbeg ≤ col !!! j < xend) _ (row_range row i)).
  f_equal; f_equal.
  - apply list_fmap_ext. intros t j Hj.
    apply list_elem_of_lookup_2, list_elem_of_filter in Hj as [Hin _].
    simpl. by rewrite (Hxd _ Hin).
  - apply list_fmap_ext. intros t j Hj.
    apply list_elem_of_lookup_2, list_elem_of_filter in Hj as [Hout Hin].
    simpl. destruct (Hxr j Hin Hout) as (k & Hk & Hv). rewrite Hk. simpl.
    by rewrite Hv.
Qed.

End sums.

(** ** Buffers and kernels of the exchange *)

Lemma alignup_ge (k m : nat) : 0 < m → k ≤ alignup k m.
Proof.
  intros Hm. unfold alignup.
  pose proof (Nat.mod_upper_bound k m ltac:(lia)).
  pose proof (Nat.Div0.mod_le k m).
  destruct (k mod m =? 0); lia.
Qed.

Lemma for_range_shift {St : Type} (off len : nat) (body : nat → St → St) (s : St) :
  for_range 0 len (λ k, body (off + k)) s = for_range off (off + len) body s.
Proof.
  unfold for_range. replace (off + len - off) with len by lia.
  rewrite Nat.sub_0_r.
  replace (seq off len) with (Nat.add off <$> seq 0 len)
    by (rewrite fmap_add_seq; f_equal; lia).
  by rewrite foldl_fmap.
Qed.

Lemma copy_into_spec {A : Type} `{Inhabited A} (dst : list A) (off : nat)
    (src : list A) (len : nat) :
  length (copy_into dst off src len) = length dst ∧
  ∀ i, copy_into dst off src len !!! i
       = if decide (off ≤ i < off + len ∧ i < length dst)
         then src !!! (i - off) else dst !!! i.
Proof.
  assert (copy_into dst off src len
          = for_range off (off + len) (λ i l, <[i := src !!! (i - off)]> l) dst) as ->.
  { unfold copy_into. rewrite <-for_range_shift. apply for_range_ext.
    intros k l Hk. by replace (off + k - off) with k by lia. }
  apply (for_range_update off (off + len) (λ i _, src !!! (i - off)) dst).
Qed.

Lemma gather_vals_to_send_spec {real : Type} `{RealOps real} (G k : nat)
    (vals : list real) (cts : list nat) (vts : list real) :
  k ≤ G →
  length (gather_vals_to_send G k vals cts vts) = length vts ∧
  ∀ t, gather_vals_to_send G k vals cts vts !!! t
       = if decide (t < k ∧ t < length vts)
         then vals !!! (cts !!! t) else vts !!! t.
Proof.
  intros HG. unfold gather_vals_to_send.
  rewrite (for_range_ext 0 G _
    (λ i l, <[i := (λ i v, if i <? k then vals !!! (cts !!! i) else v) i (l !!! i)]> l)).
  - destruct (for_range_update 0 G
      (λ i v, if i <? k then vals !!! (cts !!! i) else v) vts) as [Hl Hlk].
    split; [done|]. intros t. rewrite Hlk.
    destruct (decide (t < k ∧ t < length vts)) as [[? ?]|Hn].
    + rewrite decide_True by lia.
      by destruct (Nat.ltb_spec t k); [|lia].
    + destruct (decide (0 ≤ t < G ∧ t < length vts)) as [[? ?]|]; [|done].
      by destruct (Nat.ltb_spec t k); [lia|].
  - intros i l Hi. simpl. destruct (i <? k); [done|].
    symmetry. apply list_insert_id'. intros Hlt.
    by apply list_lookup_lookup_total_lt.
Qed.

Lemma redistribute_spec {real : Type} `{RealOps real} (rx0 : list real)
    (recv : list nat) (vals : list real) :
  length (redistribute rx0 recv vals) = length vals ∧
  ∀ t, redistribute rx0 recv vals !!! t
       = if decide (t < length recv ∧ t < length vals)
         then rx0 !!! (recv !!! t) else vals !!! t.
Proof.
  unfold redistribute.
  destruct (for_range_update 0 (length recv) (λ i _, rx0 !!! (recv !!! i)) vals)
    as [Hl Hlk].
  split; [done|]. intros t. rewrite Hlk.
  destruct (decide (t < length recv ∧ t < length vals));
    [rewrite decide_True by lia|rewrite decide_False by lia]; done.
Qed.

(** ** One device: local kernel, then remote kernel *)

Lemma block_mul_correct {real : Type} `{RealLaws real} (dev : device)
    (M : SpMatCSR real) (xd xr yd : list real) (alpha : real) (append : bool)
    (ev : list event) (EL ER : nat → list (nat * real)) (refv : nat → real) :
  0 < spmv_gsize dev → length yd = n M →
  (∀ r, r < n M →
     (if has_loc M then ∀ x, row_sum (loc M) x r = dot x (EL r) else EL r = []) ∧
     (if has_rem M then ∀ x, row_sum (rem M) x r = dot x (ER r) else ER r = [])) →
  (∀ r, r < n M → radd (dot xd (EL r)) (dot xr (ER r)) = refv r) →
  length (mul_remote dev M xr (mul_local dev M xd yd alpha append) alpha ev).1
  = n M ∧
  ∀ r, r < n M →
    (mul_remote dev M xr (mul_local dev M xd yd alpha append) alpha ev).1 !!! r
    = if append then radd (yd !!! r) (rmul alpha (refv r))
      else rmul alpha (refv r).
Proof.
  intros HG Hlen Hrows Href.
  assert (length (mul_local dev M xd yd alpha append) = n M) as Hl1.
  { unfold mul_local.
    destruct (has_loc M), append; simpl; rewrite ?length_replicate; try done.
    - by destruct (spmv_add_spec (spmv_gsize dev) (n M) (loc M) xd yd alpha HG) as [-> _].
    - by destruct (spmv_set_spec (spmv_gsize dev) (n M) (loc M) xd yd alpha HG) as [-> _]. }
  split.
  { unfold mul_remote. destruct (has_rem M); simpl; [|done].
    by destruct (spmv_add_spec (spmv_gsize dev) (n M) (rem M) xr
                   (mul_local dev M xd yd alpha append) alpha HG) as [-> _]. }
  intros r Hr. destruct (Hrows r Hr) as [HL HR]. rewrite <-(Href r Hr).
  assert (mul_local dev M xd yd alpha append !!! r
          = if has_loc M
            then if append then radd (yd !!! r) (rmul alpha (dot xd (EL r)))
                 else rmul alpha (dot xd (EL r))
            else if append then yd !!! r else r0) as Hy1.
  { unfold mul_local. destruct (has_loc M), append; simpl.
    - destruct (spmv_add_spec (spmv_gsize dev) (n M) (loc M) xd yd alpha HG) as [_ ->].
      rewrite decide_True by lia. by rewrite HL.
    - destruct (spmv_set_spec (spmv_gsize dev) (n M) (loc M) xd yd alpha HG) as [_ ->].
      rewrite decide_True by lia. by rewrite HL.
    - done.
    - rewrite lookup_total_replicate_2 by lia. done. }
  unfold mul_remote. destruct (has_rem M); simpl.
  - destruct (spmv_add_spec (spmv_gsize dev) (n M) (rem M) xr
                (mul_local dev M xd yd alpha append) alpha HG) as [_ ->].
    rewrite decide_True by lia. rewrite Hy1, HR.
    destruct (has_loc M), append.
    + by rewrite <-radd_assoc, <-rmul_add_distr_l.
    + by rewrite <-rmul_add_distr_l.
    + rewrite HL. change (dot xd []) with (r0 : real). by rewrite radd_0_l.
    + rewrite HL. change (dot xd []) with (r0 : real). by rewrite !radd_0_l.
  - rewrite Hy1, HR. change (dot xr []) with (r0 : real).
    destruct (has_loc M), append.
    + by rewrite radd_0_r.
    + by rewrite radd_0_r.
    + rewrite HL. change (dot xd []) with (r0 : real).
      by rewrite radd_0_l, rmul_0_r, radd_0_r.
    + rewrite HL. change (dot xd []) with (r0 : real).
      by rewrite radd_0_l, rmul_0_r.
Qed.

(** ** More on the planner's result *)

Lemma send_list_nil (rcs : list (gset nat)) :
  length (send_list rcs) = 0 → ∀ d, d < length rcs → rcs !!! d = ∅.
Proof.
  intros Hnil d Hd. apply leibniz_equiv, elem_of_equiv_empty. intros c Hc.
  assert (c ∈ send_list rcs) as Hin by (by apply (ghost_subset_send_list rcs d)).
  apply nil_length_inv in Hnil. rewrite Hnil in Hin. by apply elem_of_nil in Hin.
Qed.

Lemma setup_exchange_rx {real : Type} `{RealOps real} (D : nat)
    (part xpart row col : list nat) :
  length (x_rx (setup_exchange (real:=real) D part xpart row col))
  = if decide (2 ≤ D) then length (send_list (ghost_sets D part xpart row col))
    else 0.
Proof.
  destruct (decide (2 ≤ D)) as [HD|HD].
  - destruct (decide (0 < length (send_list (ghost_sets D part xpart row col))))
      as [Hpos|Hz].
    + rewrite setup_exchange_unfold by done. simpl. by rewrite length_replicate.
    + unfold setup_exchange. destruct (D <=? 1); [simpl; lia|]. cbv zeta.
      destruct (length (send_list _) =? 0) eqn:E0; [simpl; lia|].
      apply Nat.eqb_neq in E0. lia.
  - by rewrite setup_exchange_single by lia.
Qed.

Lemma setup_exchange_recv_empty {real : Type} `{RealOps real} (D : nat)
    (part xpart row col : list nat) (d : nat) :
  d < D →
  size (x_remote_cols (setup_exchange (real:=real) D part xpart row col) !!! d) = 0 →
  cols_to_recv (x_exc (setup_exchange (real:=real) D part xpart row col) !!! d) = [] ∧
  vals_to_recv (x_exc (setup_exchange (real:=real) D part xpart row col) !!! d) = [] ∧
  ex_rx (x_exc (setup_exchange (real:=real) D part xpart row col) !!! d) = [].
Proof.
  intros Hd Hrc.
  destruct (decide (2 ≤ D)) as [HD|HD]; cycle 1.
  { rewrite setup_exchange_single by lia. simpl.
    by rewrite lookup_total_replicate_2. }
  rewrite setup_exchange_remote_cols in Hrc by done.
  set (rcs := ghost_sets D part xpart row col) in *.
  destruct (decide (0 < length (send_list rcs))) as [Hpos|Hz]; cycle 1.
  { unfold setup_exchange. destruct (D <=? 1) eqn:E; [apply Nat.leb_le in E; lia|].
    fold rcs. cbv zeta. destruct (length (send_list rcs) =? 0) eqn:E0.
    - simpl. by rewrite lookup_total_replicate_2.
    - apply Nat.eqb_neq in E0. lia. }
  rewrite setup_exchange_unfold by done. fold rcs. simpl.
  destruct (plan_recv_spec (real:=real) D rcs (send_list rcs)
              (replicate D exdata_empty)) as [Hl1 Hr]; [by rewrite length_replicate|].
  destruct (plan_send_spec D (build_cidx D xpart (send_list rcs)) xpart (send_list rcs)
              (plan_recv D rcs (send_list rcs) (replicate D exdata_empty)))
    as [_ Hs]; [by apply build_cidx_spec, increasing_send_list|done|].
  destruct (Hs d Hd) as (-> & -> & -> & _). rewrite (Hr d Hd), Hrc. simpl.
  by rewrite lookup_total_replicate_2.
Qed.

(** With a partition of the columns and ghost columns below [nc], the
    ranges of [cidx] start at 0 and end at the end of the send list. *)
Lemma build_cidx_ends (D nc : nat) (xpart cts : list nat) :
  increasing cts → partition_ok D nc xpart → (∀ c, c ∈ cts → c < nc) →
  build_cidx D xpart cts !!! 0 = 0 ∧ build_cidx D xpart cts !!! D = length cts.
Proof.
  intros Hinc Hxpart Hlt.
  destruct (build_cidx_spec D xpart cts Hinc) as [_ Hbound _ Hge _ Hfirst].
  set (cidx := build_cidx D xpart cts) in *. split.
  - destruct (cidx !!! 0) as [|k] eqn:E; [done|].
    specialize (Hfirst 0 ltac:(lia)). rewrite (p_first _ _ _ Hxpart) in Hfirst. lia.
  - pose proof (Hbound D ltac:(lia)).
    destruct (decide (cidx !!! D = length cts)) as [|Hne]; [done|].
    pose proof (Hge D (cidx !!! D) ltac:(lia) ltac:(lia)) as Hc.
    rewrite (p_last _ _ _ Hxpart) in Hc.
    assert (cts !!! (cidx !!! D) < nc); [|lia].
    apply Hlt, list_elem_of_lookup_total_2. lia.
Qed.

Lemma send_list_bound {real : Type} (D nr nc : nat) (part xpart row col : list nat)
    (val : list real) (c : nat) :
  partition_ok D nr part → csr_ok nr nc row col val →
  c ∈ send_list (ghost_sets D part xpart row col) → c < nc.
Proof.
  intros Hpart Hcsr (d & Hd & Hc)%elem_of_send_list.
  rewrite length_ghost_sets in Hd. rewrite lookup_ghost_sets in Hc by done.
  by eapply ghost_set_bound.
Qed.

(** ** The sizes of the exchange data *)

Lemma setup_exchange_recv_sizes {real : Type} `{RealOps real} (D : nat)
    (part xpart row col : list nat) (d : nat) :
  d < D →
  let ex := setup_exchange (real:=real) D part xpart row col in
  length (cols_to_recv (x_exc ex !!! d)) = size (x_remote_cols ex !!! d) ∧
  length (vals_to_recv (x_exc ex !!! d)) = size (x_remote_cols ex !!! d) ∧
  length (ex_rx (x_exc ex !!! d)) = size (x_remote_cols ex !!! d).
Proof.
  intros Hd ex.
  destruct (decide (0 < size (x_remote_cols ex !!! d))) as [Hpos|Hz].
  - destruct (setup_exchange_recv (real:=real) D part xpart row col d Hd Hpos)
      as (HD & Hcr & Hvr & Hrx & _).
    fold ex in Hcr, Hvr, Hrx. split; [|done].
    rewrite Hcr.
    destruct (recv_positions_spec (send_list (x_remote_cols ex))
                (x_remote_cols ex !!! d)) as [Hlen _]; [| |done].
    + apply increasing_send_list.
    + intros c Hc. apply (ghost_subset_send_list _ d); [|done].
      unfold ex. rewrite setup_exchange_remote_cols by done.
      by rewrite length_ghost_sets.
  - assert (size (x_remote_cols ex !!! d) = 0) as Hz' by lia.
    destruct (setup_exchange_recv_empty (real:=real) D part xpart row col d Hd Hz')
      as (Hcr & Hvr & Hrx).
    fold ex in Hcr, Hvr, Hrx. by rewrite Hcr, Hvr, Hrx, Hz'.
Qed.

Lemma setup_exchange_send_sizes {real : Type} `{RealOps real} (D : nat)
    (part xpart row col : list nat) (d : nat) :
  d < D →
  let ex := setup_exchange (real:=real) D part xpart row col in
  x_cidx ex !!! d ≤ x_cidx ex !!! (d + 1) ∧
  x_cidx ex !!! (d + 1) ≤ length (x_rx ex) ∧
  length (cols_to_send (x_exc ex !!! d)) = x_cidx ex !!! (d + 1) - x_cidx ex !!! d ∧
  length (vals_to_send (x_exc ex !!! d)) = x_cidx ex !!! (d + 1) - x_cidx ex !!! d.
Proof.
  intros Hd ex.
  destruct (decide (2 ≤ D)) as [HD|HD]; cycle 1.
  { unfold ex. rewrite setup_exchange_single by lia. simpl.
    by rewrite lookup_total_replicate_2. }
  set (rcs := ghost_sets D part xpart row col).
  destruct (decide (0 < length (send_list rcs))) as [Hpos|Hz]; cycle 1.
  { unfold ex, setup_exchange.
    destruct (D <=? 1) eqn:E; [apply Nat.leb_le in E; lia|].
    fold rcs. cbv zeta. destruct (length (send_list rcs) =? 0) eqn:E0.
    - simpl. by rewrite lookup_total_replicate_2.
    - apply Nat.eqb_neq in E0. lia. }
  pose proof (setup_exchange_rx (real:=real) D part xpart row col) as Hrx.
  rewrite decide_True in Hrx by done. fold ex rcs in Hrx.
  destruct (setup_exchange_send (real:=real) D part xpart row col d HD Hd Hpos)
    as (Hcidx & Heq & Hlt).
  fold ex rcs in Hcidx, Heq, Hlt. rewrite Hcidx, Hrx.
  destruct (build_cidx_spec D xpart (send_list rcs) (increasing_send_list _))
    as [_ Hb Hm _ _ _].
  specialize (Hm d Hd). specialize (Hb (d + 1) ltac:(lia)).
  split; [done|]. split; [done|].
  destruct (decide (build_cidx D xpart (send_list rcs) !!! d
                    = build_cidx D xpart (send_list rcs) !!! (d + 1))) as [He|Hne].
  - destruct (Heq He) as [-> ->]. simpl. lia.
  - destruct (Hlt ltac:(lia)) as (-> & -> & _). done.
Qed.

(** ** The send list and its ranges *)

(** C4. For well-formed CSR input and partitions, on two or more devices,
    there is a list [cts], the send list that [setup_exchange] builds in
    [cols_to_send] before it rebases it: [cts] is strictly increasing, and
    its elements are the columns of the nonzeros that lie outside the
    column range of the device that owns their row; [rx] gets one element
    per position of [cts]; when [cts] is not empty [cidx] has one boundary
    per device and one more, from 0 to the length of [cts]; [cidx] is
    non-decreasing; position [i] lies in [[cidx[d], cidx[d+1])] exactly when
    the column [cts[i]] lies in device [d]'s column range; every position
    lies in the range of exactly one device; and the buffer [cols_to_send]
    of device [d] holds its range of [cts], each column lowered by
    [xpart[d]]. *)
Theorem setup_exchange_send_ranges {real : Type} `{RealOps real} (D n m : nat)
    (part xpart row col : list nat) (val : list real) :
  2 ≤ D → partition_ok D n part → partition_ok D m xpart →
  csr_ok n m row col val →
  let ex := setup_exchange (real:=real) D part xpart row col in
  ∃ cts : list nat,
    increasing cts ∧
    (∀ c, c ∈ cts ↔
       ∃ d i j, d < D ∧ part !!! d ≤ i < part !!! (d + 1) ∧
                row !!! i ≤ j < row !!! (i + 1) ∧ col !!! j = c ∧
                outside (xpart !!! d) (xpart !!! (d + 1)) c) ∧
    length (x_rx ex) = length cts ∧
    (0 < length cts →
       length (x_cidx ex) = S D ∧ x_cidx ex !!! 0 = 0 ∧
       x_cidx ex !!! D = length cts) ∧
    (∀ d, d < D → x_cidx ex !!! d ≤ x_cidx ex !!! (d + 1)) ∧
    (∀ d i, d < D → i < length cts →
       x_cidx ex !!! d ≤ i < x_cidx ex !!! (d + 1) ↔
       xpart !!! d ≤ cts !!! i < xpart !!! (d + 1)) ∧
    (∀ i, i < length cts →
       ∃ d, d < D ∧ x_cidx ex !!! d ≤ i < x_cidx ex !!! (d + 1) ∧
            ∀ d', d' < D → x_cidx ex !!! d' ≤ i < x_cidx ex !!! (d' + 1) → d' = d) ∧
    (∀ d, d < D →
       length (cols_to_send (x_exc ex !!! d))
       = x_cidx ex !!! (d + 1) - x_cidx ex !!! d ∧
       ∀ t, t < x_cidx ex !!! (d + 1) - x_cidx ex !!! d →
         cols_to_send (x_exc ex !!! d) !!! t + xpart !!! d
         = cts !!! (x_cidx ex !!! d + t)).
Proof.
  intros HD Hpart Hxpart Hcsr ex.
  set (cts := send_list (ghost_sets D part xpart row col)).
  assert (x_remote_cols ex = ghost_sets D part xpart row col) as Hrcs
    by (unfold ex; by rewrite setup_exchange_remote_cols).
  exists cts.
  assert (increasing cts) as Hinc by apply increasing_send_list.
  assert (∀ c, c ∈ cts ↔ ∃ d, d < D ∧ c ∈ ghost_set part xpart row col d) as Hmem.
  { intros c. unfold cts. rewrite elem_of_send_list, length_ghost_sets.
    split; intros (d & Hd & Hc); exists d; (split; [done|]).
    - by rewrite lookup_ghost_sets in Hc.
    - by rewrite lookup_ghost_sets. }
  split; [done|]. split.
  { intros c. rewrite Hmem. split.
    - intros (d & Hd & (i & j & Hc)%elem_of_ghost_set). by exists d, i, j.
    - intros (d & i & j & Hd & Hc). exists d. split; [done|].
      apply elem_of_ghost_set. by exists i, j. }
  split.
  { unfold ex. rewrite setup_exchange_rx. by rewrite decide_True. }
  assert (∀ d, d < D →
            length (cols_to_send (x_exc ex !!! d))
            = x_cidx ex !!! (d + 1) - x_cidx ex !!! d) as Hsizes.
  { intros d Hd.
    by destruct (setup_exchange_send_sizes (real:=real) D part xpart row col d Hd)
      as (_ & _ & ? & _). }
  pose proof (setup_exchange_cidx (real:=real) D part xpart row col HD) as Hc.
  cbv zeta in Hc. fold ex in Hc. rewrite Hrcs in Hc. fold cts in Hc.
  destruct Hc as [[Hpos Hcidx]|[Hz Hcidx]]; cycle 1.
  { split; [lia|]. rewrite Hcidx in Hsizes |- *.
    split; [intros d _; by destruct d|]. split; [intros; lia|].
    split; [intros; lia|]. intros d Hd. split; [apply Hsizes, Hd|].
    intros t Ht. simpl in Ht. destruct d; simpl in Ht; lia. }
  destruct (build_cidx_spec D xpart cts Hinc) as [Hlen Hbound Hmono Hge Hlt Hfirst].
  rewrite Hcidx in Hsizes |- *.
  set (cidx := build_cidx D xpart cts) in *.
  assert (cidx !!! 0 = 0) as H0.
  { destruct (cidx !!! 0) as [|k] eqn:E; [done|].
    specialize (Hfirst 0 ltac:(lia)). rewrite (p_first _ _ _ Hxpart) in Hfirst. lia. }
  assert (cidx !!! D = length cts) as HD'.
  { pose proof (Hbound D ltac:(lia)).
    destruct (decide (cidx !!! D = length cts)) as [|Hne]; [done|].
    pose proof (Hge D (cidx !!! D) ltac:(lia) ltac:(lia)) as Hc.
    rewrite (p_last _ _ _ Hxpart) in Hc.
    assert (cts !!! (cidx !!! D) ∈ cts) as Hin
      by (apply list_elem_of_lookup_total_2; lia).
    apply Hmem in Hin as (d & Hd & Hin).
    pose proof (ghost_set_bound D n m part xpart row col val d _ Hpart Hcsr Hd Hin).
    lia. }
  assert (∀ d i, d < D → cidx !!! d ≤ i < cidx !!! (d + 1) →
          xpart !!! d ≤ cts !!! i < xpart !!! (d + 1)) as Hfwd.
  { intros d i Hd Hi.
    assert (cidx !!! (d + 1) ≤ length cts) by (apply Hbound; lia).
    split; [apply Hge; lia|by apply Hlt]. }
  assert (∀ d d' i, d < D → d' < D →
          xpart !!! d ≤ cts !!! i < xpart !!! (d + 1) →
          xpart !!! d' ≤ cts !!! i < xpart !!! (d' + 1) → d' = d) as Huniq.
  { intros d d' i Hd Hd' Hi Hi'.
    destruct (Nat.lt_trichotomy d d') as [Hlt'|[->|Hlt']]; [|done|].
    - pose proof (partition_le D m xpart (d + 1) d' Hxpart). lia.
    - pose proof (partition_le D m xpart (d' + 1) d Hxpart). lia. }
  assert (∀ i, i < length cts → ∃ d, d < D ∧ cidx !!! d ≤ i < cidx !!! (d + 1))
    as Hcover.
  { intros i Hi. apply steps_cover. lia. }
  split; [done|]. split; [done|]. split; [|split].
  - intros d i Hd Hi. split; [by apply Hfwd|]. intros Hx.
    destruct (Hcover i Hi) as (d' & Hd' & Hr).
    by rewrite <-(Huniq d d' i Hd Hd' Hx (Hfwd d' i Hd' Hr)).
  - intros i Hi. destruct (Hcover i Hi) as (d & Hd & Hr).
    exists d. split; [done|]. split; [done|].
    intros d' Hd' Hr'. eapply Huniq; eauto.
  - intros d Hd. split; [apply Hsizes, Hd|]. intros t Ht.
    destruct (setup_exchange_send (real:=real) D part xpart row col d HD Hd Hpos)
      as (_ & _ & Hbuf).
    fold ex cts cidx in Hbuf.
    destruct (Hbuf ltac:(lia)) as (_ & _ & Hlk).
    rewrite (Hlk t Ht).
    pose proof (Hfwd _ (cidx !!! d + t) Hd ltac:(lia)). lia.
Qed.

Lemma setup_exchange_send_ranges_witness :
  2 ≤ 2 ∧ partition_ok 2 4 ex_part ∧ csr_ok 4 4 ex_row ex_col ex_val ∧
  (let ex := setup_exchange (real:=Z) 2 ex_part ex_part ex_row ex_col in
   ∃ cts : list nat,
     increasing cts ∧
     (∀ c, c ∈ cts ↔
        ∃ d i j, d < 2 ∧ ex_part !!! d ≤ i < ex_part !!! (d + 1) ∧
                 ex_row !!! i ≤ j < ex_row !!! (i + 1) ∧ ex_col !!! j = c ∧
                 outside (ex_part !!! d) (ex_part !!! (d + 1)) c) ∧
     length (x_rx ex) = length cts ∧
     (0 < length cts →
        length (x_cidx ex) = 3 ∧ x_cidx ex !!! 0 = 0 ∧
        x_cidx ex !!! 2 = length cts) ∧
     (∀ d, d < 2 → x_cidx ex !!! d ≤ x_cidx ex !!! (d + 1)) ∧
     (∀ d i, d < 2 → i < length cts →
        x_cidx ex !!! d ≤ i < x_cidx ex !!! (d + 1) ↔
        ex_part !!! d ≤ cts !!! i < ex_part !!! (d + 1)) ∧
     (∀ i, i < length cts →
        ∃ d, d < 2 ∧ x_cidx ex !!! d ≤ i < x_cidx ex !!! (d + 1) ∧
             ∀ d', d' < 2 → x_cidx ex !!! d' ≤ i < x_cidx ex !!! (d' + 1) → d' = d) ∧
     (∀ d, d < 2 →
        length (cols_to_send (x_exc ex !!! d))
        = x_cidx ex !!! (d + 1) - x_cidx ex !!! d ∧
        ∀ t, t < x_cidx ex !!! (d + 1) - x_cidx ex !!! d →
          cols_to_send (x_exc ex !!! d) !!! t + ex_part !!! d
          = cts !!! (x_cidx ex !!! d + t))) ∧
  x_cidx (setup_exchange (real:=Z) 2 ex_part ex_part ex_row ex_col) = [0; 2; 4] ∧
  length (x_rx (setup_exchange (real:=Z) 2 ex_part ex_part ex_row ex_col)) = 4 ∧
  cols_to_send (x_exc (setup_exchange (real:=Z) 2 ex_part ex_part ex_row ex_col) !!! 0)
    = [0; 1] ∧
  cols_to_send (x_exc (setup_exchange (real:=Z) 2 ex_part ex_part ex_row ex_col) !!! 1)
    = [0; 1].
Proof.
  split; [lia|]. split; [exact ex_part_ok|]. split; [exact ex_csr_ok|].
  split.
  - exact (setup_exchange_send_ranges 2 4 4 ex_part ex_part ex_row ex_col ex_val
             ltac:(lia) ex_part_ok ex_part_ok ex_csr_ok).
  - repeat split; vm_compute; reflexivity.
Defined.

(** Device [d]'s part of a vector holds the entries of its range. *)
Lemma vpart_lookup {A : Type} `{Inhabited A} (p : list nat) (v : list A) (d c : nat) :
  p !!! d ≤ c < p !!! (d + 1) → vpart p v d !!! (c - p !!! d) = v !!! c.
Proof.
  intros Hc. unfold vpart.
  rewrite lookup_total_take_lt, lookup_total_drop by lia. f_equal. lia.
Qed.

Lemma lookup_vparts {A : Type} (D : nat) (p : list nat) (v : list A) (d : nat) :
  d < D → vparts D p v !!! d = vpart p v d.
Proof.
  intros Hd. unfold vparts. apply list_lookup_total_correct.
  by rewrite list_lookup_fmap, lookup_seq_lt.
Qed.

Lemma length_vparts {A : Type} (D : nat) (p : list nat) (v : list A) :
  length (vparts D p v) = D.
Proof. unfold vparts. by rewrite length_fmap, length_seq. Qed.

(** ** The multiply driver: [SpMat::mul] *)

Section driver.
Context {real : Type} `{RealLaws real}.
Variables (q : list device) (part xpart row col : list nat) (val : list real).
Variables (nr nc : nat).
Hypothesis Hdev : ∀ d, d < length q →
  0 < wgsize (q !!! d) ∧ 0 < num_workgroups (q !!! d).
Hypothesis Hpart : partition_ok (length q) nr part.
Hypothesis Hxpart : partition_ok (length q) nc xpart.
Hypothesis Hcsr : csr_ok nr nc row col val.

Lemma same_plan_refl (e : exdata real) : same_plan e e.
Proof. by repeat split. Qed.

(** Lines 329-377: after the gather, [rx[i]] is the entry of [x] at the
    [i]-th column of the send list. *)
Lemma gather_phase_spec (A : SpMat real) (x : list real) :
  built q part xpart row col val A → 2 ≤ length q →
  0 < length (send_list (ghost_sets (length q) part xpart row col)) →
  length (gather_phase A (vparts (length q) xpart x)).2
  = length (send_list (ghost_sets (length q) part xpart row col)) ∧
  (∀ i, i < length (send_list (ghost_sets (length q) part xpart row col)) →
     (gather_phase A (vparts (length q) xpart x)).2 !!! i
     = x !!! (send_list (ghost_sets (length q) part xpart row col) !!! i)) ∧
  length (gather_phase A (vparts (length q) xpart x)).1 = length q ∧
  ∀ d, d < length q →
    same_plan (x_exc (setup_exchange (real:=real) (length q) part xpart row col) !!! d)
              ((gather_phase A (vparts (length q) xpart x)).1 !!! d).
Proof.
  intros HA HD Hpos.
  set (D := length q) in *.
  set (cts := send_list (ghost_sets D part xpart row col)) in *.
  set (ex := setup_exchange (real:=real) D part xpart row col) in *.
  assert (increasing cts) as Hinc by apply increasing_send_list.
  assert (cidx A = build_cidx D xpart cts) as Hcidx.
  { rewrite (built_cidx _ _ _ _ _ _ _ HA). fold D. unfold cts.
    by rewrite setup_exchange_unfold. }
  destruct (build_cidx_spec D xpart cts Hinc) as [_ Hbound Hmono Hge Hlt _].
  destruct (build_cidx_ends D nc xpart cts Hinc Hxpart) as [Hc0 HcD].
  { intros c Hc. exact (send_list_bound D nr nc part xpart row col val c Hpart Hcsr Hc). }
  rewrite <-Hcidx in Hbound, Hmono, Hge, Hlt, Hc0, HcD.
  assert (length (rx A) = length cts) as Hrx.
  { rewrite (built_rx _ _ _ _ _ _ _ HA), setup_exchange_rx. fold D.
    by rewrite decide_True. }
  unfold gather_phase. rewrite (built_queue _ _ _ _ _ _ _ HA). fold D.
  pose (P := λ (k : nat) (st : list (exdata real) * list real),
    length st.2 = length cts ∧ length st.1 = D ∧
    (∀ d, d < D → same_plan (x_exc ex !!! d) (st.1 !!! d)) ∧
    (∀ i, i < cidx A !!! k → st.2 !!! i = x !!! (cts !!! i))).
  match goal with |- length ?loop.2 = _ ∧ _ => assert (P D loop) as HP end.
  { apply for_range_ind; [lia| |].
    - split; [done|]. split; [apply (built_exc_length _ _ _ _ _ _ _ HA)|].
      split; [apply (built_exc _ _ _ _ _ _ _ HA)|]. simpl. intros i. lia.
    - intros k [exc1 rx1] Hk (Hl2 & Hl1 & Hsame & Hdone). simpl in *.
      replace (S k) with (k + 1) by lia.
      pose proof (Hmono k ltac:(lia)) as Hm.
      pose proof (Hbound (k + 1) ltac:(lia)) as Hb.
      destruct (cidx A !!! (k + 1) - cidx A !!! k =? 0) eqn:E.
      { apply Nat.eqb_eq in E. do 3 (split; [done|]).
        intros i Hi. apply Hdone. simpl. lia. }
      apply Nat.eqb_neq in E.
      destruct (Hsame k ltac:(lia)) as (Hcr & Hcs & Hlvr & Hlvs & Hlrx).
      destruct (setup_exchange_send (real:=real) D part xpart row col k HD ltac:(lia))
        as (_ & _ & Hsend); [done|].
      fold cts ex in Hsend. rewrite <-Hcidx in Hsend.
      destruct (Hsend ltac:(lia)) as (Hlen & Hlenv & Hlk). clear Hsend.
      set (ncols := cidx A !!! (k + 1) - cidx A !!! k) in *.
      set (e := exc1 !!! k) in *.
      destruct (gather_vals_to_send_spec (alignup ncols (wgsize (q !!! k))) ncols
                  (vparts D xpart x !!! k) (cols_to_send e) (vals_to_send e))
        as [Hgl Hgk].
      { destruct (Hdev k ltac:(lia)) as [Hw _]. by apply alignup_ge. }
      set (vts := gather_vals_to_send _ _ _ _ _) in *.
      destruct (copy_into_spec rx1 (cidx A !!! k) vts ncols) as [Hcl Hck].
      split; [simpl; lia|]. split; [simpl; by rewrite length_insert|]. split.
      + intros d Hd. simpl. destruct (decide (d = k)) as [->|Hne].
        * rewrite list_lookup_total_insert_eq by lia.
          unfold same_plan, with_vals_to_send. simpl. fold e.
          repeat split; try done. lia.
        * rewrite list_lookup_total_insert_ne by done. by apply Hsame.
      + intros i Hi. simpl in *. rewrite Hck.
        destruct (decide (cidx A !!! k ≤ i < cidx A !!! k + ncols ∧ i < length rx1))
          as [[Hin _]|Hout]; [|apply Hdone; lia].
        rewrite Hgk, decide_True by lia.
        rewrite lookup_vparts by lia. rewrite Hcs.
        rewrite (Hlk (i - cidx A !!! k)) by lia.
        replace (cidx A !!! k + (i - cidx A !!! k)) with i by lia.
        apply vpart_lookup. split.
        * apply Hge; lia.
        * apply Hlt; lia. }
  destruct (for_range _ _ _ _) as [exc1 rx1].
  destruct HP as (Hl2 & Hl1 & Hsame & Hdone). simpl in *.
  split; [done|]. split; [|done]. intros i Hi. apply Hdone. lia.
Qed.

(** Lines 381-382. *)
Lemma local_phase_spec (A : SpMat real) (xs ys : list (list real))
    (alpha : real) (append : bool) :
  length (local_phase A xs ys alpha append) = length ys ∧
  ∀ d, d < length (queue A) → d < length ys →
    local_phase A xs ys alpha append !!! d
    = match mtx A !!! d with
      | Some M => mul_local (queue A !!! d) M (xs !!! d) (ys !!! d) alpha append
      | None => ys !!! d
      end.
Proof.
  unfold local_phase.
  pose (f := λ (d : nat) (yd : list real),
    match mtx A !!! d with
    | Some M => mul_local (queue A !!! d) M (xs !!! d) yd alpha append
    | None => yd
    end).
  rewrite (for_range_ext 0 (length (queue A)) _ (λ d ys, <[d := f d (ys !!! d)]> ys)).
  - destruct (for_range_update 0 (length (queue A)) f ys) as [Hl Hlk].
    split; [done|]. intros d Hd Hd'. rewrite Hlk, decide_True by lia. done.
  - intros d l Hd. unfold f. destruct (mtx A !!! d); [done|].
    symmetry. apply list_insert_id'. intros Hlt.
    by apply list_lookup_lookup_total_lt.
Qed.

(** Lines 389-403: what the received buffer of a device holds and what
    becomes of its part of [y]. *)
Lemma remote_phase_spec (A : SpMat real) (rx1 : list real) (alpha : real)
    (exc1 : list (exdata real)) (ys1 : list (list real)) :
  length exc1 = length (queue A) → length ys1 = length (queue A) →
  (∀ d, d < length (queue A) →
     length (vals_to_recv (exc1 !!! d)) = length (cols_to_recv (exc1 !!! d)) ∧
     length (ex_rx (exc1 !!! d)) = length (cols_to_recv (exc1 !!! d)) ∧
     (cols_to_recv (exc1 !!! d) ≠ [] → is_Some (mtx A !!! d))) →
  ∃ exc2 ys2,
    remote_phase A rx1 alpha (exc1, ys1) = Some (exc2, ys2) ∧
    length exc2 = length (queue A) ∧ length ys2 = length (queue A) ∧
    ∀ d, d < length (queue A) →
      same_plan (exc1 !!! d) (exc2 !!! d) ∧
      (cols_to_recv (exc1 !!! d) = [] → ys2 !!! d = ys1 !!! d) ∧
      (cols_to_recv (exc1 !!! d) ≠ [] →
       ∃ M xr, mtx A !!! d = Some M ∧
         (∀ t, t < length (cols_to_recv (exc1 !!! d)) →
               xr !!! t = rx1 !!! (cols_to_recv (exc1 !!! d) !!! t)) ∧
         ys2 !!! d
         = (mul_remote (queue A !!! d) M xr (ys1 !!! d) alpha [Event2 d]).1).
Proof.
  intros Hl1 Hly Hexc. unfold remote_phase.
  set (D := length (queue A)) in *.
  pose (Q := λ (d : nat) (exc2 : list (exdata real)) (ys2 : list (list real)),
    same_plan (exc1 !!! d) (exc2 !!! d) ∧
    (cols_to_recv (exc1 !!! d) = [] → ys2 !!! d = ys1 !!! d) ∧
    (cols_to_recv (exc1 !!! d) ≠ [] →
     ∃ M xr, mtx A !!! d = Some M ∧
       (∀ t, t < length (cols_to_recv (exc1 !!! d)) →
             xr !!! t = rx1 !!! (cols_to_recv (exc1 !!! d) !!! t)) ∧
       ys2 !!! d
       = (mul_remote (queue A !!! d) M xr (ys1 !!! d) alpha [Event2 d]).1)).
  pose (P := λ (k : nat) (st : option (list (exdata real) * list (list real))),
    ∃ exc2 ys2, st = Some (exc2, ys2) ∧
      length exc2 = D ∧ length ys2 = D ∧
      (∀ d, k ≤ d → exc2 !!! d = exc1 !!! d ∧ ys2 !!! d = ys1 !!! d) ∧
      (∀ d, d < k → Q d exc2 ys2)).
  match goal with |- ∃ _ _, ?loop = _ ∧ _ => assert (P D loop) as HP end.
  { apply for_range_ind; [lia| |].
    - exists exc1, ys1. do 4 (split; [done|]). intros d Hd. lia.
    - intros k st Hk (exc2 & ys2 & -> & Hle & Hly2 & Hlater & Hdone). simpl.
      destruct (Hlater k ltac:(lia)) as [Hek Hyk].
      destruct (Hexc k ltac:(lia)) as (Hlv & Hlrx & Hmtx).
      rewrite Hek.
      destruct (length (cols_to_recv (exc1 !!! k)) =? 0) eqn:E.
      + apply Nat.eqb_eq, nil_length_inv in E.
        exists exc2, ys2. do 3 (split; [done|]).
        split; [intros d Hd; apply Hlater; lia|].
        intros d Hd. destruct (decide (d = k)) as [->|]; [|apply Hdone; lia].
        unfold Q. rewrite Hek, Hyk. split; [apply same_plan_refl|]. split; [done|].
        intros Hne. by destruct Hne.
      + apply Nat.eqb_neq in E.
        assert (cols_to_recv (exc1 !!! k) ≠ []) as Hne by (by intros Heq; rewrite Heq in E).
        destruct (Hmtx Hne) as [M HM]. rewrite HM. simpl.
        set (e := exc1 !!! k) in *.
        destruct (redistribute_spec rx1 (cols_to_recv e) (vals_to_recv e)) as [Hrl Hrk].
        set (v := redistribute rx1 (cols_to_recv e) (vals_to_recv e)) in *.
        destruct (copy_into_spec (ex_rx e) 0 v (length v)) as [Hcl Hck].
        set (xr := copy_into (ex_rx e) 0 v (length v)) in *.
        eexists; eexists. split; [done|]. rewrite !length_insert.
        do 2 (split; [done|]). split.
        * intros d Hd. rewrite !list_lookup_total_insert_ne by lia.
          apply Hlater. lia.
        * intros d Hd. destruct (decide (d = k)) as [->|Hdk].
          -- unfold Q. rewrite !list_lookup_total_insert_eq by lia. fold e.
             split.
             { unfold same_plan, with_recv. simpl. repeat split; try done; lia. }
             split; [done|]. intros _. exists M, xr. split; [done|].
             split; [|by rewrite Hyk].
             intros t Ht. rewrite Hck, decide_True by lia.
             rewrite Nat.sub_0_r, Hrk, decide_True by lia. done.
          -- destruct (Hdone d ltac:(lia)) as (Hs & Hn & He).
             unfold Q. rewrite !list_lookup_total_insert_ne by lia. done. }
  destruct HP as (exc2 & ys2 & -> & Hle & Hly2 & _ & Hdone).
  exists exc2, ys2. do 3 (split; [done|]). intros d Hd. by apply Hdone.
Qed.

Lemma same_plan_trans (e1 e2 e3 : exdata real) :
  same_plan e1 e2 → same_plan e2 e3 → same_plan e1 e3.
Proof.
  intros (? & ? & ? & ? & ?) (? & ? & ? & ? & ?).
  repeat split; congruence.
Qed.

Lemma list_eq_total {B : Type} `{Inhabited B} (l1 l2 : list B) :
  length l1 = length l2 → (∀ i, i < length l1 → l1 !!! i = l2 !!! i) → l1 = l2.
Proof.
  intros Hlen Hlk. apply list_eq. intros i.
  destruct (decide (i < length l1)) as [Hlt|Hge].
  - rewrite (list_lookup_lookup_total_lt l1 i), (list_lookup_lookup_total_lt l2 i) by lia.
    f_equal. by apply Hlk.
  - by rewrite !lookup_ge_None_2 by lia.
Qed.

(** Every column of a row of device [d] outside its column range is in
    the ghost set that [setup_exchange] returns for the device. *)
Lemma ghost_coverage (d i j : nat) :
  d < length q →
  part !!! d ≤ i < part !!! (d + 1) → row !!! i ≤ j < row !!! (i + 1) →
  outside (xpart !!! d) (xpart !!! (d + 1)) (col !!! j) →
  col !!! j ∈ x_remote_cols (setup_exchange (real:=real) (length q) part xpart row col) !!! d.
Proof.
  intros Hd Hi Hj Hout.
  destruct (decide (2 ≤ length q)) as [HD|HD].
  - apply ghost_set_of_setup_exchange; [done..|]. by exists i, j.
  - exfalso. assert (d = 0) as -> by lia.
    assert (length q = 1) as HD1 by lia.
    apply Hout. rewrite (p_first _ _ _ Hxpart).
    replace (0 + 1) with (length q) by lia. rewrite (p_last _ _ _ Hxpart).
    split; [lia|]. apply (col_bound _ _ _ _ _ Hcsr).
    assert (part !!! (0 + 1) ≤ nr) by (eapply partition_bound; [done|lia]).
    assert (row !!! (i + 1) ≤ row !!! nr) by (eapply csr_row_le; [done|lia..]).
    lia.
Qed.

(** The block of device [d] of a constructed matrix. *)
Lemma built_block (A : SpMat real) (d : nat) :
  built q part xpart row col val A →
  fast_path_sound (length q) part xpart → d < length q →
  (part !!! (d + 1) ≤ part !!! d → mtx A !!! d = None) ∧
  (part !!! d < part !!! (d + 1) →
   ∃ M, mtx A !!! d = Some M ∧
     n M = part !!! (d + 1) - part !!! d ∧
     has_rem M = negb (bool_decide
       (x_remote_cols (setup_exchange (real:=real) (length q) part xpart row col) !!! d = ∅)) ∧
     ∀ r, r < n M →
       (if has_loc M
        then ∀ x, row_sum (loc M) x r
                  = dot x (local_entries (xpart !!! d) (xpart !!! (d + 1)) row col val
                             (part !!! d + r))
        else local_entries (xpart !!! d) (xpart !!! (d + 1)) row col val
               (part !!! d + r) = []) ∧
       (if has_rem M
        then ∀ x, row_sum (rem M) x r
                  = dot x (remote_entries (xpart !!! d) (xpart !!! (d + 1)) row col val
                             (build_r2l (x_remote_cols
                                (setup_exchange (real:=real) (length q) part xpart row col) !!! d))
                             (part !!! d + r))
        else remote_entries (xpart !!! d) (xpart !!! (d + 1)) row col val
               (build_r2l (x_remote_cols
                  (setup_exchange (real:=real) (length q) part xpart row col) !!! d))
               (part !!! d + r) = [])).
Proof.
  intros HA Hfast Hd.
  pose proof (built_mtx _ _ _ _ _ _ _ HA) as Hm.
  apply mapM_Some_1 in Hm.
  destruct (Forall2_lookup_l _ _ _ d d Hm) as (b & Hb & Hnew);
    [by apply lookup_seq_lt|].
  apply list_lookup_total_correct in Hb. rewrite Hb.
  unfold new_block in Hnew.
  set (rc := x_remote_cols (setup_exchange (real:=real) (length q) part xpart row col) !!! d) in *.
  destruct (part !!! d <? part !!! (d + 1)) eqn:E.
  - apply Nat.ltb_lt in E. split; [lia|]. intros _.
    destruct (SpMatCSR_new_spec nr nc (part !!! d) (part !!! (d + 1))
                (xpart !!! d) (xpart !!! (d + 1)) row col val rc Hcsr)
      as (M & HM & Hn & Hrem & Hrows).
    + lia.
    + eapply partition_bound; [done|lia].
    + intros i j Hi Hj Hout. by apply (ghost_coverage d i j).
    + intros Hbeg _. by apply Hfast.
    + rewrite HM in Hnew. simpl in Hnew. injection Hnew as <-.
      exists M. split; [done|]. split; [done|]. split; [done|].
      intros r Hr. apply Hrows. lia.
  - apply Nat.ltb_ge in E. injection Hnew as <-. split; [done|]. lia.
Qed.

Lemma length_vpart_part (v : list real) (d : nat) :
  length v = nr → d < length q →
  length (vpart part v d) = part !!! (d + 1) - part !!! d.
Proof.
  intros Hv Hd. unfold vpart. rewrite length_take, length_drop, Hv.
  assert (part !!! (d + 1) ≤ nr) by (eapply partition_bound; [done|lia]).
  lia.
Qed.

Lemma lookup_ref_mul (x y : list real) (alpha : real) (append : bool) (i : nat) :
  i < nr →
  ref_mul nr row col val x y alpha append !!! i
  = if append then radd (y !!! i) (rmul alpha (ref_row row col val x i))
    else rmul alpha (ref_row row col val x i).
Proof.
  intros Hi. unfold ref_mul.
  rewrite (list_lookup_total_fmap _ (seq 0 nr) i) by (by rewrite length_seq).
  by rewrite lookup_total_seq_lt.
Qed.

Lemma length_ref_mul (x y : list real) (alpha : real) (append : bool) :
  length (ref_mul nr row col val x y alpha append) = nr.
Proof. unfold ref_mul. by rewrite length_fmap, length_seq. Qed.

(** Device [d]: the local kernel on its part of [x], then the remote kernel
    on a buffer [xr] that holds the ghost values in the order of the ghost
    set, leave the device's part of the reference result. *)
Lemma device_mul_correct (A : SpMat real) (d : nat) (M : SpMatCSR real)
    (x y xr : list real) (alpha : real) (append : bool) (ev : list event) :
  built q part xpart row col val A →
  fast_path_sound (length q) part xpart → d < length q →
  length y = nr →
  mtx A !!! d = Some M →
  (∀ t, t < size (x_remote_cols
                    (setup_exchange (real:=real) (length q) part xpart row col) !!! d) →
     xr !!! t = x !!! (set_elements (x_remote_cols
                    (setup_exchange (real:=real) (length q) part xpart row col) !!! d) !!! t)) →
  (mul_remote (q !!! d) M xr
     (mul_local (q !!! d) M (vpart xpart x d) (vpart part y d) alpha append)
     alpha ev).1
  = vpart part (ref_mul nr row col val x y alpha append) d.
Proof.
  intros HA Hfast Hd Hy HM Hxr.
  set (rc := x_remote_cols (setup_exchange (real:=real) (length q) part xpart row col) !!! d) in *.
  destruct (built_block A d HA Hfast Hd) as [Hnone Hsome].
  destruct (decide (part !!! d < part !!! (d + 1))) as [Hrows|Hnorows];
    [|rewrite Hnone in HM by lia; done].
  destruct (Hsome Hrows) as (M' & HM' & Hn & Hrem & Hblock).
  rewrite HM in HM'. injection HM' as <-. fold rc in Hrem, Hblock.
  assert (part !!! (d + 1) ≤ nr) as Hend by (eapply partition_bound; [done|lia]).
  destruct (block_mul_correct (q !!! d) M (vpart xpart x d) xr (vpart part y d)
              alpha append ev
              (λ r, local_entries (xpart !!! d) (xpart !!! (d + 1)) row col val
                      (part !!! d + r))
              (λ r, remote_entries (xpart !!! d) (xpart !!! (d + 1)) row col val
                      (build_r2l rc) (part !!! d + r))
              (λ r, ref_row row col val x (part !!! d + r)))
    as [Hlen Hval].
  - destruct (Hdev d Hd) as [? ?]. unfold spmv_gsize. by apply Nat.mul_pos_pos.
  - rewrite length_vpart_part by done. lia.
  - done.
  - intros r Hr. apply local_plus_remote.
    + intros c Hc. by apply vpart_lookup.
    + intros j Hj%elem_of_row_range Hout.
      assert (col !!! j ∈ rc) as Hin
        by (apply (ghost_coverage d (part !!! d + r) j); [done|lia|done..]).
      destruct (build_r2l_spec rc) as (_ & _ & Hinv & Hdom).
      apply Hdom in Hin as [k Hk]. exists k. split; [done|].
      destruct (Hinv _ _ Hk) as [Hlt Heq]. by rewrite Hxr, Heq.
  - apply list_eq_total.
    + rewrite Hlen, length_vpart_part; [lia| |done]. apply length_ref_mul.
    + intros r Hr. rewrite Hlen in Hr. rewrite (Hval r Hr).
      unfold vpart at 2. rewrite lookup_total_take_lt, lookup_total_drop by lia.
      rewrite lookup_ref_mul by lia.
      unfold vpart. rewrite lookup_total_take_lt, lookup_total_drop by lia. done.
Qed.

(** The receive side of the plan of device [d], whatever the number of
    devices. *)
Lemma recv_facts (d : nat) :
  d < length q →
  let ex := setup_exchange (real:=real) (length q) part xpart row col in
  let rc := x_remote_cols ex !!! d in
  let cts := send_list (x_remote_cols ex) in
  length (cols_to_recv (x_exc ex !!! d)) = size rc ∧
  length (vals_to_recv (x_exc ex !!! d)) = size rc ∧
  length (ex_rx (x_exc ex !!! d)) = size rc ∧
  (0 < size rc → part !!! d < part !!! (d + 1)) ∧
  ∀ t, t < size rc →
    cols_to_recv (x_exc ex !!! d) !!! t < length cts ∧
    cts !!! (cols_to_recv (x_exc ex !!! d) !!! t) = set_elements rc !!! t.
Proof.
  intros Hd ex rc cts.
  destruct (decide (0 < size rc)) as [Hpos|Hz].
  - destruct (setup_exchange_recv (real:=real) (length q) part xpart row col d Hd Hpos)
      as (HD & Hrecv & Hlv & Hlrx & _).
    fold ex rc cts in Hrecv, Hlv, Hlrx.
    destruct (recv_positions_spec cts rc) as [Hlen Hlk].
    { apply increasing_send_list. }
    { intros c Hc. apply (ghost_subset_send_list _ d); [|done].
      unfold ex. by rewrite setup_exchange_remote_cols, length_ghost_sets. }
    rewrite Hrecv. do 3 (split; [done|]). split; [|done].
    intros _. destruct (size_pos_elem_of _ Hpos) as [c Hc].
    unfold rc, ex in Hc.
    rewrite setup_exchange_remote_cols, lookup_ghost_sets in Hc by done.
    apply elem_of_ghost_set in Hc as (i & j & Hi & _). lia.
  - destruct (setup_exchange_recv_empty (real:=real) (length q) part xpart row col d Hd)
      as (E1 & E2 & E3); [fold ex rc; lia|].
    fold ex in E1, E2, E3. rewrite E1, E2, E3.
    simpl. do 3 (split; [lia|]). split; intros; lia.
Qed.

Lemma no_exchange_ghosts (A : SpMat real) (d : nat) :
  built q part xpart row col val A → length (rx A) = 0 → d < length q →
  x_remote_cols (setup_exchange (real:=real) (length q) part xpart row col) !!! d = ∅.
Proof.
  intros HA Hrx Hd.
  rewrite (built_rx _ _ _ _ _ _ _ HA), setup_exchange_rx in Hrx.
  destruct (decide (2 ≤ length q)) as [HD|HD].
  - rewrite setup_exchange_remote_cols by done.
    apply send_list_nil; [done|]. by rewrite length_ghost_sets.
  - rewrite setup_exchange_single by lia. simpl.
    by rewrite lookup_total_replicate_2.
Qed.

(** A device without ghost columns: its part of [y] after the local kernel
    is its part of the reference result. *)
Lemma local_only_correct (A : SpMat real) (d : nat) (x y : list real)
    (alpha : real) (append : bool) :
  built q part xpart row col val A →
  fast_path_sound (length q) part xpart → d < length q → length y = nr →
  x_remote_cols (setup_exchange (real:=real) (length q) part xpart row col) !!! d = ∅ →
  match mtx A !!! d with
  | Some M => mul_local (q !!! d) M (vpart xpart x d) (vpart part y d) alpha append
  | None => vpart part y d
  end = vpart part (ref_mul nr row col val x y alpha append) d.
Proof.
  intros HA Hfast Hd Hy Hrc.
  destruct (built_block A d HA Hfast Hd) as [Hnone Hsome].
  destruct (decide (part !!! d < part !!! (d + 1))) as [Hrows|Hnorows].
  - destruct (Hsome Hrows) as (M & HM & _ & Hrem & _). rewrite HM.
    rewrite Hrc, bool_decide_eq_true_2 in Hrem by done. simpl in Hrem.
    rewrite <-(device_mul_correct A d M x y [] alpha append [] HA Hfast Hd Hy HM).
    + unfold mul_remote. by rewrite Hrem.
    + intros t Ht. rewrite Hrc, size_empty in Ht. lia.
  - rewrite Hnone by lia.
    assert (length (vpart part y d) = 0) as Hl1
      by (rewrite length_vpart_part by done; lia).
    assert (length (vpart part (ref_mul nr row col val x y alpha append) d) = 0) as Hl2.
    { rewrite length_vpart_part; [lia| |done]. apply length_ref_mul. }
    apply nil_length_inv in Hl1, Hl2. by rewrite Hl1, Hl2.
Qed.

(** [mul] on a constructed matrix, for well-formed input and partitions
    that do not send a device with a non-zero column offset into the fast
    path of the block constructor: the call returns, the matrix stays a
    constructed matrix (so the next call is covered as well), and [y] is the
    reference result [alpha A x], or [y + alpha A x] with [append]. *)
Theorem mul_correct (A : SpMat real) (x y : list real) (alpha : real)
    (append : bool) :
  built q part xpart row col val A →
  fast_path_sound (length q) part xpart → length y = nr →
  ∃ A' ys',
    mul A (vparts (length q) xpart x) (vparts (length q) part y) alpha append
    = Some (A', ys') ∧
    built q part xpart row col val A' ∧
    ys' = vparts (length q) part (ref_mul nr row col val x y alpha append).
Proof.
  intros HA Hfast Hy.
  pose proof (built_queue _ _ _ _ _ _ _ HA) as Hq.
  set (xs := vparts (length q) xpart x).
  set (ys := vparts (length q) part y).
  set (ex := setup_exchange (real:=real) (length q) part xpart row col).
  destruct (local_phase_spec A xs ys alpha append) as [Hl1 Hlk1].
  rewrite Hq in Hlk1.
  replace (length ys) with (length q) in Hl1 by (unfold ys; by rewrite length_vparts).
  assert (∀ d, d < length q →
    local_phase A xs ys alpha append !!! d
    = match mtx A !!! d with
      | Some M => mul_local (q !!! d) M (vpart xpart x d) (vpart part y d) alpha append
      | None => vpart part y d
      end) as Hloc.
  { intros d Hd. rewrite Hlk1 by (unfold ys; rewrite ?length_vparts; lia).
    unfold xs, ys. by rewrite !lookup_vparts. }
  clear Hlk1. unfold mul.
  destruct (length (rx A) =? 0) eqn:Erx.
  - apply Nat.eqb_eq in Erx.
    exists A, (local_phase A xs ys alpha append).
    split; [done|]. split; [done|].
    apply list_eq_total; [by rewrite Hl1, length_vparts|].
    intros d Hd. rewrite Hl1 in Hd. rewrite Hloc, lookup_vparts by done.
    apply local_only_correct; try done. by apply (no_exchange_ghosts A).
  - apply Nat.eqb_neq in Erx.
    pose proof (built_rx _ _ _ _ _ _ _ HA) as Hrxlen.
    rewrite setup_exchange_rx in Hrxlen.
    destruct (decide (2 ≤ length q)) as [HD|]; [|lia].
    destruct (gather_phase_spec A x HA HD ltac:(lia)) as (Hg2 & Hgk & Hg1 & Hgsame).
    fold xs ex in Hg2, Hgk, Hg1, Hgsame.
    destruct (gather_phase A xs) as [exc1 rx1]. simpl in Hg2, Hgk, Hg1, Hgsame.
    assert (∀ d, d < length q →
      cols_to_recv (exc1 !!! d) = cols_to_recv (x_exc ex !!! d) ∧
      length (cols_to_recv (exc1 !!! d)) = size (x_remote_cols ex !!! d) ∧
      length (vals_to_recv (exc1 !!! d)) = size (x_remote_cols ex !!! d) ∧
      length (ex_rx (exc1 !!! d)) = size (x_remote_cols ex !!! d)) as Hrecv.
    { intros d Hd. destruct (Hgsame d Hd) as (Hcr & _ & Hlv & _ & Hlx).
      destruct (recv_facts d Hd) as (Hr1 & Hr2 & Hr3 & _). fold ex in Hr1, Hr2, Hr3.
      rewrite Hcr. split; [done|]. split; [done|]. split; lia. }
    destruct (remote_phase_spec A rx1 alpha exc1 (local_phase A xs ys alpha append))
      as (exc2 & ys2 & Hrem & Hle2 & Hly2 & Hdev2).
    { by rewrite Hq. }
    { by rewrite Hq. }
    { rewrite Hq. intros d Hd. destruct (Hrecv d Hd) as (_ & Hc & Hv & Hx).
      split; [lia|]. split; [lia|]. intros Hne.
      destruct (recv_facts d Hd) as (_ & _ & _ & Hrows & _). fold ex in Hrows.
      assert (0 < size (x_remote_cols ex !!! d)) as Hpos.
      { destruct (cols_to_recv (exc1 !!! d)); [done|]. simpl in Hc. lia. }
      destruct (built_block A d HA Hfast Hd) as [_ Hsome].
      destruct (Hsome (Hrows Hpos)) as (M & -> & _). by eexists. }
    rewrite Hq in Hle2, Hly2, Hdev2. rewrite Hrem. simpl.
    eexists; eexists. split; [done|]. split.
    { split; simpl; try apply HA; try done.
      - rewrite Hg2, setup_exchange_rx, decide_True by done. done.
      - intros d Hd. destruct (Hdev2 d Hd) as (Hs & _).
        eapply same_plan_trans; [|exact Hs]. by apply Hgsame. }
    apply list_eq_total; [by rewrite Hly2, length_vparts|].
    intros d Hd. rewrite Hly2 in Hd. rewrite lookup_vparts by done.
    destruct (Hdev2 d Hd) as (_ & Hnil & Hnonnil).
    destruct (Hrecv d Hd) as (Hcr & Hc & _).
    destruct (decide (cols_to_recv (exc1 !!! d) = [])) as [Hempty|Hne].
    + rewrite (Hnil Hempty), Hloc by done.
      apply local_only_correct; try done.
      rewrite Hempty in Hc. simpl in Hc.
      apply leibniz_equiv, size_empty_iff. by fold ex.
    + destruct (Hnonnil Hne) as (M & xr & HM & Hxr & ->).
      rewrite Hloc, HM by done.
      apply (device_mul_correct A d M x y xr alpha append [Event2 d] HA Hfast Hd Hy HM).
      fold ex. intros t Ht.
      destruct (recv_facts d Hd) as (_ & _ & _ & _ & Hpos). fold ex in Hpos.
      destruct (Hpos t Ht) as [Hlt Heq].
      assert (ghost_sets (length q) part xpart row col = x_remote_cols ex) as Hrcs
        by (unfold ex; by rewrite setup_exchange_remote_cols).
      rewrite Hrcs in Hgk.
      rewrite Hxr by lia. rewrite Hcr, Hgk by done. by rewrite Heq.
Qed.

End driver.

(** ** From construction to the product *)

Lemma length_setup_exchange_exc {real : Type} `{RealOps real} (D : nat)
    (part xpart row col : list nat) :
  length (x_exc (setup_exchange (real:=real) D part xpart row col)) = D.
Proof.
  destruct (decide (2 ≤ D)) as [HD|HD]; cycle 1.
  { rewrite setup_exchange_single by lia. simpl. by rewrite length_replicate. }
  set (rcs := ghost_sets D part xpart row col).
  destruct (decide (0 < length (send_list rcs))) as [Hpos|Hz]; cycle 1.
  { unfold setup_exchange. destruct (D <=? 1) eqn:E; [apply Nat.leb_le in E; lia|].
    fold rcs. cbv zeta. destruct (length (send_list rcs) =? 0) eqn:E0.
    - simpl. by rewrite length_replicate.
    - apply Nat.eqb_neq in E0. lia. }
  rewrite setup_exchange_unfold by done. fold rcs. simpl.
  destruct (plan_recv_spec (real:=real) D rcs (send_list rcs)
              (replicate D exdata_empty)) as [Hl1 _]; [by rewrite length_replicate|].
  by destruct (plan_send_spec D (build_cidx D xpart (send_list rcs)) xpart
                 (send_list rcs) _
                 (build_cidx_spec _ _ _ (increasing_send_list _)) Hl1) as [-> _].
Qed.

Lemma SpMat_new_built {real : Type} `{RealOps real} (q : list device)
    (part xpart : list nat) (nr nc : nat) (row col : list nat) (val : list real)
    (A : SpMat real) :
  SpMat_new q part xpart nr nc row col val = Some A →
  built q part xpart row col val A.
Proof.
  unfold SpMat_new. intros HA.
  destruct (mapM _ _) as [blocks|] eqn:Hb; [|done].
  simpl in HA. injection HA as <-.
  split; simpl; try done. apply length_setup_exchange_exc.
Qed.

#[global] Instance Z_RealLaws : RealLaws Z.
Proof. split; intros; simpl; lia. Qed.

Lemma ex_fast_path_sound : fast_path_sound 2 ex_part ex_part.
Proof. intros d _ Hd _. exact Hd. Qed.

Lemma ex_dev_ok (d : nat) :
  d < length ex_queue →
  0 < wgsize (ex_queue !!! d) ∧ 0 < num_workgroups (ex_queue !!! d).
Proof. revert d. below 2. Qed.

Lemma partition_ok_single (N : nat) : partition_ok 1 N [0; N].
Proof.
  split; [done..|]. intros d Hd. assert (d = 0) as -> by lia. simpl. lia.
Qed.

(** ** The fast path of the block constructor (lines 503-525)

    The constructor skips the renumbering pass when [beg == 0] and the ghost
    set is empty, and uploads [row], [col] and [val] as they are.  That is
    the renumbering with [xbeg = 0]; a device whose rows start at 0 and
    whose columns start above 0 (the devices before it have no row, but
    have columns) gets a local block with global column numbers. *)

Lemma bug_part_ok : partition_ok 2 3 bug_part.
Proof. split; [done..|below 2]. Qed.

Lemma bug_xpart_ok : partition_ok 2 64 bug_xpart.
Proof. split; [done..|below 2]. Qed.

Lemma bug_csr_ok : csr_ok 3 64 bug_row bug_col bug_val.
Proof. split; [done|below 3|done|done|below 1]. Qed.

(** C2, at the input [bug_part], [bug_xpart]: device 1 owns the rows
    [[0, 3)] and the columns [[16, 64)], its ghost set is empty, so its block
    is built by the fast path, which uploads the global column 16: row 0 of
    the local block is [(16, 1)] where the renumbering [col - xbeg] gives
    [(0, 1)]. *)
Theorem fast_path_keeps_global_columns :
  ghost_set bug_part bug_xpart bug_row bug_col 1 = ∅ ∧
  ∃ A : SpMatCSR Z,
    SpMatCSR_new (bug_part !!! 1) (bug_part !!! 2) (bug_xpart !!! 1) (bug_xpart !!! 2)
      bug_row bug_col bug_val ∅ = Some A ∧
    has_loc A = true ∧
    block_row (loc A) 0 = [(16, 1%Z)] ∧
    local_entries (bug_xpart !!! 1) (bug_xpart !!! 2) bug_row bug_col bug_val 0
    = [(0, 1%Z)].
Proof.
  split; [by vm_compute|].
  eexists. split; [vm_compute; reflexivity|]. by vm_compute.
Qed.

(** C1, at the same input, with [x[i] = i], [alpha = 1] and [append] unset:
    the input is well formed, [mul] returns and leaves [y = (32, 0, 0)]
    where the reference gives [alpha A x = (16, 0, 0)].  The input is
    outside [fast_path_sound], the hypothesis of [SpMat_mul_correct] on the
    two partitions that the claim does not make. *)
Theorem mul_wrong_after_fast_path :
  partition_ok 2 3 bug_part ∧ partition_ok 2 64 bug_xpart ∧
  csr_ok 3 64 bug_row bug_col bug_val ∧
  ¬ fast_path_sound 2 bug_part bug_xpart ∧
  ∃ A A' : SpMat Z,
    SpMat_new bug_queue bug_part bug_xpart 3 64 bug_row bug_col bug_val = Some A ∧
    mul A (vparts 2 bug_xpart bug_x) (vparts 2 bug_part [0; 0; 0]%Z) 1%Z false
    = Some (A', [[]; [32; 0; 0]%Z]) ∧
    (λ i, rmul 1%Z (ref_row bug_row bug_col bug_val bug_x i)) <$> seq 0 3
    = [16; 0; 0]%Z.
Proof.
  split; [exact bug_part_ok|]. split; [exact bug_xpart_ok|].
  split; [exact bug_csr_ok|]. split.
  { intros Hs. specialize (Hs 1). vm_compute in Hs.
    specialize (Hs ltac:(lia) eq_refl ltac:(lia)). lia. }
  eexists. eexists. split; [vm_compute; reflexivity|].
  split; [vm_compute; reflexivity|]. by vm_compute.
Qed.

(** C8, at the same matrix and vector: one device gives [y = (16, 0, 0)],
    the two devices give [y = (32, 0, 0)]. *)
Theorem single_device_differs_from_two :
  ∃ A1 A1' A2 A2' : SpMat Z,
    SpMat_new [Device 4 2] [0; 3] [0; 64] 3 64 bug_row bug_col bug_val = Some A1 ∧
    mul A1 (vparts 1 [0; 64] bug_x) (vparts 1 [0; 3] [0; 0; 0]%Z) 1%Z false
    = Some (A1', [[16; 0; 0]%Z]) ∧
    SpMat_new bug_queue bug_part bug_xpart 3 64 bug_row bug_col bug_val = Some A2 ∧
    mul A2 (vparts 2 bug_xpart bug_x) (vparts 2 bug_part [0; 0; 0]%Z) 1%Z false
    = Some (A2', [[]; [32; 0; 0]%Z]).
Proof.
  do 4 eexists. split; [vm_compute; reflexivity|].
  split; [vm_compute; reflexivity|].
  split; [vm_compute; reflexivity|]. vm_compute; reflexivity.
Qed.

(** * Further properties *)

(** ** The staging buffers of [mul] *)

Lemma length_gather_vals_to_send {real : Type} `{RealOps real} (G k : nat)
    (vals : list real) (cts : list nat) (vts : list real) :
  length (gather_vals_to_send G k vals cts vts) = length vts.
Proof.
  unfold gather_vals_to_send.
  apply (for_range_ind (λ _ v, length v = length vts)); [lia|done|].
  intros i v _ Hv. destruct (i <? k); [by rewrite length_insert|done].
Qed.

(** The gather phase writes staging buffers only. *)
Lemma gather_phase_plan {real : Type} `{RealOps real} (A : SpMat real)
    (xs : list (list real)) :
  length (gather_phase A xs).1 = length (exc A) ∧
  length (gather_phase A xs).2 = length (rx A) ∧
  ∀ d, same_plan (exc A !!! d) ((gather_phase A xs).1 !!! d).
Proof.
  unfold gather_phase.
  apply (for_range_ind (λ _ (st : list (exdata real) * list real),
           length st.1 = length (exc A) ∧ length st.2 = length (rx A) ∧
           ∀ d, same_plan (exc A !!! d) (st.1 !!! d))); [lia| |].
  { do 2 (split; [done|]). intros d. apply same_plan_refl. }
  intros k [exc1 rx1] _ (Hl1 & Hl2 & Hsame). simpl in *.
  destruct (cidx A !!! (k + 1) - cidx A !!! k =? 0); [done|]. simpl.
  split; [by rewrite length_insert|].
  split; [by rewrite (proj1 (copy_into_spec _ _ _ _))|].
  intros d. destruct (decide (d = k ∧ k < length exc1)) as [[-> Hk]|Hne].
  - rewrite list_lookup_total_insert_eq by done.
    eapply same_plan_trans; [apply Hsame|].
    unfold same_plan, with_vals_to_send. simpl.
    do 3 (split; [done|]). split; [|done].
    apply length_gather_vals_to_send.
  - destruct (decide (d = k)) as [->|Hdk].
    + rewrite list_insert_ge by lia. apply Hsame.
    + rewrite list_lookup_total_insert_ne by done. apply Hsame.
Qed.

(** The remote phase returns when no device with columns to receive has a
    null block; it rewrites the receive buffers of those devices. *)
Lemma remote_phase_total {real : Type} `{RealOps real} (A : SpMat real)
    (rx1 : list real) (alpha : real) (exc1 : list (exdata real))
    (ys1 : list (list real)) :
  (∀ d, d < length (queue A) → cols_to_recv (exc1 !!! d) ≠ [] →
        is_Some (mtx A !!! d)) →
  ∃ exc2 ys2,
    remote_phase A rx1 alpha (exc1, ys1) = Some (exc2, ys2) ∧
    length exc2 = length exc1 ∧ length ys2 = length ys1 ∧
    (∀ d, same_plan (exc1 !!! d) (exc2 !!! d)) ∧
    ∀ d, d < length (queue A) → d < length exc1 →
      cols_to_recv (exc1 !!! d) ≠ [] →
      ex_rx (exc2 !!! d)
      = copy_into (ex_rx (exc1 !!! d)) 0
          (redistribute rx1 (cols_to_recv (exc1 !!! d)) (vals_to_recv (exc1 !!! d)))
          (length (redistribute rx1 (cols_to_recv (exc1 !!! d))
                     (vals_to_recv (exc1 !!! d)))).
Proof.
  intros Hmtx. unfold remote_phase.
  set (D := length (queue A)) in *.
  pose (P := λ (k : nat) (st : option (list (exdata real) * list (list real))),
    ∃ exc2 ys2, st = Some (exc2, ys2) ∧
      length exc2 = length exc1 ∧ length ys2 = length ys1 ∧
      (∀ d, k ≤ d → exc2 !!! d = exc1 !!! d) ∧
      (∀ d, same_plan (exc1 !!! d) (exc2 !!! d)) ∧
      ∀ d, d < k → d < length exc1 → cols_to_recv (exc1 !!! d) ≠ [] →
        ex_rx (exc2 !!! d)
        = copy_into (ex_rx (exc1 !!! d)) 0
            (redistribute rx1 (cols_to_recv (exc1 !!! d)) (vals_to_recv (exc1 !!! d)))
            (length (redistribute rx1 (cols_to_recv (exc1 !!! d))
                       (vals_to_recv (exc1 !!! d))))).
  match goal with |- ∃ _ _, ?loop = _ ∧ _ => assert (P D loop) as HP end.
  { apply for_range_ind; [lia| |].
    - exists exc1, ys1. do 4 (split; [done|]).
      split; [intros d; apply same_plan_refl|]. intros d Hd. lia.
    - intros k st Hk (exc2 & ys2 & -> & Hle & Hly & Hlater & Hsame & Hdone). simpl.
      rewrite (Hlater k) by lia.
      destruct (length (cols_to_recv (exc1 !!! k)) =? 0) eqn:E.
      + apply Nat.eqb_eq, nil_length_inv in E.
        exists exc2, ys2. do 3 (split; [done|]).
        split; [intros d Hd; apply Hlater; lia|]. split; [done|].
        intros d Hd Hd' Hne. destruct (decide (d = k)) as [->|]; [done|].
        apply Hdone; [lia|done..].
      + apply Nat.eqb_neq in E.
        assert (cols_to_recv (exc1 !!! k) ≠ []) as Hne
          by (by intros Heq; rewrite Heq in E).
        destruct (Hmtx k ltac:(lia) Hne) as [M HM]. rewrite HM. simpl.
        set (e := exc1 !!! k) in *.
        set (v := redistribute rx1 (cols_to_recv e) (vals_to_recv e)) in *.
        eexists; eexists. split; [done|]. rewrite !length_insert.
        do 2 (split; [done|]). split; [|split].
        * intros d Hd. rewrite list_lookup_total_insert_ne by lia.
          apply Hlater. lia.
        * intros d. destruct (decide (d = k ∧ k < length exc2)) as [[-> Hk']|Hn].
          -- rewrite list_lookup_total_insert_eq by done. fold e.
             unfold same_plan, with_recv. simpl.
             do 2 (split; [done|]).
             split; [apply (proj1 (redistribute_spec _ _ _))|].
             split; [done|]. apply (proj1 (copy_into_spec _ _ _ _)).
          -- destruct (decide (d = k)) as [->|Hdk].
             ++ rewrite list_insert_ge by lia. apply Hsame.
             ++ rewrite list_lookup_total_insert_ne by done. apply Hsame.
        * intros d Hd Hd' Hned. destruct (decide (d = k)) as [->|Hdk].
          -- rewrite list_lookup_total_insert_eq by lia. done.
          -- rewrite list_lookup_total_insert_ne by done.
             apply Hdone; [lia|done..]. }
  destruct HP as (exc2 & ys2 & -> & Hle & Hly & _ & Hsame & Hdone).
  exists exc2, ys2. do 4 (split; [done|]). intros d Hd. by apply Hdone.
Qed.

Lemma built_new_block {real : Type} `{RealOps real} (q : list device)
    (part xpart row col : list nat) (val : list real) (A : SpMat real) (d : nat) :
  built q part xpart row col val A → d < length q →
  new_block part xpart row col val
    (x_remote_cols (setup_exchange (real:=real) (length q) part xpart row col)) d
  = Some (mtx A !!! d).
Proof.
  intros HA Hd.
  pose proof (built_mtx _ _ _ _ _ _ _ HA) as Hm.
  apply mapM_Some_1 in Hm.
  destruct (Forall2_lookup_l _ _ _ d d Hm) as (b & Hb & Hnew);
    [by apply lookup_seq_lt|].
  apply list_lookup_total_correct in Hb. by rewrite Hb.
Qed.

(** A device that has columns to receive has rows, hence a block. *)
Lemma built_null_safe {real : Type} `{RealOps real} (q : list device)
    (part xpart row col : list nat) (val : list real) (A : SpMat real) (d : nat) :
  built q part xpart row col val A → d < length q →
  cols_to_recv (exc A !!! d) ≠ [] → is_Some (mtx A !!! d).
Proof.
  intros HA Hd Hne.
  destruct (built_exc _ _ _ _ _ _ _ HA d Hd) as (Hcr & _).
  rewrite Hcr in Hne.
  set (ex := setup_exchange (real:=real) (length q) part xpart row col) in *.
  assert (0 < size (x_remote_cols ex !!! d)) as Hpos.
  { destruct (decide (0 < size (x_remote_cols ex !!! d))) as [|Hz]; [done|].
    destruct (setup_exchange_recv_empty (real:=real) (length q) part xpart row col d Hd)
      as (E1 & _); [fold ex; lia|]. by fold ex in E1. }
  destruct (setup_exchange_recv (real:=real) (length q) part xpart row col d Hd Hpos)
    as (HD & _).
  destruct (size_pos_elem_of _ Hpos) as [c Hc]. unfold ex in Hc.
  rewrite setup_exchange_remote_cols, lookup_ghost_sets in Hc by done.
  apply elem_of_ghost_set in Hc as (i & j & Hi & _).
  pose proof (built_new_block q part xpart row col val A d HA Hd) as Hnew.
  unfold new_block in Hnew.
  destruct (part !!! d <? part !!! (d + 1)) eqn:E;
    [|apply Nat.ltb_ge in E; lia].
  destruct (SpMatCSR_new _ _ _ _ _ _ _ _) as [M|]; [|done].
  simpl in Hnew. injection Hnew as <-. by eexists.
Qed.

Lemma mul_returns {real : Type} `{RealOps real} (q : list device)
    (part xpart row col : list nat) (val : list real) (A : SpMat real)
    (xs ys : list (list real)) (alpha : real) (append : bool) :
  built q part xpart row col val A →
  ∃ A' ys',
    mul A xs ys alpha append = Some (A', ys') ∧
    built q part xpart row col val A' ∧ length ys' = length ys ∧
    (length (rx A) = 0 → A' = A) ∧
    (length (rx A) ≠ 0 →
     rx A' = (gather_phase A xs).2 ∧
     ∀ d, d < length q → cols_to_recv (exc A !!! d) ≠ [] →
       ex_rx (exc A' !!! d)
       = copy_into (ex_rx ((gather_phase A xs).1 !!! d)) 0
           (redistribute (gather_phase A xs).2 (cols_to_recv (exc A !!! d))
              (vals_to_recv ((gather_phase A xs).1 !!! d)))
           (length (redistribute (gather_phase A xs).2 (cols_to_recv (exc A !!! d))
                      (vals_to_recv ((gather_phase A xs).1 !!! d))))).
Proof.
  intros HA. unfold mul.
  destruct (local_phase_spec A xs ys alpha append) as [Hll _].
  destruct (length (rx A) =? 0) eqn:Erx.
  { apply Nat.eqb_eq in Erx. exists A, (local_phase A xs ys alpha append).
    do 3 (split; [done|]). split; [done|]. intros Hn. by destruct Hn. }
  apply Nat.eqb_neq in Erx.
  destruct (gather_phase_plan A xs) as (Hg1 & Hg2 & Hgsame).
  destruct (gather_phase A xs) as [exc1 rx1]. simpl in *.
  pose proof (built_queue _ _ _ _ _ _ _ HA) as Hq.
  destruct (remote_phase_total A rx1 alpha exc1 (local_phase A xs ys alpha append))
    as (exc2 & ys2 & -> & Hl2 & Hly2 & Hrsame & Hrx).
  { rewrite Hq. intros d Hd Hne. apply (built_null_safe q part xpart row col val A d HA Hd).
    destruct (Hgsame d) as (Hcr & _). by rewrite <-Hcr. }
  simpl. exists (with_staging exc2 rx1 A), ys2. split; [done|]. split.
  { split; simpl; try apply HA.
    - by rewrite Hg2, (built_rx _ _ _ _ _ _ _ HA).
    - by rewrite Hl2, Hg1, (built_exc_length _ _ _ _ _ _ _ HA).
    - intros d Hd. eapply same_plan_trans; [apply (built_exc _ _ _ _ _ _ _ HA d Hd)|].
      eapply same_plan_trans; [apply Hgsame|apply Hrsame]. }
  split; [lia|]. split; [done|]. intros _. split; [done|].
  intros d Hd Hne. destruct (Hgsame d) as (Hcr & _). rewrite <-Hcr.
  apply Hrx; [by rewrite Hq| |by rewrite Hcr].
  rewrite Hg1, (built_exc_length _ _ _ _ _ _ _ HA). done.
Qed.

(** ** The product without laws of the arithmetic *)

(** *** Rows of a block *)

Lemma length_block_row {real : Type} `{RealOps real} (b : csr real) (r : nat) :
  length (block_row b r) = c_row b !!! (r + 1) - c_row b !!! r.
Proof. unfold block_row, row_range. by rewrite length_fmap, length_seq. Qed.

Lemma elem_of_block_row {real : Type} `{RealOps real} (b : csr real) (r j : nat) :
  c_row b !!! r ≤ j < c_row b !!! (r + 1) →
  (c_col b !!! j, c_val b !!! j) ∈ block_row b r.
Proof.
  intros Hj. unfold block_row. apply list_elem_of_fmap.
  exists j. split; [done|]. by apply elem_of_row_range.
Qed.

(** *** Sums in storage order *)

Lemma dot_fmap_ext {real : Type} `{RealOps real} {J : Type}
    (f g : J → nat * real) (xd x : list real) (l : list J) :
  (∀ j, j ∈ l → (f j).2 = (g j).2 ∧ xd !!! (f j).1 = x !!! (g j).1) →
  dot xd (f <$> l) = dot x (g <$> l).
Proof.
  unfold dot. generalize (r0 : real).
  induction l as [|j l IH]; intros a Hl; [done|]. simpl.
  destruct (Hl j ltac:(by left)) as [-> ->].
  apply IH. intros j' Hj'. apply Hl. by right.
Qed.

(** The local block read with the device's part of [x] adds what the
    nonzeros inside the column range add with [x]. *)
Lemma dot_local_inner {real : Type} `{RealOps real} (xlo xhi : nat)
    (row col : list nat) (val xd x : list real) (i : nat) :
  (∀ c, xlo ≤ c < xhi → xd !!! (c - xlo) = x !!! c) →
  dot xd (local_entries xlo xhi row col val i)
  = dot x (inner_entries xlo xhi row col val i).
Proof.
  intros Hx. unfold local_entries, inner_entries. apply dot_fmap_ext.
  intros j [Hj _]%list_elem_of_filter. simpl. split; [done|]. by apply Hx.
Qed.

(** The remote block read with the ghost values adds what the nonzeros
    outside the column range add with [x]. *)
Lemma dot_remote_outer {real : Type} `{RealOps real} (xlo xhi : nat)
    (row col : list nat) (val xr x : list real) (r2l : gmap nat nat) (i : nat) :
  (∀ j, j ∈ row_range row i → outside xlo xhi (col !!! j) →
        ∃ k, r2l !! (col !!! j) = Some k ∧ xr !!! k = x !!! (col !!! j)) →
  dot xr (remote_entries xlo xhi row col val r2l i)
  = dot x (outer_entries xlo xhi row col val i).
Proof.
  intros Hx. unfold remote_entries, outer_entries. apply dot_fmap_ext.
  intros j [Hout Hj]%list_elem_of_filter. simpl. split; [done|].
  destruct (Hx j Hj Hout) as (k & -> & Hk). done.
Qed.

Lemma local_entries_nonempty {real : Type} `{RealOps real} (xlo xhi : nat)
    (row col : list nat) (val : list real) (i : nat) :
  local_entries xlo xhi row col val i ≠ [] →
  ∃ j, j ∈ row_range row i ∧ xlo ≤ col !!! j < xhi.
Proof.
  unfold local_entries.
  destruct (filter _ (row_range row i)) as [|j l] eqn:E; [done|]. intros _.
  assert (j ∈ filter (λ j, xlo ≤ col !!! j < xhi) (row_range row i)) as Hin
    by (rewrite E; left).
  apply list_elem_of_filter in Hin as [HP Hj]. by exists j.
Qed.

Lemma has_inner_true (part xpart row col : list nat) (d : nat) :
  has_inner part xpart row col d = true ↔
  ∃ r j, r < part !!! (d + 1) - part !!! d ∧
         j ∈ row_range row (part !!! d + r) ∧
         xpart !!! d ≤ col !!! j < xpart !!! (d + 1).
Proof.
  unfold has_inner, dev_rows. rewrite bool_decide_eq_true, Exists_exists.
  split.
  - intros (i & Hi%elem_of_seq & (j & Hj & HP)%Exists_exists).
    exists (i - part !!! d), j. split; [lia|].
    by replace (part !!! d + (i - part !!! d)) with i by lia.
  - intros (r & j & Hr & Hj & HP). exists (part !!! d + r).
    split; [apply elem_of_seq; lia|]. apply Exists_exists. by exists j.
Qed.

Lemma has_outer_true (part xpart row col : list nat) (d : nat) :
  has_outer part xpart row col d = true ↔
  ∃ i j, part !!! d ≤ i < part !!! (d + 1) ∧
         row !!! i ≤ j < row !!! (i + 1) ∧
         outside (xpart !!! d) (xpart !!! (d + 1)) (col !!! j).
Proof.
  unfold has_outer, dev_rows. rewrite bool_decide_eq_true, Exists_exists.
  split.
  - intros (i & Hi%elem_of_seq & (j & Hj%elem_of_row_range & HP)%Exists_exists).
    exists i, j. split; [lia|]. done.
  - intros (i & j & Hi & Hj & HP). exists i.
    split; [apply elem_of_seq; lia|]. apply Exists_exists. exists j.
    split; [by apply elem_of_row_range|done].
Qed.

(** *** Whether the local block is uploaded *)

Lemma concat_nonempty {A : Type} (ls : list (list A)) :
  concat ls ≠ [] → ∃ l, l ∈ ls ∧ l ≠ [].
Proof.
  induction ls as [|l ls IH]; [done|]. simpl. intros Hne.
  destruct l as [|a l].
  - destruct (IH Hne) as (l' & Hin & Hl'). exists l'. split; [by right|done].
  - exists (a :: l). split; [by left|done].
Qed.

(** The columns of the local block are those of the rows, one row after
    the other. *)
Lemma split_rows_lcol {real : Type} `{RealOps real} (beg end_ xbeg xend : nat)
    (row col : list nat) (val : list real) (rc : gset nat) (s : split real) :
  beg ≤ end_ →
  (∀ i j, beg ≤ i < end_ → row !!! i ≤ j < row !!! (i + 1) →
          outside xbeg xend (col !!! j) → col !!! j ∈ rc) →
  split_rows beg end_ xbeg xend row col val rc = Some s →
  lcol s = concat ((λ r, (local_entries xbeg xend row col val (beg + r)).*1)
                     <$> seq 0 (end_ - beg)).
Proof.
  intros Hle Hcov. unfold split_rows.
  set (EL := λ r, (local_entries xbeg xend row col val (beg + r)).*1).
  pose (P := λ (k : nat) (st : option (split real)),
    ∃ s, st = Some s ∧ lcol s = concat (EL <$> seq 0 (k - beg))).
  match goal with |- ?loop = _ → _ => assert (P end_ loop) as HP end.
  { apply (for_range_ind P beg end_); [done| |].
    - eexists. split; [done|]. by replace (beg - beg) with 0 by lia.
    - intros k st Hk (s' & -> & HL).
      rewrite split_row_spec; cycle 1.
      { intros j Hj Hout. apply build_r2l_spec. by apply (Hcov k j). }
      eexists. split; [done|]. unfold close_row. simpl.
      replace (S k - beg) with (S (k - beg)) by lia.
      rewrite seq_S, fmap_app, concat_app, <-HL. simpl.
      rewrite app_nil_r. unfold EL. by replace (beg + (k - beg)) with k by lia. }
  destruct HP as (s' & -> & HL). by intros [= <-].
Qed.

(** A block that is uploaded has a nonzero inside the column range. *)
Lemma SpMatCSR_new_has_loc {real : Type} `{RealOps real}
    (nr nc beg end_ xbeg xend : nat) (row col : list nat) (val : list real)
    (rc : gset nat) (A : SpMatCSR real) :
  csr_ok nr nc row col val → row !!! 0 = 0 → beg ≤ end_ → end_ ≤ nr →
  (∀ i j, beg ≤ i < end_ → row !!! i ≤ j < row !!! (i + 1) →
          outside xbeg xend (col !!! j) → col !!! j ∈ rc) →
  (beg = 0 → rc = ∅ → xbeg = 0) →
  SpMatCSR_new beg end_ xbeg xend row col val rc = Some A →
  has_loc A = true →
  ∃ r j, r < end_ - beg ∧ j ∈ row_range row (beg + r) ∧
         xbeg ≤ col !!! j < xend.
Proof.
  intros Hcsr Hrow0 Hle Hend Hcov Hslip. unfold SpMatCSR_new.
  destruct ((beg =? 0) && bool_decide (rc = ∅)) eqn:Efast.
  - apply andb_true_iff in Efast as [Hbeg%Nat.eqb_eq Hrc%bool_decide_eq_true].
    specialize (Hslip Hbeg Hrc). subst beg xbeg rc.
    replace (end_ - 0) with end_ in * by lia.
    intros [= <-]. simpl. intros Hnz%negb_true_iff%Nat.eqb_neq.
    destruct (steps_cover row end_ 0) as (i & Hi & Hj); [lia|].
    exists i, 0. split; [done|]. split; [by apply elem_of_row_range|].
    destruct (decide (0 ≤ col !!! 0 < xend)) as [|Hout]; [done|].
    specialize (Hcov i 0 ltac:(lia) Hj Hout). set_solver.
  - destruct (negb (reserve_fits _ _)); [done|].
    destruct (split_rows _ _ _ _ _ _ _ _) as [s|] eqn:Hs; [|done]. simpl.
    intros [= <-]. simpl. intros Hnz%negb_true_iff%Nat.eqb_neq.
    destruct (split_rows_spec beg end_ xbeg xend row col val rc Hle Hcov)
      as (s' & Hs' & HL & _).
    rewrite Hs in Hs'. injection Hs' as <-.
    destruct HL as (_ & _ & HLlast & _). rewrite HLlast in Hnz. simpl in Hnz.
    pose proof (split_rows_lcol beg end_ xbeg xend row col val rc s Hle Hcov Hs)
      as Hlcol.
    destruct (concat_nonempty
                ((λ r, (local_entries xbeg xend row col val (beg + r)).*1)
                   <$> seq 0 (end_ - beg))) as (l & Hl & Hne).
    { rewrite <-Hlcol. by destruct (lcol s). }
    apply list_elem_of_fmap in Hl as (r & -> & Hr%elem_of_seq).
    assert (local_entries xbeg xend row col val (beg + r) ≠ []) as Hne'
      by (by intros Hnil; rewrite Hnil in Hne).
    apply local_entries_nonempty in Hne' as (j & Hj & HP).
    exists r, j. split; [lia|done].
Qed.

(** The two kernels of a block, row by row, with no law of the arithmetic
    used: what is stored is the value the kernels compute, in their order. *)
Lemma block_mul_exact {real : Type} `{RealOps real} (dev : device)
    (M : SpMatCSR real) (xd xr yd : list real) (alpha : real) (append : bool)
    (ev : list event) :
  0 < spmv_gsize dev → length yd = n M →
  (mul_remote dev M xr (mul_local dev M xd yd alpha append) alpha ev).1
  = (λ r, let l := rmul alpha (row_sum (loc M) xd r) in
          let y1 := if has_loc M
                    then (if append then radd (yd !!! r) l else l)
                    else (if append then yd !!! r else r0) in
          if has_rem M then radd y1 (rmul alpha (row_sum (rem M) xr r)) else y1)
    <$> seq 0 (n M).
Proof.
  intros HG Hlen.
  assert (length (mul_local dev M xd yd alpha append) = n M) as Hl1.
  { unfold mul_local.
    destruct (has_loc M), append; simpl; rewrite ?length_replicate; try done.
    - by destruct (spmv_add_spec (spmv_gsize dev) (n M) (loc M) xd yd alpha HG) as [-> _].
    - by destruct (spmv_set_spec (spmv_gsize dev) (n M) (loc M) xd yd alpha HG) as [-> _]. }
  assert (∀ r, r < n M →
          mul_local dev M xd yd alpha append !!! r
          = if has_loc M
            then (if append then radd (yd !!! r) (rmul alpha (row_sum (loc M) xd r))
                  else rmul alpha (row_sum (loc M) xd r))
            else (if append then yd !!! r else r0)) as Hloc.
  { intros r Hr. unfold mul_local. destruct (has_loc M), append; simpl.
    - destruct (spmv_add_spec (spmv_gsize dev) (n M) (loc M) xd yd alpha HG) as [_ ->].
      rewrite decide_True by lia. done.
    - destruct (spmv_set_spec (spmv_gsize dev) (n M) (loc M) xd yd alpha HG) as [_ ->].
      rewrite decide_True by lia. done.
    - done.
    - apply lookup_total_replicate_2. lia. }
  apply list_eq_total.
  { rewrite length_fmap, length_seq. unfold mul_remote.
    destruct (has_rem M); simpl; [|done].
    by destruct (spmv_add_spec (spmv_gsize dev) (n M) (rem M) xr
                   (mul_local dev M xd yd alpha append) alpha HG) as [-> _]. }
  intros r Hr.
  assert (r < n M) as Hr'.
  { revert Hr. unfold mul_remote. destruct (has_rem M); simpl; [|lia].
    destruct (spmv_add_spec (spmv_gsize dev) (n M) (rem M) xr
                (mul_local dev M xd yd alpha append) alpha HG) as [-> _]. lia. }
  rewrite (list_lookup_total_fmap _ (seq 0 (n M)) r) by (by rewrite length_seq).
  rewrite lookup_total_seq_lt by done. simpl.
  unfold mul_remote. destruct (has_rem M); simpl.
  - destruct (spmv_add_spec (spmv_gsize dev) (n M) (rem M) xr
                (mul_local dev M xd yd alpha append) alpha HG) as [_ ->].
    rewrite decide_True by lia. by rewrite Hloc.
  - by rewrite Hloc.
Qed.

Section exact.
Context {real : Type} `{RealOps real}.
Variables (q : list device) (part xpart row col : list nat) (val : list real).
Variables (nr nc : nat).
Hypothesis Hdev : ∀ d, d < length q →
  0 < wgsize (q !!! d) ∧ 0 < num_workgroups (q !!! d).
Hypothesis Hpart : partition_ok (length q) nr part.
Hypothesis Hxpart : partition_ok (length q) nc xpart.
Hypothesis Hcsr : csr_ok nr nc row col val.
Hypothesis Hrow0 : row !!! 0 = 0.
Hypothesis Hfast : fast_path_sound (length q) part xpart.

(** The remote block of a device is uploaded exactly when a row of the
    device has a nonzero outside the column range of the device. *)
Lemma built_has_rem (A : SpMat real) (d : nat) (M : SpMatCSR real) :
  built q part xpart row col val A → d < length q →
  mtx A !!! d = Some M →
  has_rem M = has_outer part xpart row col d.
Proof.
  intros HA Hd HM.
  destruct (built_block q part xpart row col val nr nc Hpart Hxpart Hcsr A d HA Hfast Hd)
    as [Hnone Hsome].
  destruct (decide (part !!! d < part !!! (d + 1))) as [Hrows|Hnorows];
    [|rewrite Hnone in HM by lia; done].
  destruct (Hsome Hrows) as (M' & HM' & _ & Hrem & _).
  rewrite HM in HM'. injection HM' as <-. rewrite Hrem.
  apply eq_true_iff_eq. rewrite negb_true_iff, bool_decide_eq_false, has_outer_true.
  split.
  - intros Hne. apply set_choose_L in Hne as [c Hc].
    destruct (decide (2 ≤ length q)) as [HD|HD].
    + rewrite setup_exchange_remote_cols, lookup_ghost_sets in Hc by done.
      apply elem_of_ghost_set in Hc as (i & j & Hi & Hj & <- & Hout).
      by exists i, j.
    + rewrite setup_exchange_single in Hc by lia. simpl in Hc.
      rewrite lookup_total_replicate_2 in Hc by done. set_solver.
  - intros (i & j & Hi & Hj & Hout) Hempty.
    pose proof (ghost_coverage q part xpart row col val nr nc Hpart Hxpart Hcsr
                  d i j Hd Hi Hj Hout) as Hin.
    rewrite Hempty in Hin. set_solver.
Qed.

(** The local block of a device is uploaded exactly when a row of the
    device has a nonzero inside the column range of the device. *)
Lemma built_has_loc (A : SpMat real) (d : nat) (M : SpMatCSR real) :
  built q part xpart row col val A → d < length q →
  mtx A !!! d = Some M →
  has_loc M = has_inner part xpart row col d.
Proof.
  intros HA Hd HM.
  destruct (built_block q part xpart row col val nr nc Hpart Hxpart Hcsr A d HA Hfast Hd)
    as [Hnone Hsome].
  destruct (decide (part !!! d < part !!! (d + 1))) as [Hrows|Hnorows];
    [|rewrite Hnone in HM by lia; done].
  destruct (Hsome Hrows) as (M' & HM' & Hn & _ & Hblock).
  rewrite HM in HM'. injection HM' as <-.
  pose proof (built_new_block q part xpart row col val A d HA Hd) as Hnew.
  unfold new_block in Hnew.
  destruct (part !!! d <? part !!! (d + 1)) eqn:E; [|apply Nat.ltb_ge in E; lia].
  rewrite HM in Hnew.
  destruct (SpMatCSR_new _ _ _ _ _ _ _ _) as [M'|] eqn:Hctor; [|done].
  simpl in Hnew. injection Hnew as ->.
  apply eq_true_iff_eq. rewrite has_inner_true. split.
  - intros Hloc.
    apply (SpMatCSR_new_has_loc nr nc (part !!! d) (part !!! (d + 1))
             (xpart !!! d) (xpart !!! (d + 1)) row col val
             (x_remote_cols (setup_exchange (real:=real) (length q) part xpart row col)
                !!! d) M); try done.
    + lia.
    + eapply partition_bound; [done|lia].
    + intros i j Hi Hj Hout.
      by apply (ghost_coverage q part xpart row col val nr nc Hpart Hxpart Hcsr d i j).
    + intros Hbeg _. by apply Hfast.
  - intros (r & j & Hr & Hj & Hin).
    destruct (Hblock r ltac:(lia)) as [Hnil _].
    destruct (has_loc M); [done|].
    assert ((col !!! j - xpart !!! d, val !!! j)
            ∈ local_entries (xpart !!! d) (xpart !!! (d + 1)) row col val
                (part !!! d + r)) as Hmem.
    { unfold local_entries. apply list_elem_of_fmap. exists j.
      split; [done|]. apply list_elem_of_filter. split; [exact Hin|exact Hj]. }
    rewrite Hnil in Hmem. by apply elem_of_nil in Hmem.
Qed.

Lemma length_mul_value (D : nat) (x y : list real) (alpha : real) (append : bool) :
  length (mul_value D part xpart row col val x y alpha append) = D.
Proof. unfold mul_value. by rewrite length_fmap, length_seq. Qed.

Lemma lookup_mul_value (D : nat) (x y : list real) (alpha : real) (append : bool)
    (d : nat) :
  d < D →
  mul_value D part xpart row col val x y alpha append !!! d
  = (λ i, mul_row_value part xpart row col val x y alpha append d i)
      <$> dev_rows part d.
Proof.
  intros Hd. unfold mul_value.
  rewrite (list_lookup_total_fmap _ (seq 0 D) d) by (by rewrite length_seq).
  by rewrite lookup_total_seq_lt.
Qed.

(** Device [d]: the local kernel on its part of [x], then the remote kernel
    on a buffer [xr] that holds the ghost values in the order of the ghost
    set, leave [mul_row_value] in every row of the device. *)
Lemma device_mul_exact (A : SpMat real) (d : nat) (M : SpMatCSR real)
    (x y xr : list real) (alpha : real) (append : bool) (ev : list event) :
  built q part xpart row col val A → d < length q → length y = nr →
  mtx A !!! d = Some M →
  (∀ t, t < size (x_remote_cols
                    (setup_exchange (real:=real) (length q) part xpart row col) !!! d) →
     xr !!! t = x !!! (set_elements (x_remote_cols
                    (setup_exchange (real:=real) (length q) part xpart row col) !!! d) !!! t)) →
  (mul_remote (q !!! d) M xr
     (mul_local (q !!! d) M (vpart xpart x d) (vpart part y d) alpha append)
     alpha ev).1
  = (λ i, mul_row_value part xpart row col val x y alpha append d i)
      <$> dev_rows part d.
Proof.
  intros HA Hd Hy HM Hxr.
  set (rc := x_remote_cols (setup_exchange (real:=real) (length q) part xpart row col) !!! d) in *.
  destruct (built_block q part xpart row col val nr nc Hpart Hxpart Hcsr A d HA Hfast Hd)
    as [Hnone Hsome].
  destruct (decide (part !!! d < part !!! (d + 1))) as [Hrows|Hnorows];
    [|rewrite Hnone in HM by lia; done].
  destruct (Hsome Hrows) as (M' & HM' & Hn & _ & Hblock).
  rewrite HM in HM'. injection HM' as <-. fold rc in Hblock.
  rewrite block_mul_exact; cycle 1.
  { destruct (Hdev d Hd) as [? ?]. unfold spmv_gsize. by apply Nat.mul_pos_pos. }
  { rewrite (length_vpart_part q part nr Hpart) by done. lia. }
  rewrite Hn. unfold dev_rows.
  apply list_eq_total; [by rewrite !length_fmap, !length_seq|].
  intros r Hr. rewrite length_fmap, length_seq in Hr.
  rewrite (list_lookup_total_fmap _ (seq 0 _) r),
    (list_lookup_total_fmap _ (seq (part !!! d) _) r) by (by rewrite length_seq).
  rewrite !lookup_total_seq_lt by done. rewrite Nat.add_0_l.
  unfold mul_row_value.
  rewrite <-(built_has_loc A d M HA Hd HM), <-(built_has_rem A d M HA Hd HM).
  destruct (Hblock r ltac:(lia)) as [HL HR].
  assert (vpart part y d !!! r = y !!! (part !!! d + r)) as ->.
  { rewrite <-(vpart_lookup part y d (part !!! d + r)) by lia.
    f_equal. lia. }
  assert (has_loc M = true →
          row_sum (loc M) (vpart xpart x d) r
          = dot x (inner_entries (xpart !!! d) (xpart !!! (d + 1)) row col val
                     (part !!! d + r))) as Hin.
  { intros E. rewrite E in HL. rewrite HL. apply dot_local_inner.
    intros c Hc. by apply vpart_lookup. }
  assert (has_rem M = true →
          row_sum (rem M) xr r
          = dot x (outer_entries (xpart !!! d) (xpart !!! (d + 1)) row col val
                     (part !!! d + r))) as Hout.
  { intros E. rewrite E in HR. rewrite HR. apply dot_remote_outer.
    intros j Hj%elem_of_row_range Ho.
    assert (col !!! j ∈ rc) as Hmem.
    { apply (ghost_coverage q part xpart row col val nr nc Hpart Hxpart Hcsr
               d (part !!! d + r) j); [done|lia|done..]. }
    destruct (build_r2l_spec rc) as (_ & _ & Hinv & Hdom).
    apply Hdom in Hmem as [k Hk]. exists k. split; [done|].
    destruct (Hinv _ _ Hk) as [Hlt Heq]. by rewrite Hxr, Heq. }
  clear HL HR.
  destruct (has_loc M), (has_rem M); cbv zeta;
    rewrite ?Hin, ?Hout by done; done.
Qed.

(** A device without ghost columns: its part of [y] after the local
    kernel. *)
Lemma local_only_exact (A : SpMat real) (d : nat) (x y : list real)
    (alpha : real) (append : bool) :
  built q part xpart row col val A → d < length q → length y = nr →
  x_remote_cols (setup_exchange (real:=real) (length q) part xpart row col) !!! d = ∅ →
  match mtx A !!! d with
  | Some M => mul_local (q !!! d) M (vpart xpart x d) (vpart part y d) alpha append
  | None => vpart part y d
  end = (λ i, mul_row_value part xpart row col val x y alpha append d i)
          <$> dev_rows part d.
Proof.
  intros HA Hd Hy Hrc.
  destruct (built_block q part xpart row col val nr nc Hpart Hxpart Hcsr A d HA Hfast Hd)
    as [Hnone Hsome].
  destruct (decide (part !!! d < part !!! (d + 1))) as [Hrows|Hnorows].
  - destruct (Hsome Hrows) as (M & HM & _ & Hrem & _). rewrite HM.
    rewrite Hrc, bool_decide_eq_true_2 in Hrem by done. simpl in Hrem.
    rewrite <-(device_mul_exact A d M x y [] alpha append [] HA Hd Hy HM).
    + unfold mul_remote. by rewrite Hrem.
    + intros t Ht. rewrite Hrc, size_empty in Ht. lia.
  - rewrite Hnone by lia.
    assert (length (vpart part y d) = 0) as Hl1
      by (rewrite (length_vpart_part q part nr Hpart) by done; lia).
    apply nil_length_inv in Hl1. rewrite Hl1. unfold dev_rows.
    by replace (part !!! (d + 1) - part !!! d) with 0 by lia.
Qed.

(** [mul] on a constructed matrix, with no law of the arithmetic used: the
    call returns, the matrix stays a constructed matrix, and every row of
    [y] holds [mul_row_value], the value the kernels compute in their
    order. *)
Lemma mul_exact (A : SpMat real) (x y : list real) (alpha : real)
    (append : bool) :
  built q part xpart row col val A → length y = nr →
  ∃ A',
    mul A (vparts (length q) xpart x) (vparts (length q) part y) alpha append
    = Some (A', mul_value (length q) part xpart row col val x y alpha append) ∧
    built q part xpart row col val A'.
Proof.
  intros HA Hy.
  pose proof (built_queue _ _ _ _ _ _ _ HA) as Hq.
  set (xs := vparts (length q) xpart x).
  set (ys := vparts (length q) part y).
  set (ex := setup_exchange (real:=real) (length q) part xpart row col).
  destruct (local_phase_spec A xs ys alpha append) as [Hl1 Hlk1].
  rewrite Hq in Hlk1.
  replace (length ys) with (length q) in Hl1 by (unfold ys; by rewrite length_vparts).
  assert (∀ d, d < length q →
    local_phase A xs ys alpha append !!! d
    = match mtx A !!! d with
      | Some M => mul_local (q !!! d) M (vpart xpart x d) (vpart part y d) alpha append
      | None => vpart part y d
      end) as Hloc.
  { intros d Hd. rewrite Hlk1 by (unfold ys; rewrite ?length_vparts; lia).
    unfold xs, ys. by rewrite !lookup_vparts. }
  clear Hlk1. unfold mul.
  destruct (length (rx A) =? 0) eqn:Erx.
  - apply Nat.eqb_eq in Erx.
    exists A. split; [|done]. do 2 f_equal.
    apply list_eq_total; [by rewrite Hl1, length_mul_value|].
    intros d Hd. rewrite Hl1 in Hd. rewrite Hloc, lookup_mul_value by done.
    apply local_only_exact; try done.
    by apply (no_exchange_ghosts q part xpart row col val A).
  - apply Nat.eqb_neq in Erx.
    pose proof (built_rx _ _ _ _ _ _ _ HA) as Hrxlen.
    rewrite setup_exchange_rx in Hrxlen.
    destruct (decide (2 ≤ length q)) as [HD|]; [|lia].
    destruct (gather_phase_spec q part xpart row col val nr nc Hdev Hpart Hxpart Hcsr
                A x HA HD ltac:(lia)) as (Hg2 & Hgk & Hg1 & Hgsame).
    fold xs ex in Hg2, Hgk, Hg1, Hgsame.
    destruct (gather_phase A xs) as [exc1 rx1]. simpl in Hg2, Hgk, Hg1, Hgsame.
    assert (∀ d, d < length q →
      cols_to_recv (exc1 !!! d) = cols_to_recv (x_exc ex !!! d) ∧
      length (cols_to_recv (exc1 !!! d)) = size (x_remote_cols ex !!! d) ∧
      length (vals_to_recv (exc1 !!! d)) = size (x_remote_cols ex !!! d) ∧
      length (ex_rx (exc1 !!! d)) = size (x_remote_cols ex !!! d)) as Hrecv.
    { intros d Hd. destruct (Hgsame d Hd) as (Hcr & _ & Hlv & _ & Hlx).
      destruct (recv_facts q part xpart row col d Hd) as (Hr1 & Hr2 & Hr3 & _).
      fold ex in Hr1, Hr2, Hr3.
      rewrite Hcr. split; [done|]. split; [done|]. split; lia. }
    destruct (remote_phase_spec A rx1 alpha exc1 (local_phase A xs ys alpha append))
      as (exc2 & ys2 & Hrem & Hle2 & Hly2 & Hdev2).
    { by rewrite Hq. }
    { by rewrite Hq. }
    { rewrite Hq. intros d Hd. destruct (Hrecv d Hd) as (_ & Hc & Hv & Hx).
      split; [lia|]. split; [lia|]. intros Hne.
      destruct (recv_facts q part xpart row col d Hd) as (_ & _ & _ & Hrows & _).
      fold ex in Hrows.
      assert (0 < size (x_remote_cols ex !!! d)) as Hpos.
      { destruct (cols_to_recv (exc1 !!! d)); [done|]. simpl in Hc. lia. }
      destruct (built_block q part xpart row col val nr nc Hpart Hxpart Hcsr A d HA Hfast Hd)
        as [_ Hsome].
      destruct (Hsome (Hrows Hpos)) as (M & -> & _). by eexists. }
    rewrite Hq in Hle2, Hly2, Hdev2. rewrite Hrem. simpl.
    assert (ys2 = mul_value (length q) part xpart row col val x y alpha append) as ->.
    { apply list_eq_total; [by rewrite Hly2, length_mul_value|].
      intros d Hd. rewrite Hly2 in Hd. rewrite lookup_mul_value by done.
      destruct (Hdev2 d Hd) as (_ & Hnil & Hnonnil).
      destruct (Hrecv d Hd) as (Hcr & Hc & _).
      destruct (decide (cols_to_recv (exc1 !!! d) = [])) as [Hempty|Hne].
      + rewrite (Hnil Hempty), Hloc by done.
        apply local_only_exact; try done.
        rewrite Hempty in Hc. simpl in Hc.
        apply leibniz_equiv, size_empty_iff. by fold ex.
      + destruct (Hnonnil Hne) as (M & xr & HM & Hxr & ->).
        rewrite Hloc, HM by done.
        apply (device_mul_exact A d M x y xr alpha append [Event2 d] HA Hd Hy HM).
        fold ex. intros t Ht.
        destruct (recv_facts q part xpart row col d Hd) as (_ & _ & _ & _ & Hpos).
        fold ex in Hpos.
        destruct (Hpos t Ht) as [Hlt Heq].
        assert (ghost_sets (length q) part xpart row col = x_remote_cols ex) as Hrcs
          by (unfold ex; by rewrite setup_exchange_remote_cols).
        rewrite Hrcs in Hgk.
        rewrite Hxr by lia. rewrite Hcr, Hgk by done. by rewrite Heq. }
    eexists. split; [done|].
    split; simpl; try apply HA; try done.
    + rewrite Hg2, setup_exchange_rx, decide_True by done. done.
    + intros d Hd. destruct (Hdev2 d Hd) as (Hs & _).
      eapply same_plan_trans; [|exact Hs]. by apply Hgsame.
Qed.

End exact.

(** *** One device *)

Lemma lookups_self {A : Type} `{Inhabited A} (l : list A) :
  (λ i, l !!! i) <$> seq 0 (length l) = l.
Proof.
  apply list_eq_total; [by rewrite length_fmap, length_seq|].
  intros i Hi. rewrite length_fmap, length_seq in Hi.
  rewrite (list_lookup_total_fmap _ (seq 0 (length l)) i) by (by rewrite length_seq).
  by rewrite lookup_total_seq_lt.
Qed.

(** With one device every nonzero is inside the column range: the rows hold
    the reference result when the matrix has a nonzero, and are not touched
    by any kernel when it has none. *)
Lemma single_device_value {real : Type} `{RealOps real} (part xpart : list nat)
    (nr nc : nat) (row col : list nat) (val x y : list real) (alpha : real)
    (append : bool) :
  partition_ok 1 nr part → partition_ok 1 nc xpart →
  csr_ok nr nc row col val → row !!! 0 = 0 → length y = nr →
  mul_value 1 part xpart row col val x y alpha append
  = [if row !!! nr =? 0 then (if append then y else replicate nr r0)
     else ref_mul nr row col val x y alpha append].
Proof.
  intros Hpart Hxpart Hcsr Hrow0 Hy.
  pose proof (p_first _ _ _ Hpart) as Hp0.
  pose proof (p_last _ _ _ Hpart) as Hp1.
  pose proof (p_first _ _ _ Hxpart) as Hx0.
  pose proof (p_last _ _ _ Hxpart) as Hx1.
  assert (∀ i j, i < nr → row !!! i ≤ j < row !!! (i + 1) → col !!! j < nc) as Hcol.
  { intros i j Hi Hj. apply (col_bound _ _ _ _ _ Hcsr).
    assert (row !!! (i + 1) ≤ row !!! nr) by (eapply csr_row_le; [done|lia..]).
    lia. }
  assert (has_outer part xpart row col 0 = false) as Hout.
  { apply not_true_iff_false. rewrite has_outer_true.
    intros (i & j & Hi & Hj & Ho). apply Ho.
    change (0 + 1) with 1 in *. rewrite Hx0, Hx1. rewrite Hp0, Hp1 in Hi.
    split; [lia|]. apply (Hcol i j); [lia|done]. }
  assert (has_inner part xpart row col 0 = negb (row !!! nr =? 0)) as Hin.
  { apply eq_true_iff_eq. rewrite has_inner_true, negb_true_iff, Nat.eqb_neq.
    change (0 + 1) with 1. rewrite Hp0, Hp1, Hx0, Hx1. split.
    - intros (r & j & Hr & Hj%elem_of_row_range & _).
      assert (row !!! (0 + r + 1) ≤ row !!! nr) by (eapply csr_row_le; [done|lia..]).
      lia.
    - intros Hnz. destruct (steps_cover row nr 0) as (i & Hi & Hj); [lia|].
      exists i, 0. split; [lia|]. split; [by apply elem_of_row_range|].
      split; [lia|]. by apply (Hcol i 0). }
  unfold mul_value. simpl. f_equal.
  unfold dev_rows. change (0 + 1) with 1. rewrite Hp0, Hp1, Nat.sub_0_r.
  destruct (row !!! nr =? 0) eqn:Enz.
  - transitivity ((λ i, if append then y !!! i else r0) <$> seq 0 nr).
    { apply list_fmap_ext. intros _ i _. unfold mul_row_value.
      rewrite Hout, Hin. done. }
    destruct append.
    + rewrite <-Hy. apply lookups_self.
    + apply list_eq_total; [by rewrite length_fmap, length_seq, length_replicate|].
      intros i Hi. rewrite length_fmap, length_seq in Hi.
      rewrite (list_lookup_total_fmap _ (seq 0 nr) i) by (by rewrite length_seq).
      by rewrite lookup_total_replicate_2.
  - unfold ref_mul. apply list_fmap_ext. intros k i [-> Hi]%lookup_seq.
    unfold mul_row_value. rewrite Hout, Hin. simpl.
    change (0 + 1) with 1. rewrite Hx0, Hx1.
    assert (inner_entries 0 nc row col val k
            = (λ j, (col !!! j, val !!! j)) <$> row_range row k) as ->.
    { unfold inner_entries. rewrite filter_all; [done|].
      intros j Hj%elem_of_row_range. split; [lia|]. by apply (Hcol k j). }
    by rewrite <-ref_row_dot.
Qed.


(** ** The buffer accesses of [mul] *)

Lemma rows_built_in_bounds {real : Type} `{RealOps real} (rp cs : list nat)
    (vs : list real) (E : nat → list (nat * real)) (m bound : nat)
    (x y : list real) :
  rows_built rp cs vs E m →
  (∀ r e, r < m → e ∈ E r → e.1 < bound) →
  bound ≤ length x → m ≤ length y →
  spmv_in_bounds m (Csr rp cs vs) x y.
Proof.
  intros (Hlen & Hvs & _ & Hrows) Hcol Hx Hy i Hi. simpl.
  split; [lia|]. split; [lia|]. intros j Hj.
  destruct (Hrows i Hi) as [Hle Hrow].
  split; [lia|]. split; [lia|].
  pose proof (elem_of_block_row (Csr rp cs vs) i j Hj) as Hin.
  rewrite Hrow in Hin. specialize (Hcol i _ Hi Hin). simpl in Hcol. lia.
Qed.

(** The two blocks that the constructor uploads are read inside their
    buffers, with an [x] of the device's number of columns for the local
    block and one of the number of ghost columns for the remote block. *)
Lemma SpMatCSR_new_in_bounds {real : Type} `{RealOps real}
    (nr nc beg end_ xbeg xend : nat) (row col : list nat) (val : list real)
    (rc : gset nat) (M : SpMatCSR real) (xd xr yd : list real) :
  csr_ok nr nc row col val → beg ≤ end_ → end_ ≤ nr →
  (∀ i j, beg ≤ i < end_ → row !!! i ≤ j < row !!! (i + 1) →
          outside xbeg xend (col !!! j) → col !!! j ∈ rc) →
  (beg = 0 → rc = ∅ → xbeg = 0) →
  SpMatCSR_new beg end_ xbeg xend row col val rc = Some M →
  xend - xbeg ≤ length xd → size rc ≤ length xr → end_ - beg ≤ length yd →
  (has_loc M = true → spmv_in_bounds (n M) (loc M) xd yd) ∧
  (has_rem M = true → spmv_in_bounds (n M) (rem M) xr yd).
Proof.
  intros Hcsr Hle Hend Hcov Hslip HM Hxd Hxr Hyd. revert HM. unfold SpMatCSR_new.
  destruct ((beg =? 0) && bool_decide (rc = ∅)) eqn:Efast.
  - apply andb_true_iff in Efast as [Hbeg%Nat.eqb_eq Hrc%bool_decide_eq_true].
    specialize (Hslip Hbeg Hrc). subst beg xbeg rc.
    replace (end_ - 0) with end_ in * by lia.
    intros [= <-]. simpl. split; [|done].
    intros Hnz%negb_true_iff. rewrite Hnz. apply Nat.eqb_neq in Hnz.
    intros i Hi. simpl.
    assert (row !!! end_ ≤ row !!! nr) by (eapply csr_row_le; [done|lia..]).
    pose proof (row_length _ _ _ _ _ Hcsr) as Hrl.
    pose proof (col_length _ _ _ _ _ Hcsr) as Hcl.
    pose proof (val_length _ _ _ _ _ Hcsr) as Hvl.
    rewrite !length_take. split; [lia|]. split; [lia|].
    rewrite !lookup_total_take_lt by lia. intros j Hj.
    assert (row !!! (i + 1) ≤ row !!! end_) by (eapply csr_row_le; [done|lia..]).
    split; [lia|]. split; [lia|].
    rewrite lookup_total_take_lt by lia.
    destruct (decide (0 ≤ col !!! j < xend)) as [|Hout]; [lia|].
    specialize (Hcov i j ltac:(lia) Hj Hout). set_solver.
  - destruct (negb (reserve_fits _ _)); [done|].
    destruct (split_rows_spec beg end_ xbeg xend row col val rc Hle Hcov)
      as (s & Hs & HL & HR).
    rewrite Hs. simpl. intros [= <-]. simpl. split.
    + intros Hnz%negb_true_iff. rewrite Hnz.
      apply (rows_built_in_bounds _ _ _ _ _ (xend - xbeg) _ _ HL); [|done..].
      intros r e Hr. unfold local_entries.
      intros (j & -> & [Hp _]%list_elem_of_filter)%list_elem_of_fmap. simpl. lia.
    + intros Hne%negb_true_iff. rewrite Hne. apply bool_decide_eq_false in Hne.
      apply (rows_built_in_bounds _ _ _ _ _ (size rc) _ _ (HR Hne)); [|done..].
      intros r e Hr. unfold remote_entries.
      intros (j & -> & [Hout Hj%elem_of_row_range]%list_elem_of_filter)%list_elem_of_fmap.
      simpl. specialize (Hcov (beg + r) j ltac:(lia) Hj Hout).
      destruct (build_r2l_spec rc) as (_ & _ & Hk & Hdom).
      apply Hdom in Hcov as [k Hlk]. rewrite Hlk. simpl.
      by destruct (Hk _ _ Hlk).
Qed.

(** The columns that a device gathers are columns of its own part of [x]. *)
Lemma cols_to_send_in_range {real : Type} `{RealOps real} (D : nat)
    (part xpart row col : list nat) (d t : nat) :
  2 ≤ D → d < D →
  let ex := setup_exchange (real:=real) D part xpart row col in
  0 < length (x_rx ex) →
  length (x_cidx ex) = S D ∧
  (t < x_cidx ex !!! (d + 1) - x_cidx ex !!! d →
   cols_to_send (x_exc ex !!! d) !!! t < xpart !!! (d + 1) - xpart !!! d).
Proof.
  intros HD Hd ex Hrx. unfold ex in Hrx.
  rewrite setup_exchange_rx, decide_True in Hrx by done.
  set (cts := send_list (ghost_sets D part xpart row col)) in *.
  destruct (setup_exchange_send (real:=real) D part xpart row col d HD Hd Hrx)
    as (Hcidx & _ & Hbuf).
  fold ex cts in Hcidx, Hbuf. rewrite Hcidx.
  destruct (build_cidx_spec D xpart cts (increasing_send_list _))
    as [Hlen Hbound Hmono Hge Hlt Hfirst].
  split; [done|]. intros Ht.
  destruct (Hbuf ltac:(lia)) as (_ & _ & Hlk). rewrite (Hlk t Ht).
  assert (build_cidx D xpart cts !!! (d + 1) ≤ length cts) by (apply Hbound; lia).
  pose proof (Hge d (build_cidx D xpart cts !!! d + t) ltac:(lia) ltac:(lia)).
  pose proof (Hlt d (build_cidx D xpart cts !!! d + t) Hd ltac:(lia)).
  lia.
Qed.

Section bounds.
Context {real : Type} `{RealOps real}.
Variables (q : list device) (part xpart row col : list nat) (val : list real).
Variables (nr nc : nat).
Hypothesis Hpart : partition_ok (length q) nr part.
Hypothesis Hxpart : partition_ok (length q) nc xpart.
Hypothesis Hcsr : csr_ok nr nc row col val.
Hypothesis Hfast : fast_path_sound (length q) part xpart.

(** On a constructed matrix, with [x] and [y] of the sizes of the matrix,
    [mul] stays inside every buffer. *)
Lemma built_in_bounds (A : SpMat real) (x y : list real) :
  built q part xpart row col val A → length x = nc → length y = nr →
  mul_in_bounds A (vparts (length q) xpart x) (vparts (length q) part y).
Proof.
  intros HA Hx Hy.
  pose proof (built_queue _ _ _ _ _ _ _ HA) as Hq.
  set (ex := setup_exchange (real:=real) (length q) part xpart row col).
  unfold mul_in_bounds. rewrite Hq, !length_vparts.
  split; [done|]. split; [done|]. split.
  { pose proof (built_mtx _ _ _ _ _ _ _ HA) as Hm.
    apply mapM_Some_1, Forall2_length in Hm. by rewrite length_seq in Hm. }
  split; [apply (built_exc_length _ _ _ _ _ _ _ HA)|].
  intros d Hd. cbv zeta. rewrite !lookup_vparts by done.
  destruct (built_exc _ _ _ _ _ _ _ HA d Hd) as (Hcr & Hcs & Hlvr & Hlvs & Hlrx).
  fold ex in Hcr, Hcs, Hlvr, Hlvs, Hlrx.
  pose proof (built_cidx _ _ _ _ _ _ _ HA) as Hcidx. fold ex in Hcidx.
  pose proof (built_rx _ _ _ _ _ _ _ HA) as Hrxl. fold ex in Hrxl.
  assert (length (vpart xpart x d) = xpart !!! (d + 1) - xpart !!! d) as Hlx
    by (by apply (length_vpart_part q xpart nc Hxpart)).
  assert (length (vpart part y d) = part !!! (d + 1) - part !!! d) as Hly
    by (by apply (length_vpart_part q part nr Hpart)).
  destruct (setup_exchange_send_sizes (real:=real) (length q) part xpart row col d Hd)
    as (Hs1 & Hs2 & Hs3 & Hs4).
  destruct (recv_facts q part xpart row col d Hd) as (Hr1 & Hr2 & Hr3 & Hrows & Hpos).
  fold ex in Hs1, Hs2, Hs3, Hs4, Hr1, Hr2, Hr3, Hrows, Hpos.
  assert (mtx A !!! d ≠ None → part !!! d < part !!! (d + 1) ∧
          ∀ M, mtx A !!! d = Some M →
            SpMatCSR_new (part !!! d) (part !!! (d + 1)) (xpart !!! d)
              (xpart !!! (d + 1)) row col val (x_remote_cols ex !!! d) = Some M)
    as Hblock.
  { intros Hsome.
    pose proof (built_new_block q part xpart row col val A d HA Hd) as Hnew.
    unfold new_block in Hnew. fold ex in Hnew.
    destruct (part !!! d <? part !!! (d + 1)) eqn:E; cycle 1.
    { injection Hnew as Hnone. by rewrite <-Hnone in Hsome. }
    apply Nat.ltb_lt in E. split; [done|]. intros M HM. rewrite HM in Hnew.
    destruct (SpMatCSR_new _ _ _ _ _ _ _ _) as [M'|]; [|done].
    simpl in Hnew. by injection Hnew as ->. }
  assert (∀ M xr, mtx A !!! d = Some M →
            size (x_remote_cols ex !!! d) ≤ length xr →
            (has_loc M = true →
             spmv_in_bounds (n M) (loc M) (vpart xpart x d) (vpart part y d)) ∧
            (has_rem M = true →
             spmv_in_bounds (n M) (rem M) xr (vpart part y d))) as Hkernels.
  { intros M xr HM Hxr.
    destruct Hblock as [Hlt Hctor]; [by rewrite HM|].
    apply (SpMatCSR_new_in_bounds nr nc (part !!! d) (part !!! (d + 1))
             (xpart !!! d) (xpart !!! (d + 1)) row col val
             (x_remote_cols ex !!! d) M); try done; try lia.
    - eapply partition_bound; [done|lia].
    - intros i j Hi Hj Hout.
      by apply (ghost_coverage q part xpart row col val nr nc Hpart Hxpart Hcsr d i j).
    - intros Hbeg _. by apply Hfast.
    - by apply Hctor. }
  split; [|split].
  - intros Hrx.
    assert (2 ≤ length q) as HD.
    { destruct (decide (2 ≤ length q)); [done|].
      rewrite Hrxl in Hrx. unfold ex in Hrx.
      rewrite setup_exchange_rx, decide_False in Hrx by done. done. }
    assert (0 < length (x_rx ex)) as Hpos' by lia.
    rewrite Hcidx.
    destruct (cols_to_send_in_range (real:=real) (length q) part xpart row col d 0
                HD Hd Hpos') as [Hlen _].
    fold ex in Hlen. split; [lia|]. intros Hn.
    rewrite Hcs, Hlvs, Hrxl, Hlx. split; [lia|]. split; [lia|]. split; [lia|].
    intros t Ht.
    destruct (cols_to_send_in_range (real:=real) (length q) part xpart row col d t
                HD Hd Hpos') as [_ Hlt'].
    exact (Hlt' Ht).
  - intros M HM Hloc.
    destruct (Hkernels M (ex_rx (exc A !!! d)) HM) as [Hk _]; [lia|]. by apply Hk.
  - intros Hrx Hne. rewrite Hcr, Hlvr, Hlrx, Hrxl.
    split; [lia|]. split; [lia|]. split.
    { intros t Ht. destruct (Hpos t ltac:(lia)) as [Hlt' _].
      unfold ex. rewrite setup_exchange_rx.
      destruct (decide (2 ≤ length q)) as [HD|HD].
      - unfold ex in Hlt'. by rewrite setup_exchange_remote_cols in Hlt' by done.
      - rewrite Hrxl in Hrx. unfold ex in Hrx.
        rewrite setup_exchange_rx, decide_False in Hrx by done. done. }
    destruct (built_null_safe q part xpart row col val A d HA Hd Hne) as [M HM].
    exists M. split; [done|]. intros Hrem.
    destruct (Hkernels M (ex_rx (exc A !!! d)) HM) as [_ Hk]; [lia|]. by apply Hk.
Qed.

End bounds.

(** ** Checked accesses: inside the buffers the checks all pass *)

Lemma write_total {A : Type} (l : list A) (i : nat) (v : A) :
  i < length l → write l i v = Some (<[i := v]> l).
Proof. intros Hi. unfold write. by rewrite decide_True. Qed.

Lemma read_total {A : Type} `{Inhabited A} (l : list A) (i : nat) :
  i < length l → l !! i = Some (l !!! i).
Proof. intros Hi. by apply list_lookup_lookup_total_lt. Qed.

(** A loop whose checks pass at every iteration, under an invariant [I] of
    the state, is the loop without checks. *)
Lemma for_range_opt_total {S : Type} (I : S → Prop) (lo hi : nat)
    (body : nat → S → S) (cbody : nat → S → option S) (s : S) :
  I s →
  (∀ i s, lo ≤ i < hi → I s → cbody i s = Some (body i s) ∧ I (body i s)) →
  for_range_opt lo hi cbody s = Some (for_range lo hi body s) ∧
  I (for_range lo hi body s).
Proof.
  unfold for_range_opt, for_range. intros Hs Hbody.
  assert (∀ i, i ∈ seq lo (hi - lo) → lo ≤ i < hi) as Hin
    by (intros i Hi%elem_of_seq; lia).
  revert s Hs Hin. induction (seq lo (hi - lo)) as [|k l IH]; intros s Hs Hin.
  - done.
  - simpl. destruct (Hbody k s) as [-> Hk]; [apply Hin; by left|done|].
    apply IH; [done|]. intros i Hi. apply Hin. by right.
Qed.

(** Two loops with bodies that can fail agree when their bodies agree and
    succeed under an invariant. *)
Lemma for_range_opt_agree {S : Type} (I : S → Prop) (lo hi : nat)
    (f g : nat → S → option S) (s : S) :
  I s →
  (∀ i s, lo ≤ i < hi → I s → ∃ s', f i s = Some s' ∧ g i s = Some s' ∧ I s') →
  ∃ r, for_range_opt lo hi f s = Some r ∧ for_range_opt lo hi g s = Some r ∧ I r.
Proof.
  unfold for_range_opt, for_range. intros Hs Hbody.
  assert (∀ i, i ∈ seq lo (hi - lo) → lo ≤ i < hi) as Hin
    by (intros i Hi%elem_of_seq; lia).
  revert s Hs Hin. induction (seq lo (hi - lo)) as [|k l IH]; intros s Hs Hin.
  - by exists s.
  - simpl. destruct (Hbody k s) as (s' & -> & -> & Hk); [apply Hin; by left|done|].
    apply IH; [done|]. intros i Hi. apply Hin. by right.
Qed.

Lemma spmv_in_bounds_length {real : Type} (n : nat) (b : csr real)
    (x y y' : list real) :
  length y' = length y → spmv_in_bounds n b x y → spmv_in_bounds n b x y'.
Proof.
  intros Hl Hb i Hi. destruct (Hb i Hi) as (? & ? & ?). rewrite Hl. done.
Qed.

Lemma row_sum_checked_total {real : Type} `{RealOps real} (b : csr real)
    (x : list real) (i : nat) :
  i + 1 < length (c_row b) →
  (∀ j, c_row b !!! i ≤ j < c_row b !!! (i + 1) →
     j < length (c_col b) ∧ j < length (c_val b) ∧
     c_col b !!! j < length x) →
  row_sum_checked b x i = Some (row_sum b x i).
Proof.
  intros Hi Hj. unfold row_sum_checked, row_sum.
  rewrite !read_total by lia. simpl.
  apply (for_range_opt_total (λ _, True)); [done|].
  intros j s Hjr _. destruct (Hj j Hjr) as (? & ? & ?).
  rewrite (read_total (c_col b)) by done. simpl.
  rewrite (read_total (c_val b)) by done. simpl.
  rewrite read_total by done. done.
Qed.

Lemma chunk_checked_total {S : Type} (I : S → Prop) (n G gid : nat)
    (body : nat → S → S) (cbody : nat → S → option S) (s : S) :
  I s →
  (∀ i s, i < n → I s → cbody i s = Some (body i s) ∧ I (body i s)) →
  chunk_checked n G gid cbody s = Some (chunk n G gid body s) ∧
  I (chunk n G gid body s).
Proof.
  intros Hs Hbody. unfold chunk_checked, chunk.
  apply for_range_opt_total; [done|].
  intros i t Hi Ht. apply Hbody; [lia|done].
Qed.

Lemma spmv_set_checked_total {real : Type} `{RealOps real} (G n : nat)
    (b : csr real) (x y : list real) (alpha : real) :
  spmv_in_bounds n b x y →
  spmv_set_checked G n b x y alpha = Some (spmv_set G n b x y alpha).
Proof.
  intros Hb. unfold spmv_set_checked, spmv_set.
  apply (for_range_opt_total (λ y', length y' = length y)); [done|].
  intros gid y1 _ Hl1.
  apply (chunk_checked_total (λ y', length y' = length y)); [done|].
  intros i y2 Hi Hl2. destruct (Hb i Hi) as (Hr & Hy & Hj).
  rewrite row_sum_checked_total by done. simpl.
  rewrite write_total by lia. by rewrite length_insert.
Qed.

Lemma spmv_add_checked_total {real : Type} `{RealOps real} (G n : nat)
    (b : csr real) (x y : list real) (alpha : real) :
  spmv_in_bounds n b x y →
  spmv_add_checked G n b x y alpha = Some (spmv_add G n b x y alpha).
Proof.
  intros Hb. unfold spmv_add_checked, spmv_add.
  apply (for_range_opt_total (λ y', length y' = length y)); [done|].
  intros gid y1 _ Hl1.
  apply (chunk_checked_total (λ y', length y' = length y)); [done|].
  intros i y2 Hi Hl2. destruct (Hb i Hi) as (Hr & Hy & Hj).
  rewrite row_sum_checked_total by done. simpl.
  rewrite read_total by lia. simpl.
  rewrite write_total by lia. by rewrite length_insert.
Qed.

Lemma gather_vals_to_send_checked_total {real : Type} `{RealOps real}
    (G n : nat) (vals : list real) (cts : list nat) (vts : list real) :
  n ≤ length cts → n ≤ length vts →
  (∀ t, t < n → cts !!! t < length vals) →
  gather_vals_to_send_checked G n vals cts vts
  = Some (gather_vals_to_send G n vals cts vts).
Proof.
  intros Hc Hv Hcol. unfold gather_vals_to_send_checked, gather_vals_to_send.
  apply (for_range_opt_total (λ v', length v' = length vts)); [done|].
  intros i v1 _ Hl1. destruct (i <? n) eqn:E; [|done].
  apply Nat.ltb_lt in E.
  rewrite (read_total cts) by lia. simpl.
  rewrite read_total by (by apply Hcol). simpl.
  rewrite write_total by lia. by rewrite length_insert.
Qed.

Lemma copy_into_checked_total {A : Type} `{Inhabited A} (dst : list A)
    (off : nat) (src : list A) (len : nat) :
  len ≤ length src → off + len ≤ length dst →
  copy_into_checked dst off src len = Some (copy_into dst off src len).
Proof.
  intros Hs Hd. unfold copy_into_checked, copy_into.
  apply (for_range_opt_total (λ d', length d' = length dst)); [done|].
  intros k d1 Hk Hl1.
  rewrite read_total by lia. simpl.
  rewrite write_total by lia. by rewrite length_insert.
Qed.

Lemma redistribute_checked_total {real : Type} `{RealOps real} (rx0 : list real)
    (recv : list nat) (vals : list real) :
  length recv ≤ length vals →
  (∀ t, t < length recv → recv !!! t < length rx0) →
  redistribute_checked rx0 recv vals = Some (redistribute rx0 recv vals).
Proof.
  intros Hv Hr. unfold redistribute_checked, redistribute.
  apply (for_range_opt_total (λ v', length v' = length vals)); [done|].
  intros i v1 Hi Hl1.
  rewrite (read_total recv) by lia. simpl.
  rewrite read_total by (apply Hr; lia). simpl.
  rewrite write_total by lia. by rewrite length_insert.
Qed.

Lemma mul_local_checked_total {real : Type} `{RealOps real} (dev : device)
    (M : SpMatCSR real) (x y : list real) (alpha : real) (append : bool) :
  (has_loc M = true → spmv_in_bounds (n M) (loc M) x y) →
  mul_local_checked dev M x y alpha append
  = Some (mul_local dev M x y alpha append).
Proof.
  intros Hb. unfold mul_local_checked, mul_local.
  destruct (has_loc M); [|done]. specialize (Hb eq_refl).
  destruct append;
    [by apply spmv_add_checked_total|by apply spmv_set_checked_total].
Qed.

Lemma mul_remote_checked_total {real : Type} `{RealOps real} (dev : device)
    (M : SpMatCSR real) (x y : list real) (alpha : real) (ev : list event) :
  (has_rem M = true → spmv_in_bounds (n M) (rem M) x y) →
  mul_remote_checked dev M x y alpha ev
  = Some (mul_remote dev M x y alpha ev).
Proof.
  intros Hb. unfold mul_remote_checked, mul_remote.
  destruct (has_rem M); [|done]. simpl.
  by rewrite spmv_add_checked_total by (by apply Hb).
Qed.

Lemma length_mul_local {real : Type} `{RealOps real} (dev : device)
    (M : SpMatCSR real) (x y : list real) (alpha : real) (append : bool) :
  length (mul_local dev M x y alpha append) = length y.
Proof.
  unfold mul_local, spmv_add, spmv_set.
  destruct (has_loc M), append; simpl; rewrite ?length_replicate; try done.
  - apply (for_range_inv (λ _ y', length y' = length y)); [done|].
    intros gid y1 _ Hl. unfold chunk.
    apply (for_range_inv (λ _ y', length y' = length y)); [done|].
    intros i y2 _ Hl2. by rewrite length_insert.
  - apply (for_range_inv (λ _ y', length y' = length y)); [done|].
    intros gid y1 _ Hl. unfold chunk.
    apply (for_range_inv (λ _ y', length y' = length y)); [done|].
    intros i y2 _ Hl2. by rewrite length_insert.
Qed.

Lemma length_mul_remote {real : Type} `{RealOps real} (dev : device)
    (M : SpMatCSR real) (x y : list real) (alpha : real) (ev : list event) :
  length (mul_remote dev M x y alpha ev).1 = length y.
Proof.
  unfold mul_remote, spmv_add. destruct (has_rem M); simpl; [|done].
  apply (for_range_inv (λ _ y', length y' = length y)); [done|].
  intros gid y1 _ Hl. unfold chunk.
  apply (for_range_inv (λ _ y', length y' = length y)); [done|].
  intros i y2 _ Hl2. by rewrite length_insert.
Qed.

Lemma spmv_in_bounds_lengths {real : Type} (n : nat) (b : csr real)
    (x y x' y' : list real) :
  length x' = length x → length y' = length y →
  spmv_in_bounds n b x y → spmv_in_bounds n b x' y'.
Proof.
  intros Hx Hy Hb i Hi. destruct (Hb i Hi) as (? & ? & ?). rewrite Hx, Hy. done.
Qed.

Lemma lookup_total_insert_length {A : Type} `{Inhabited A} (f : A → nat)
    (l : list A) (d k : nat) (v : A) :
  f v = f (l !!! k) → f (<[k := v]> l !!! d) = f (l !!! d).
Proof.
  intros Hv. destruct (decide (d = k)) as [->|Hne].
  - destruct (decide (k < length l)).
    + by rewrite list_lookup_total_insert_eq.
    + by rewrite list_insert_ge by lia.
  - by rewrite list_lookup_total_insert_ne.
Qed.

(** Lines 329-377. *)
Lemma gather_phase_checked_total {real : Type} `{RealOps real} (A : SpMat real)
    (xs : list (list real)) :
  length xs = length (queue A) → length (exc A) = length (queue A) →
  (∀ d, d < length (queue A) →
     d + 1 < length (cidx A) ∧
     (cidx A !!! (d + 1) - cidx A !!! d ≠ 0 →
        cidx A !!! (d + 1) - cidx A !!! d ≤ length (cols_to_send (exc A !!! d)) ∧
        cidx A !!! (d + 1) - cidx A !!! d ≤ length (vals_to_send (exc A !!! d)) ∧
        cidx A !!! d + (cidx A !!! (d + 1) - cidx A !!! d) ≤ length (rx A) ∧
        ∀ t, t < cidx A !!! (d + 1) - cidx A !!! d →
          cols_to_send (exc A !!! d) !!! t < length (xs !!! d))) →
  gather_phase_checked A xs = Some (gather_phase A xs).
Proof.
  intros Hxs Hexc Hb. unfold gather_phase_checked, gather_phase.
  apply (for_range_opt_total
           (λ st : list (exdata real) * list real,
              length st.1 = length (exc A) ∧ length st.2 = length (rx A) ∧
              ∀ d, same_plan (exc A !!! d) (st.1 !!! d))).
  { do 2 (split; [done|]). intros d. by repeat split. }
  intros d [exc1 rx1] Hd (Hl1 & Hl2 & Hsame). simpl in Hl1, Hl2, Hsame.
  destruct (Hb d ltac:(lia)) as [Hc Hn].
  rewrite (read_total (cidx A) d) by lia. simpl.
  rewrite (read_total (cidx A) (d + 1)) by lia. simpl.
  destruct (cidx A !!! (d + 1) - cidx A !!! d =? 0) eqn:E; [done|].
  apply Nat.eqb_neq in E. destruct (Hn E) as (Hcs & Hvs & Hrx & Hcol).
  destruct (Hsame d) as (_ & Ecs & _ & Evs & _).
  rewrite (read_total exc1 d) by lia. simpl.
  rewrite (read_total xs d) by lia. simpl.
  rewrite gather_vals_to_send_checked_total; cycle 1.
  { by rewrite Ecs. }
  { by rewrite Evs. }
  { intros t Ht. rewrite Ecs. by apply Hcol. }
  simpl. rewrite copy_into_checked_total; cycle 1.
  { rewrite length_gather_vals_to_send, Evs. done. }
  { lia. }
  simpl. split; [done|]. split; [by rewrite length_insert|].
  split; [by rewrite (proj1 (copy_into_spec _ _ _ _))|].
  intros d'. destruct (decide (d' = d)) as [->|Hne].
  - rewrite list_lookup_total_insert_eq by lia.
    destruct (Hsame d) as (? & ? & ? & ? & ?).
    unfold same_plan, with_vals_to_send. simpl.
    do 3 (split; [done|]). split; [|done].
    by rewrite length_gather_vals_to_send.
  - rewrite list_lookup_total_insert_ne by done. apply Hsame.
Qed.

(** Lines 381-382. *)
Lemma local_phase_checked_total {real : Type} `{RealOps real} (A : SpMat real)
    (xs ys : list (list real)) (alpha : real) (append : bool) :
  length xs = length (queue A) → length ys = length (queue A) →
  length (mtx A) = length (queue A) →
  (∀ d M, d < length (queue A) → mtx A !!! d = Some M → has_loc M = true →
     spmv_in_bounds (n M) (loc M) (xs !!! d) (ys !!! d)) →
  local_phase_checked A xs ys alpha append
  = Some (local_phase A xs ys alpha append) ∧
  length (local_phase A xs ys alpha append) = length ys ∧
  ∀ d, length (local_phase A xs ys alpha append !!! d) = length (ys !!! d).
Proof.
  intros Hxs Hys Hmtx Hb. unfold local_phase_checked, local_phase.
  apply (for_range_opt_total
           (λ ys' : list (list real),
              length ys' = length ys ∧
              ∀ d, length (ys' !!! d) = length (ys !!! d))); [done|].
  intros d ys1 Hd (Hl1 & Hparts).
  rewrite (read_total (mtx A) d) by lia. simpl.
  destruct (mtx A !!! d) as [M|] eqn:HM; [|done].
  rewrite (read_total xs d) by lia. simpl.
  rewrite (read_total ys1 d) by lia. simpl.
  rewrite mul_local_checked_total; cycle 1.
  { intros Hloc. apply (spmv_in_bounds_lengths _ _ (xs !!! d) (ys !!! d)); [done|by rewrite Hparts|].
    apply (Hb d M); [lia|done..]. }
  simpl. split; [done|]. split; [by rewrite length_insert|].
  intros d'. rewrite <-Hparts.
  apply (lookup_total_insert_length length). by rewrite length_mul_local.
Qed.

(** Lines 385-403. *)
Lemma remote_phase_checked_total {real : Type} `{RealOps real} (A : SpMat real)
    (rx1 : list real) (alpha : real) (exc1 : list (exdata real))
    (ys1 : list (list real)) :
  length exc1 = length (queue A) → length ys1 = length (queue A) →
  length (mtx A) = length (queue A) →
  (∀ d, d < length (queue A) → cols_to_recv (exc1 !!! d) ≠ [] →
     length (cols_to_recv (exc1 !!! d)) ≤ length (vals_to_recv (exc1 !!! d)) ∧
     length (vals_to_recv (exc1 !!! d)) ≤ length (ex_rx (exc1 !!! d)) ∧
     (∀ t, t < length (cols_to_recv (exc1 !!! d)) →
        cols_to_recv (exc1 !!! d) !!! t < length rx1) ∧
     ∃ M, mtx A !!! d = Some M ∧
          (has_rem M = true →
           spmv_in_bounds (n M) (rem M) (ex_rx (exc1 !!! d)) (ys1 !!! d))) →
  ∃ r, remote_phase A rx1 alpha (exc1, ys1) = Some r ∧
       remote_phase_checked A rx1 alpha (exc1, ys1) = Some r.
Proof.
  intros Hexc Hys Hmtx Hb.
  destruct (for_range_opt_agree
    (λ st : list (exdata real) * list (list real),
       length st.1 = length exc1 ∧ length st.2 = length ys1 ∧
       (∀ d, same_plan (exc1 !!! d) (st.1 !!! d)) ∧
       ∀ d, length (st.2 !!! d) = length (ys1 !!! d))
    0 (length (queue A))
    (λ d '(exc, ys),
       let e := exc !!! d in
       if length (cols_to_recv e) =? 0 then Some (exc, ys)
       else
         let v := redistribute rx1 (cols_to_recv e) (vals_to_recv e) in
         let rxbuf := copy_into (ex_rx e) 0 v (length v) in
         M ← mtx A !!! d;
         Some (<[d := with_recv v rxbuf e]> exc,
               <[d := (mul_remote (queue A !!! d) M rxbuf (ys !!! d) alpha [Event2 d]).1]> ys))
    (λ d '(exc, ys),
       e ← exc !! d;
       if length (cols_to_recv e) =? 0 then Some (exc, ys)
       else
         v ← redistribute_checked rx1 (cols_to_recv e) (vals_to_recv e);
         rxbuf ← copy_into_checked (ex_rx e) 0 v (length v);
         m ← mtx A !! d;
         M ← m;
         y ← ys !! d;
         r ← mul_remote_checked (queue A !!! d) M rxbuf y alpha [Event2 d];
         Some (<[d := with_recv v rxbuf e]> exc, <[d := r.1]> ys))
    (exc1, ys1)) as (r & Hr1 & Hr2 & _).
  { do 2 (split; [done|]). split; [|done]. intros d. by repeat split. }
  { intros d [exc2 ys2] Hd (Hl1 & Hl2 & Hsame & Hparts).
    simpl in Hl1, Hl2, Hsame, Hparts.
    rewrite (read_total exc2 d) by lia. simpl.
    destruct (Hsame d) as (Ecr & _ & Evr & _ & Erx).
    destruct (length (cols_to_recv (exc2 !!! d)) =? 0) eqn:E.
    { eexists. split; [done|]. split; [done|]. done. }
    apply Nat.eqb_neq in E.
    destruct (Hb d ltac:(lia)) as (Hcv & Hvr & Hcol & M & HM & Hk).
    { rewrite <-Ecr. by destruct (cols_to_recv (exc2 !!! d)). }
    rewrite redistribute_checked_total; cycle 1.
    { rewrite Ecr, Evr. done. }
    { intros t Ht. rewrite Ecr in Ht |- *. by apply Hcol. }
    simpl.
    set (v := redistribute rx1 (cols_to_recv (exc2 !!! d)) (vals_to_recv (exc2 !!! d))).
    assert (length v = length (vals_to_recv (exc1 !!! d))) as Hlv
      by (unfold v; rewrite (proj1 (redistribute_spec _ _ _)); done).
    rewrite copy_into_checked_total by (rewrite ?Erx; lia).
    simpl.
    set (rxbuf := copy_into (ex_rx (exc2 !!! d)) 0 v (length v)).
    assert (length rxbuf = length (ex_rx (exc1 !!! d))) as Hlb
      by (unfold rxbuf; rewrite (proj1 (copy_into_spec _ _ _ _)); done).
    rewrite (read_total (mtx A) d) by lia. simpl. rewrite HM. simpl.
    rewrite (read_total ys2 d) by lia. simpl.
    rewrite mul_remote_checked_total; cycle 1.
    { intros Hrem.
      apply (spmv_in_bounds_lengths _ _ (ex_rx (exc1 !!! d)) (ys1 !!! d));
        [done|by rewrite Hparts|by apply Hk]. }
    simpl. eexists. split; [done|]. split; [done|]. simpl.
    split; [by rewrite length_insert|]. split; [by rewrite length_insert|].
    split.
    - intros d'. destruct (decide (d' = d)) as [->|Hne].
      + rewrite list_lookup_total_insert_eq by lia.
        destruct (Hsame d) as (_ & Ecs & _ & Evs & _).
        unfold same_plan, with_recv. simpl.
        split; [done|]. split; [done|]. split; [done|]. split; done.
      + rewrite list_lookup_total_insert_ne by done. apply Hsame.
    - intros d'. rewrite <-Hparts.
      apply (lookup_total_insert_length length). by rewrite length_mul_remote. }
  exists r. split; [exact Hr1|exact Hr2].
Qed.

(** Inside the buffers the checked [mul] is [mul], and it returns. *)
Lemma mul_checked_total {real : Type} `{RealOps real} (A : SpMat real)
    (xs ys : list (list real)) (alpha : real) (append : bool) :
  mul_in_bounds A xs ys →
  ∃ r, mul A xs ys alpha append = Some r ∧
       mul_checked A xs ys alpha append = Some r.
Proof.
  intros (Hxs & Hys & Hmtx & Hexc & Hb). unfold mul, mul_checked.
  destruct (local_phase_checked_total A xs ys alpha append Hxs Hys Hmtx)
    as (Hloc & Hll & Hlparts).
  { intros d M Hd HM Hl. destruct (Hb d Hd) as (_ & Hk & _). by apply Hk. }
  rewrite Hloc. simpl.
  destruct (length (rx A) =? 0) eqn:Erx; [by eexists|].
  apply Nat.eqb_neq in Erx.
  rewrite gather_phase_checked_total; [|done..|]; cycle 1.
  { intros d Hd. destruct (Hb d Hd) as (Hg & _). by apply Hg. }
  simpl.
  destruct (gather_phase_plan A xs) as (Hg1 & Hg2 & Hgsame).
  destruct (gather_phase A xs) as [exc1 rx1]. simpl in Hg1, Hg2, Hgsame.
  destruct (remote_phase_checked_total A rx1 alpha exc1
              (local_phase A xs ys alpha append)) as (r & Hr & Hrc).
  { by rewrite Hg1. }
  { by rewrite Hll. }
  { done. }
  { intros d Hd Hne. destruct (Hgsame d) as (Ecr & _ & Evr & _ & Erxb).
    destruct (Hb d Hd) as (_ & _ & Hrem).
    destruct Hrem as (H1 & H2 & H3 & M & HM & Hk); [done|by rewrite <-Ecr|].
    rewrite Ecr, Evr, Erxb, Hg2. split; [done|]. split; [done|].
    split; [done|]. exists M. split; [done|]. intros Hr.
    apply (spmv_in_bounds_lengths _ _ (ex_rx (exc A !!! d)) (ys !!! d));
      [done|by rewrite Hlparts|by apply Hk]. }
  rewrite Hr, Hrc. simpl. destruct r as [exc2 ys2]. by eexists.
Qed.

(** X3. [mul] on a matrix constructed from well-formed input, when no device
    whose rows start at 0 has columns that start above 0, with [x] and [y]
    of the sizes of the matrix: every index the call uses is inside its
    buffer ([mul_in_bounds]: the gather kernel and the read into [rx], the
    two [spmv] kernels, the redistribution of [rx] and the write into
    [exc[d].rx]), and the call through [mtx[d]] in the remote phase is made
    only for a device that has a block; so [mul_checked], the code with
    every access checked, returns, and returns what [mul] returns.  The
    call changes staging buffers only, so the matrix it leaves is a
    constructed matrix again, the next call is inside the buffers as well,
    and the number of parts of [y] is unchanged. *)
Theorem mul_never_fails {real : Type} `{RealOps real} (q : list device)
    (p xp : list nat) (nr nc : nat) (row col : list nat) (val : list real)
    (A : SpMat real) (x y : list real) (alpha : real) (append : bool) :
  partition_ok (length q) nr p → partition_ok (length q) nc xp →
  csr_ok nr nc row col val →
  fast_path_sound (length q) p xp →
  length x = nc → length y = nr →
  built q p xp row col val A →
  mul_in_bounds A (vparts (length q) xp x) (vparts (length q) p y) ∧
  ∃ A' ys',
    mul_checked A (vparts (length q) xp x) (vparts (length q) p y) alpha append
    = Some (A', ys') ∧
    mul A (vparts (length q) xp x) (vparts (length q) p y) alpha append
    = Some (A', ys') ∧
    built q p xp row col val A' ∧
    mul_in_bounds A' (vparts (length q) xp x) (vparts (length q) p y) ∧
    queue A' = queue A ∧ part A' = part A ∧ mtx A' = mtx A ∧
    cidx A' = cidx A ∧ nrows A' = nrows A ∧ ncols A' = ncols A ∧
    nnz A' = nnz A ∧
    length ys' = length q.
Proof.
  intros Hpart Hxpart Hcsr Hfast Hx Hy HA.
  pose proof (built_in_bounds q p xp row col val nr nc Hpart Hxpart Hcsr Hfast
                A x y HA Hx Hy) as Hin.
  split; [done|].
  destruct (mul_returns q p xp row col val A (vparts (length q) xp x)
              (vparts (length q) p y) alpha append HA)
    as (A' & ys' & Hmul & HA' & Hlen & _).
  destruct (mul_checked_total A _ _ alpha append Hin) as (r & Hr & Hrc).
  rewrite Hmul in Hr. injection Hr as <-.
  exists A', ys'. do 3 (split; [done|]).
  split; [by apply (built_in_bounds q p xp row col val nr nc)|].
  rewrite length_vparts in Hlen.
  unfold mul in Hmul. destruct (length (rx A) =? 0).
  - injection Hmul as <- _. done.
  - destruct (gather_phase A _) as [exc1 rx1].
    destruct (remote_phase _ _ _ _) as [[exc2 ys2]|]; [|done].
    simpl in Hmul. injection Hmul as <- _. done.
Qed.

Lemma mul_never_fails_witness :
  partition_ok (length ex_queue) 4 ex_part ∧
  csr_ok 4 4 ex_row ex_col ex_val ∧
  fast_path_sound (length ex_queue) ex_part ex_part ∧
  length ex_x = 4 ∧ length [0; 0; 0; 0]%Z = 4 ∧
  ∃ A : SpMat Z,
    built ex_queue ex_part ex_part ex_row ex_col ex_val A ∧
    length (rx A) = 4 ∧
    mul_in_bounds A (vparts (length ex_queue) ex_part ex_x)
      (vparts (length ex_queue) ex_part [0; 0; 0; 0]%Z) ∧
    ∃ A' ys',
      mul_checked A (vparts (length ex_queue) ex_part ex_x)
        (vparts (length ex_queue) ex_part [0; 0; 0; 0]%Z) 1%Z false
      = Some (A', ys') ∧
      mul A (vparts (length ex_queue) ex_part ex_x)
        (vparts (length ex_queue) ex_part [0; 0; 0; 0]%Z) 1%Z false
      = Some (A', ys') ∧
      built ex_queue ex_part ex_part ex_row ex_col ex_val A' ∧
      mul_in_bounds A' (vparts (length ex_queue) ex_part ex_x)
        (vparts (length ex_queue) ex_part [0; 0; 0; 0]%Z) ∧
      queue A' = queue A ∧ part A' = part A ∧ mtx A' = mtx A ∧
      cidx A' = cidx A ∧ nrows A' = nrows A ∧ ncols A' = ncols A ∧
      nnz A' = nnz A ∧
      length ys' = length ex_queue.
Proof.
  split; [exact ex_part_ok|]. split; [exact ex_csr_ok|].
  split; [exact ex_fast_path_sound|]. split; [reflexivity|]. split; [reflexivity|].
  assert (∃ A, SpMat_new ex_queue ex_part ex_part 4 4 ex_row ex_col ex_val = Some A
               ∧ length (rx A) = 4)
    as (A & HA & Hrx) by (eexists; split; vm_compute; reflexivity).
  pose proof (SpMat_new_built _ _ _ _ _ _ _ _ _ HA) as HB.
  exists A. split; [exact HB|]. split; [exact Hrx|].
  exact (mul_never_fails ex_queue ex_part ex_part 4 4 ex_row ex_col ex_val A
           ex_x [0; 0; 0; 0]%Z 1%Z false
           ex_part_ok ex_part_ok ex_csr_ok ex_fast_path_sound eq_refl eq_refl HB).
Defined.

(** The hypotheses matter: for the 1 x 1 matrix with the column index 5 the
    constructor takes the fast path and the kernel of [mul_local] reads
    [x[5]] in a vector of one element: [mul_checked] fails, where [mul],
    whose reads are total, returns. *)
Lemma fast_path_reads_out_of_range (A : SpMat Z) :
  SpMat_new [Device 4 2] [0; 1] [0; 1] 1 1 [0; 1] [5] [1%Z] = Some A →
  mul_checked A [[1%Z]] [[0%Z]] 1%Z false = None ∧
  is_Some (mul A [[1%Z]] [[0%Z]] 1%Z false) ∧
  ¬ mul_in_bounds A [[1%Z]] [[0%Z]].
Proof.
  intros HA. vm_compute in HA. injection HA as <-. split; [|split].
  - vm_compute. reflexivity.
  - eexists. vm_compute. reflexivity.
  - intros (_ & _ & _ & _ & Hd).
    destruct (Hd 0 ltac:(simpl; lia)) as (_ & Hloc & _).
    specialize (Hloc _ eq_refl eq_refl 0 ltac:(simpl; lia)).
    destruct Hloc as (_ & _ & Hj).
    destruct (Hj 0 ltac:(simpl; lia)) as (_ & _ & Hc). simpl in Hc. lia.
Qed.

(** And the sizes of the vectors matter: with a [y] of one element for a
    matrix of two rows the kernel writes [y[1]] past the end. *)
Lemma short_y_write_out_of_range (A : SpMat Z) :
  SpMat_new [Device 4 2] [0; 2] [0; 2] 2 2 [0; 1; 2] [0; 1] [1; 1]%Z = Some A →
  mul_checked A [[1; 1]%Z] [[0%Z]] 1%Z false = None ∧
  is_Some (mul A [[1; 1]%Z] [[0%Z]] 1%Z false) ∧
  is_Some (mul_checked A [[1; 1]%Z] [[0; 0]%Z] 1%Z false).
Proof.
  intros HA. vm_compute in HA. injection HA as <-. split; [|split].
  - vm_compute. reflexivity.
  - eexists. vm_compute. reflexivity.
  - eexists. vm_compute. reflexivity.
Qed.

(** ** The product of a constructed matrix *)

(** X1. [SpMat::mul] on the matrix constructed from well-formed input whose
    row pointer starts at 0, for any number of devices, when no device
    whose rows start at 0 has columns that start above 0, with [x] and [y]
    of the sizes of the matrix.  No law of the arithmetic is assumed: the
    call returns, every access being inside its buffer ([mul_checked]
    returns the same), and row [i] of [y] holds [mul_row_value], the value
    the two kernels compute in their order (the sum over the nonzeros inside the
    column range of the device, scaled and stored or added, then the scaled
    sum over the other nonzeros of the row added); the same holds for every
    later call.  When addition is commutative and associative with unit 0,
    [a * 0 = 0] and multiplication distributes over addition from the left
    ([RealLaws], which the integers satisfy and floating point does not),
    this value is [alpha A x] (plus the old [y] with [append]) as the dense
    reference computes it. *)
Theorem SpMat_mul_correct {real : Type} `{RealOps real} (q : list device)
    (part xpart : list nat) (nr nc : nat) (row col : list nat)
    (val x y : list real) (alpha : real) (append : bool) (A : SpMat real) :
  (∀ d, d < length q → 0 < wgsize (q !!! d) ∧ 0 < num_workgroups (q !!! d)) →
  partition_ok (length q) nr part → partition_ok (length q) nc xpart →
  csr_ok nr nc row col val → row !!! 0 = 0 →
  fast_path_sound (length q) part xpart →
  length x = nc → length y = nr →
  SpMat_new q part xpart nr nc row col val = Some A →
  ∃ A',
    mul A (vparts (length q) xpart x) (vparts (length q) part y) alpha append
    = Some (A', mul_value (length q) part xpart row col val x y alpha append) ∧
    mul_checked A (vparts (length q) xpart x) (vparts (length q) part y)
      alpha append
    = Some (A', mul_value (length q) part xpart row col val x y alpha append) ∧
    built q part xpart row col val A' ∧
    (RealLaws real →
     mul_value (length q) part xpart row col val x y alpha append
     = vparts (length q) part (ref_mul nr row col val x y alpha append)).
Proof.
  intros Hdev Hpart Hxpart Hcsr Hrow0 Hfast Hx Hy HA.
  apply SpMat_new_built in HA.
  destruct (mul_exact q part xpart row col val nr nc Hdev Hpart Hxpart Hcsr
              Hrow0 Hfast A x y alpha append HA Hy) as (A' & Hmul & HA').
  exists A'. split; [done|]. split.
  { destruct (mul_checked_total A _ _ alpha append
                (built_in_bounds q part xpart row col val nr nc Hpart Hxpart
                   Hcsr Hfast A x y HA Hx Hy)) as (r & Hr & Hrc).
    rewrite Hmul in Hr. by injection Hr as <-. }
  split; [done|]. intros HL.
  destruct (@mul_correct real _ HL q part xpart row col val nr nc Hdev Hpart
              Hxpart Hcsr A x y alpha append HA Hfast Hy)
    as (A2 & ys2 & Hmul2 & _ & ->).
  rewrite Hmul in Hmul2. by injection Hmul2.
Qed.

(** X2. One device, well-formed input whose row pointer starts at 0:
    [setup_exchange] returns at once, nothing is allocated, and [mul] is the
    one [mul_local] call, with every access inside its buffer
    ([mul_checked] returns the same).  With no law of the arithmetic assumed: when the
    matrix has a nonzero the result is the reference result, computed in
    the same order; when it has none no kernel runs, and [y] is kept
    ([append]) or filled with zeros.  Under the laws [RealLaws] that is the
    reference result as well. *)
Theorem single_device_mul {real : Type} `{RealOps real} (dev : device)
    (part xpart : list nat) (nr nc : nat) (row col : list nat)
    (val x y : list real) (alpha : real) (append : bool) (A : SpMat real) :
  0 < wgsize dev → 0 < num_workgroups dev →
  partition_ok 1 nr part → partition_ok 1 nc xpart →
  csr_ok nr nc row col val → row !!! 0 = 0 →
  length x = nc → length y = nr →
  SpMat_new [dev] part xpart nr nc row col val = Some A →
  setup_exchange (real:=real) 1 part xpart row col
    = MkExchange [∅] [exdata_empty] [] [] [] ∧
  rx A = [] ∧ cidx A = [] ∧ exc A = [exdata_empty] ∧
  mul A [vpart xpart x 0] [vpart part y 0] alpha append
    = Some (A, [match mtx A !!! 0 with
                | Some M => mul_local dev M (vpart xpart x 0) (vpart part y 0)
                              alpha append
                | None => vpart part y 0
                end]) ∧
  mul_checked A [vpart xpart x 0] [vpart part y 0] alpha append
    = mul A [vpart xpart x 0] [vpart part y 0] alpha append ∧
  (row !!! nr ≠ 0 →
   mul A [vpart xpart x 0] [vpart part y 0] alpha append
   = Some (A, [ref_mul nr row col val x y alpha append])) ∧
  (row !!! nr = 0 →
   mul A [vpart xpart x 0] [vpart part y 0] alpha append
   = Some (A, [if append then y else replicate nr r0])) ∧
  (RealLaws real →
   mul A [vpart xpart x 0] [vpart part y 0] alpha append
   = Some (A, [ref_mul nr row col val x y alpha append])).
Proof.
  intros Hw Hn Hpart Hxpart Hcsr Hrow0 Hx Hy HA.
  assert (setup_exchange (real:=real) 1 part xpart row col
          = MkExchange [∅] [exdata_empty] [] [] []) as Hex
    by (by rewrite setup_exchange_single).
  split; [done|].
  assert (rx A = [] ∧ cidx A = [] ∧ exc A = [exdata_empty] ∧ queue A = [dev])
    as (Hrx & Hcidx & Hexc & Hq).
  { unfold SpMat_new in HA. change (length [dev]) with 1 in HA.
    rewrite Hex in HA. cbv zeta in HA.
    destruct (mapM _ _); [|done]. simpl in HA. by injection HA as <-. }
  do 3 (split; [done|]).
  assert (mul A [vpart xpart x 0] [vpart part y 0] alpha append
    = Some (A, [match mtx A !!! 0 with
                | Some M => mul_local dev M (vpart xpart x 0) (vpart part y 0)
                              alpha append
                | None => vpart part y 0
                end])) as Hmul.
  { unfold mul. rewrite Hrx. simpl. unfold local_phase. rewrite Hq. simpl.
    unfold for_range. simpl. by destruct (mtx A !!! 0). }
  split; [done|].
  assert (∀ d, d < length [dev] →
            0 < wgsize ([dev] !!! d) ∧ 0 < num_workgroups ([dev] !!! d)) as Hdev.
  { intros d Hd. simpl in Hd. by assert (d = 0) as -> by lia. }
  assert (fast_path_sound (length [dev]) part xpart) as Hfast.
  { intros d Hd _ _. simpl in Hd. assert (d = 0) as -> by lia.
    apply (p_first _ _ _ Hxpart). }
  pose proof (SpMat_new_built _ _ _ _ _ _ _ _ _ HA) as HB.
  destruct (mul_exact [dev] part xpart row col val nr nc Hdev Hpart Hxpart Hcsr
              Hrow0 Hfast A x y alpha append HB Hy) as (A' & Hmul' & _).
  simpl in Hmul'. unfold vparts in Hmul'. simpl in Hmul'.
  rewrite (single_device_value part xpart nr nc row col val x y alpha append
             Hpart Hxpart Hcsr Hrow0 Hy) in Hmul'.
  rewrite Hmul in Hmul'. injection Hmul' as <- Hys'.
  split.
  { pose proof (built_in_bounds [dev] part xpart row col val nr nc Hpart Hxpart
                  Hcsr Hfast A x y HB Hx Hy) as Hin.
    simpl in Hin. unfold vparts in Hin. simpl in Hin.
    destruct (mul_checked_total A _ _ alpha append Hin) as (r & Hr & Hrc).
    by rewrite Hr, Hrc. }
  rewrite Hmul, Hys'. split; [|split].
  - intros Hnz%Nat.eqb_neq. by rewrite Hnz.
  - intros Hz%Nat.eqb_eq. by rewrite Hz.
  - intros HL.
    destruct (@mul_correct real _ HL [dev] part xpart row col val nr nc Hdev
                Hpart Hxpart Hcsr A x y alpha append HB Hfast Hy)
      as (A2 & ys2 & Hmul2 & _ & ->).
    simpl in Hmul2. unfold vparts in Hmul2. simpl in Hmul2.
    rewrite Hmul, Hys' in Hmul2. injection Hmul2 as _ ->.
    do 3 f_equal. unfold vpart. change (0 + 1) with 1.
    rewrite (p_first _ _ _ Hpart), (p_last _ _ _ Hpart), Nat.sub_0_r, drop_0.
    rewrite take_ge; [done|]. by rewrite length_ref_mul.
Qed.

Lemma SpMat_mul_correct_witness :
  (∀ d, d < length ex_queue →
     0 < wgsize (ex_queue !!! d) ∧ 0 < num_workgroups (ex_queue !!! d)) ∧
  partition_ok (length ex_queue) 4 ex_part ∧
  csr_ok 4 4 ex_row ex_col ex_val ∧ ex_row !!! 0 = 0 ∧
  fast_path_sound (length ex_queue) ex_part ex_part ∧
  length ex_x = 4 ∧ length [0; 0; 0; 0]%Z = 4 ∧
  mul_value (length ex_queue) ex_part ex_part ex_row ex_col ex_val ex_x
    [0; 0; 0; 0]%Z 1%Z false = [[90; 180]; [230; 460]]%Z ∧
  ∃ A : SpMat Z,
    SpMat_new ex_queue ex_part ex_part 4 4 ex_row ex_col ex_val = Some A ∧
    ∃ A',
      mul A (vparts (length ex_queue) ex_part ex_x)
        (vparts (length ex_queue) ex_part [0; 0; 0; 0]%Z) 1%Z false
      = Some (A', mul_value (length ex_queue) ex_part ex_part ex_row ex_col
                    ex_val ex_x [0; 0; 0; 0]%Z 1%Z false) ∧
      mul_checked A (vparts (length ex_queue) ex_part ex_x)
        (vparts (length ex_queue) ex_part [0; 0; 0; 0]%Z) 1%Z false
      = Some (A', mul_value (length ex_queue) ex_part ex_part ex_row ex_col
                    ex_val ex_x [0; 0; 0; 0]%Z 1%Z false) ∧
      built ex_queue ex_part ex_part ex_row ex_col ex_val A' ∧
      (RealLaws Z →
       mul_value (length ex_queue) ex_part ex_part ex_row ex_col ex_val ex_x
         [0; 0; 0; 0]%Z 1%Z false
       = vparts (length ex_queue) ex_part
           (ref_mul 4 ex_row ex_col ex_val ex_x [0; 0; 0; 0]%Z 1%Z false)).
Proof.
  split; [exact ex_dev_ok|]. split; [exact ex_part_ok|]. split; [exact ex_csr_ok|].
  split; [reflexivity|]. split; [exact ex_fast_path_sound|].
  split; [reflexivity|]. split; [reflexivity|].
  split; [vm_compute; reflexivity|].
  assert (is_Some (SpMat_new ex_queue ex_part ex_part 4 4 ex_row ex_col ex_val))
    as [A HA] by (eexists; vm_compute; reflexivity).
  exists A. split; [exact HA|].
  exact (SpMat_mul_correct ex_queue ex_part ex_part 4 4 ex_row ex_col ex_val
           ex_x [0; 0; 0; 0]%Z 1%Z false A
           ex_dev_ok ex_part_ok ex_part_ok ex_csr_ok eq_refl ex_fast_path_sound
           eq_refl eq_refl HA).
Defined.

Lemma single_device_mul_witness :
  0 < wgsize (Device 4 2) ∧ 0 < num_workgroups (Device 4 2) ∧
  partition_ok 1 4 [0; 4] ∧ csr_ok 4 4 ex_row ex_col ex_val ∧
  ex_row !!! 0 = 0 ∧ length ex_x = 4 ∧ length [0; 0; 0; 0]%Z = 4 ∧
  ex_row !!! 4 ≠ 0 ∧
  ref_mul 4 ex_row ex_col ex_val ex_x [0; 0; 0; 0]%Z 1%Z false
    = [90; 180; 230; 460]%Z ∧
  ∃ A : SpMat Z,
    SpMat_new [Device 4 2] [0; 4] [0; 4] 4 4 ex_row ex_col ex_val = Some A ∧
    setup_exchange (real:=Z) 1 [0; 4] [0; 4] ex_row ex_col
      = MkExchange [∅] [exdata_empty] [] [] [] ∧
    rx A = [] ∧ cidx A = [] ∧ exc A = [exdata_empty] ∧
    mul A [vpart [0; 4] ex_x 0] [vpart [0; 4] [0; 0; 0; 0]%Z 0] 1%Z false
      = Some (A, [match mtx A !!! 0 with
                  | Some M => mul_local (Device 4 2) M (vpart [0; 4] ex_x 0)
                                (vpart [0; 4] [0; 0; 0; 0]%Z 0) 1%Z false
                  | None => vpart [0; 4] [0; 0; 0; 0]%Z 0
                  end]) ∧
    mul_checked A [vpart [0; 4] ex_x 0] [vpart [0; 4] [0; 0; 0; 0]%Z 0] 1%Z false
      = mul A [vpart [0; 4] ex_x 0] [vpart [0; 4] [0; 0; 0; 0]%Z 0] 1%Z false ∧
    (ex_row !!! 4 ≠ 0 →
     mul A [vpart [0; 4] ex_x 0] [vpart [0; 4] [0; 0; 0; 0]%Z 0] 1%Z false
     = Some (A, [ref_mul 4 ex_row ex_col ex_val ex_x [0; 0; 0; 0]%Z 1%Z false])) ∧
    (ex_row !!! 4 = 0 →
     mul A [vpart [0; 4] ex_x 0] [vpart [0; 4] [0; 0; 0; 0]%Z 0] 1%Z false
     = Some (A, [if false then [0; 0; 0; 0]%Z else replicate 4 r0])) ∧
    (RealLaws Z →
     mul A [vpart [0; 4] ex_x 0] [vpart [0; 4] [0; 0; 0; 0]%Z 0] 1%Z false
     = Some (A, [ref_mul 4 ex_row ex_col ex_val ex_x [0; 0; 0; 0]%Z 1%Z false])).
Proof.
  split; [simpl; lia|]. split; [simpl; lia|].
  split; [exact (partition_ok_single 4)|]. split; [exact ex_csr_ok|].
  split; [reflexivity|]. split; [reflexivity|]. split; [reflexivity|].
  split; [vm_compute; lia|]. split; [vm_compute; reflexivity|].
  assert (is_Some (SpMat_new [Device 4 2] [0; 4] [0; 4] 4 4 ex_row ex_col ex_val))
    as [A HA] by (eexists; vm_compute; reflexivity).
  exists A. split; [exact HA|].
  apply (single_device_mul (Device 4 2) [0; 4] [0; 4] 4 4 ex_row ex_col ex_val
           ex_x [0; 0; 0; 0]%Z 1%Z false A).
  - simpl; lia.
  - simpl; lia.
  - exact (partition_ok_single 4).
  - exact (partition_ok_single 4).
  - exact ex_csr_ok.
  - reflexivity.
  - reflexivity.
  - reflexivity.
  - exact HA.
Defined.

Lemma length_setup_exchange_remote_cols {real : Type} `{RealOps real} (D : nat)
    (part xpart row col : list nat) :
  length (x_remote_cols (setup_exchange (real:=real) D part xpart row col)) = D.
Proof.
  destruct (decide (2 ≤ D)) as [HD|HD].
  - rewrite setup_exchange_remote_cols by done. apply length_ghost_sets.
  - rewrite setup_exchange_single by lia. simpl. apply length_replicate.
Qed.

Lemma send_list_empty (rcs : list (gset nat)) :
  (∀ d, d < length rcs → rcs !!! d = ∅) → send_list rcs = [].
Proof.
  intros Hall. destruct (send_list rcs) as [|c l] eqn:E; [done|].
  assert (c ∈ send_list rcs) as Hc by (rewrite E; by left).
  apply elem_of_send_list in Hc as (d & Hd & Hc).
  rewrite (Hall d Hd) in Hc. set_solver.
Qed.

(** ** What the exchange delivers *)

(** X4. After [mul] on well-formed input the host vector [rx] holds the entries
    of [x] at the columns of the send list, and the buffer [exc[d].rx] of
    every device holds the entries of [x] at the device's ghost columns, in
    increasing column order: index [t] of the buffer is the value the
    remote block reads for its column number [t]. *)
Theorem mul_exchanges_ghost_values {real : Type} `{RealOps real}
    (q : list device) (p xp : list nat) (nr nc : nat) (row col : list nat)
    (val : list real) (A : SpMat real) (x : list real)
    (ys : list (list real)) (alpha : real) (append : bool) :
  (∀ d, d < length q → 0 < wgsize (q !!! d) ∧ 0 < num_workgroups (q !!! d)) →
  partition_ok (length q) nr p → partition_ok (length q) nc xp →
  csr_ok nr nc row col val →
  built q p xp row col val A →
  ∃ A' ys',
    mul A (vparts (length q) xp x) ys alpha append = Some (A', ys') ∧
    (∀ i, i < length (send_list (x_remote_cols
                        (setup_exchange (real:=real) (length q) p xp row col))) →
       rx A' !!! i
       = x !!! (send_list (x_remote_cols
                  (setup_exchange (real:=real) (length q) p xp row col)) !!! i)) ∧
    ∀ d t, d < length q →
      t < size (x_remote_cols
                  (setup_exchange (real:=real) (length q) p xp row col) !!! d) →
      ex_rx (exc A' !!! d) !!! t
      = x !!! (set_elements (x_remote_cols
                  (setup_exchange (real:=real) (length q) p xp row col) !!! d) !!! t).
Proof.
  intros Hdev Hpart Hxpart Hcsr HA.
  set (D := length q) in *.
  set (ex := setup_exchange (real:=real) D p xp row col).
  destruct (mul_returns q p xp row col val A (vparts D xp x) ys alpha append HA)
    as (A' & ys' & Hmul & _ & _ & Hz & Hnz).
  exists A', ys'. split; [done|].
  destruct (decide (length (rx A) = 0)) as [Hrx|Hrx].
  - assert (∀ d, d < D → x_remote_cols ex !!! d = ∅) as Hempty.
    { intros d Hd. by apply (no_exchange_ghosts q p xp row col val A d HA Hrx). }
    rewrite send_list_empty.
    + split; [simpl; intros; lia|]. intros d t Hd Ht.
      rewrite (Hempty d Hd), size_empty in Ht. lia.
    + intros d Hd. apply Hempty. unfold ex in Hd.
      by rewrite length_setup_exchange_remote_cols in Hd.
  - clear Hz. destruct (Hnz Hrx) as [HrxA' HexA']. clear Hnz.
    pose proof (built_rx _ _ _ _ _ _ _ HA) as Hrxlen.
    rewrite setup_exchange_rx in Hrxlen. fold D in Hrxlen.
    destruct (decide (2 ≤ D)) as [HD|]; [|lia].
    assert (x_remote_cols ex = ghost_sets D p xp row col) as Hrcs
      by (unfold ex; by rewrite setup_exchange_remote_cols).
    rewrite Hrcs.
    destruct (gather_phase_spec q p xp row col val nr nc Hdev Hpart Hxpart Hcsr
                A x HA HD ltac:(fold D; lia)) as (Hg2 & Hgk & Hg1 & Hgsame).
    fold D ex in Hg2, Hgk, Hg1, Hgsame.
    rewrite HrxA'. split; [done|].
    intros d t Hd Ht. rewrite <-Hrcs in Ht |- *.
    destruct (recv_facts q p xp row col d Hd) as (Hr1 & Hr2 & Hr3 & _ & Hpos).
    fold D ex in Hr1, Hr2, Hr3, Hpos.
    destruct (built_exc _ _ _ _ _ _ _ HA d Hd) as (Hcr & _). fold D ex in Hcr.
    destruct (Hgsame d Hd) as (_ & _ & Hlv & _ & Hlx).
    rewrite HexA'; [|done|]; cycle 1.
    { rewrite Hcr. intros Hnil. rewrite Hnil in Hr1. simpl in Hr1. lia. }
    rewrite Hcr.
    set (g := gather_phase A (vparts D xp x)) in *.
    set (recv := cols_to_recv (x_exc ex !!! d)) in *.
    destruct (redistribute_spec g.2 recv (vals_to_recv (g.1 !!! d))) as [Hrl Hrk].
    set (v := redistribute g.2 recv (vals_to_recv (g.1 !!! d))) in *.
    destruct (copy_into_spec (ex_rx (g.1 !!! d)) 0 v (length v)) as [_ Hck].
    rewrite Hck, decide_True by lia.
    rewrite Nat.sub_0_r, Hrk, decide_True by lia.
    destruct (Hpos t Ht) as [Hlt Heq]. fold recv in Hlt, Heq.
    rewrite Hrcs in Hlt. rewrite Hgk by done. rewrite <-Hrcs. by rewrite Heq.
Qed.

Lemma mul_exchanges_ghost_values_witness :
  (∀ d, d < length ex_queue →
     0 < wgsize (ex_queue !!! d) ∧ 0 < num_workgroups (ex_queue !!! d)) ∧
  partition_ok (length ex_queue) 4 ex_part ∧
  csr_ok 4 4 ex_row ex_col ex_val ∧
  ∃ A : SpMat Z,
    built ex_queue ex_part ex_part ex_row ex_col ex_val A ∧
    ∃ A' ys',
      mul A (vparts (length ex_queue) ex_part ex_x) [[0; 0]; [0; 0]]%Z 1%Z false
      = Some (A', ys') ∧
      (∀ i, i < length (send_list (x_remote_cols
                          (setup_exchange (real:=Z) (length ex_queue)
                             ex_part ex_part ex_row ex_col))) →
         rx A' !!! i
         = ex_x !!! (send_list (x_remote_cols
                       (setup_exchange (real:=Z) (length ex_queue)
                          ex_part ex_part ex_row ex_col)) !!! i)) ∧
      ∀ d t, d < length ex_queue →
        t < size (x_remote_cols
                    (setup_exchange (real:=Z) (length ex_queue)
                       ex_part ex_part ex_row ex_col) !!! d) →
        ex_rx (exc A' !!! d) !!! t
        = ex_x !!! (set_elements (x_remote_cols
                      (setup_exchange (real:=Z) (length ex_queue)
                         ex_part ex_part ex_row ex_col) !!! d) !!! t).
Proof.
  split; [exact ex_dev_ok|]. split; [exact ex_part_ok|]. split; [exact ex_csr_ok|].
  assert (is_Some (SpMat_new ex_queue ex_part ex_part 4 4 ex_row ex_col ex_val))
    as [A HA] by (eexists; vm_compute; reflexivity).
  pose proof (SpMat_new_built _ _ _ _ _ _ _ _ _ HA) as HB.
  exists A. split; [exact HB|].
  exact (mul_exchanges_ghost_values ex_queue ex_part ex_part 4 4 ex_row ex_col
           ex_val A ex_x [[0; 0]; [0; 0]]%Z 1%Z false
           ex_dev_ok ex_part_ok ex_part_ok ex_csr_ok HB).
Defined.

(** ** When [mul] exchanges *)

(** X5. [mul] takes the exchange path exactly when there are two or more
    devices and some row of a device has a nonzero outside the device's
    column range; otherwise [rx] is empty, [mul] runs the local kernels only
    and leaves the matrix as it is. *)
Theorem exchange_iff_ghost_columns {real : Type} `{RealOps real}
    (q : list device) (p xp : list nat) (nr nc : nat) (row col : list nat)
    (val : list real) (A : SpMat real) :
  SpMat_new q p xp nr nc row col val = Some A →
  (length (rx A) = 0 ↔
     length q ≤ 1 ∨
     ∀ d i j, d < length q → p !!! d ≤ i < p !!! (d + 1) →
       row !!! i ≤ j < row !!! (i + 1) →
       xp !!! d ≤ col !!! j < xp !!! (d + 1)) ∧
  (length (rx A) = 0 →
     ∀ xs ys alpha append,
       mul A xs ys alpha append = Some (A, local_phase A xs ys alpha append)).
Proof.
  intros HA. split; cycle 1.
  { intros Hrx xs ys alpha append. unfold mul. by rewrite Hrx. }
  apply SpMat_new_built in HA.
  rewrite (built_rx _ _ _ _ _ _ _ HA), setup_exchange_rx.
  set (D := length q).
  destruct (decide (2 ≤ D)) as [HD|HD]; [|split; [left; lia|done]].
  split.
  - intros Hnil. right. intros d i j Hd Hi Hj.
    destruct (decide (xp !!! d ≤ col !!! j < xp !!! (d + 1))) as [|Hout]; [done|].
    exfalso.
    pose proof (send_list_nil _ Hnil d) as He.
    rewrite length_ghost_sets, lookup_ghost_sets in He by done.
    specialize (He Hd).
    assert (col !!! j ∈ ghost_set p xp row col d) as Hin
      by (apply elem_of_ghost_set; by exists i, j).
    rewrite He in Hin. set_solver.
  - intros [Hle|Hall]; [lia|].
    rewrite send_list_empty; [done|].
    intros d Hd. rewrite length_ghost_sets in Hd.
    rewrite lookup_ghost_sets by done.
    apply leibniz_equiv, elem_of_equiv_empty. intros c.
    intros (i & j & Hi & Hj & <- & Hout)%elem_of_ghost_set.
    apply Hout. by apply (Hall d i j).
Qed.

Lemma exchange_iff_ghost_columns_witness :
  ∃ A : SpMat Z,
    SpMat_new ex_queue ex_part ex_part 4 4 ex_row ex_col ex_val = Some A ∧
    (length (rx A) = 0 ↔
       length ex_queue ≤ 1 ∨
       ∀ d i j, d < length ex_queue → ex_part !!! d ≤ i < ex_part !!! (d + 1) →
         ex_row !!! i ≤ j < ex_row !!! (i + 1) →
         ex_part !!! d ≤ ex_col !!! j < ex_part !!! (d + 1)) ∧
    (length (rx A) = 0 →
       ∀ xs ys alpha append,
         mul A xs ys alpha append = Some (A, local_phase A xs ys alpha append)).
Proof.
  assert (is_Some (SpMat_new ex_queue ex_part ex_part 4 4 ex_row ex_col ex_val))
    as [A HA] by (eexists; vm_compute; reflexivity).
  exists A. split; [exact HA|].
  exact (exchange_iff_ghost_columns ex_queue ex_part ex_part 4 4 ex_row ex_col
           ex_val A HA).
Defined.

(** ** Products with a multivector *)



(** ** Work items and rows *)

(** X12. In a launch of [G] work items over [n] rows every row belongs to the
    chunk of exactly one work item: no two work items write the same
    [y[i]], and no row is left out. *)
Theorem chunks_partition_rows (n G i : nat) :
  0 < G → i < n →
  (∀ (St : Type) (gid : nat) (body : nat → St → St) (s : St),
     chunk n G gid body s
     = for_range (chunk_range n G gid).1 (chunk_range n G gid).2 body s) ∧
  ∃ gid, gid < G ∧
    (chunk_range n G gid).1 ≤ i < (chunk_range n G gid).2 ∧
    ∀ gid', (chunk_range n G gid').1 ≤ i < (chunk_range n G gid').2 →
            gid' = gid.
Proof.
  intros HG Hi. split; [done|].
  unfold chunk_range. cbn [fst snd].
  pose proof (chunk_size_cover n G HG) as Hcover.
  set (cs := (n + G - 1) / G) in *.
  assert (0 < cs) as Hcs by (destruct cs; [lia|lia]).
  exists (i / cs).
  pose proof (Nat.Div0.mul_div_le i cs) as Hlo.
  pose proof (Nat.mul_succ_div_gt i cs ltac:(lia)) as Hhi.
  split; [apply Nat.Div0.div_lt_upper_bound; lia|].
  split; [lia|].
  intros gid' Hg. apply (Nat.div_unique i cs gid' (i - gid' * cs)); lia.
Qed.

Lemma chunks_partition_rows_witness :
  0 < 8 ∧ 9 < 10 ∧
  (∀ (St : Type) (gid : nat) (body : nat → St → St) (s : St),
     chunk 10 8 gid body s
     = for_range (chunk_range 10 8 gid).1 (chunk_range 10 8 gid).2 body s) ∧
  ∃ gid, gid < 8 ∧
    (chunk_range 10 8 gid).1 ≤ 9 < (chunk_range 10 8 gid).2 ∧
    ∀ gid', (chunk_range 10 8 gid').1 ≤ 9 < (chunk_range 10 8 gid').2 →
            gid' = gid.
Proof.
  split; [lia|]. split; [lia|]. apply (chunks_partition_rows 10 8 9); lia.
Defined.

(** X7. The data that [setup_exchange] leaves behind, for any input and any
    number of devices: one ghost set and one [exdata] per device; the ranges
    [[cidx[d], cidx[d+1])] are in order and inside [rx]; the three receive
    buffers of a device have one element per ghost column and its two send
    buffers one element per position of its range.  A device without ghost
    columns or without columns to send has empty buffers. *)
Theorem setup_exchange_sizes {real : Type} `{RealOps real} (D : nat)
    (part xpart row col : list nat) :
  length (x_remote_cols (setup_exchange (real:=real) D part xpart row col)) = D ∧
  length (x_exc (setup_exchange (real:=real) D part xpart row col)) = D ∧
  ∀ d, d < D →
    let ex := setup_exchange (real:=real) D part xpart row col in
    x_cidx ex !!! d ≤ x_cidx ex !!! (d + 1) ∧
    x_cidx ex !!! (d + 1) ≤ length (x_rx ex) ∧
    length (cols_to_recv (x_exc ex !!! d)) = size (x_remote_cols ex !!! d) ∧
    length (vals_to_recv (x_exc ex !!! d)) = size (x_remote_cols ex !!! d) ∧
    length (ex_rx (x_exc ex !!! d)) = size (x_remote_cols ex !!! d) ∧
    length (cols_to_send (x_exc ex !!! d))
      = x_cidx ex !!! (d + 1) - x_cidx ex !!! d ∧
    length (vals_to_send (x_exc ex !!! d))
      = x_cidx ex !!! (d + 1) - x_cidx ex !!! d.
Proof.
  split; [|split; [apply length_setup_exchange_exc|]].
  - destruct (decide (2 ≤ D)) as [HD|HD].
    + rewrite setup_exchange_remote_cols by done. apply length_ghost_sets.
    + rewrite setup_exchange_single by lia. simpl. apply length_replicate.
  - intros d Hd ex.
    destruct (setup_exchange_send_sizes (real:=real) D part xpart row col d Hd)
      as (? & ? & ? & ?).
    destruct (setup_exchange_recv_sizes (real:=real) D part xpart row col d Hd)
      as (? & ? & ?).
    done.
Qed.

(** ** The two blocks of the renumbering pass *)

Lemma block_row_empty {real : Type} `{RealOps real} (r : nat) :
  block_row (csr_empty (real:=real)) r = [].
Proof. done. Qed.

Lemma SpMatCSR_new_reserved {real : Type} `{RealOps real} (beg end_ xbeg xend : nat)
    (row col : list nat) (val : list real) (rc : gset nat) (A : SpMatCSR real) :
  SpMatCSR_new beg end_ xbeg xend row col val rc = Some A →
  ¬ (beg = 0 ∧ rc = ∅) → row !!! beg ≤ row !!! end_.
Proof.
  unfold SpMatCSR_new. intros HA Hslow.
  destruct ((beg =? 0) && bool_decide (rc = ∅)) eqn:E.
  { apply andb_true_iff in E as [Hb%Nat.eqb_eq Hr%bool_decide_eq_true].
    by destruct Hslow. }
  unfold reserve_fits in HA.
  by destruct (Nat.leb_spec (row !!! beg) (row !!! end_)).
Qed.

Lemma renumbering_block {real : Type} `{RealOps real} (beg end_ xbeg xend : nat)
    (row col : list nat) (val : list real) (rc : gset nat) :
  beg ≤ end_ → row !!! beg ≤ row !!! end_ →
  (∀ i j, beg ≤ i < end_ → row !!! i ≤ j < row !!! (i + 1) →
          outside xbeg xend (col !!! j) → col !!! j ∈ rc) →
  ¬ (beg = 0 ∧ rc = ∅) →
  ∃ A, SpMatCSR_new beg end_ xbeg xend row col val rc = Some A ∧
       n A = end_ - beg ∧
       has_rem A = negb (bool_decide (rc = ∅)) ∧
       (has_loc A = false → c_col (loc A) = [] ∧
          ∀ r, r < end_ - beg →
            local_entries xbeg xend row col val (beg + r) = []) ∧
       ∀ r, r < end_ - beg →
         block_row (loc A) r = local_entries xbeg xend row col val (beg + r) ∧
         block_row (rem A) r
         = remote_entries xbeg xend row col val (build_r2l rc) (beg + r).
Proof.
  intros Hle Hrow Hcov Hslow.
  assert (∀ r, r < end_ - beg → rc = ∅ →
          remote_entries xbeg xend row col val (build_r2l rc) (beg + r) = []) as Hnorem.
  { intros r Hr ->. unfold remote_entries. rewrite filter_none; [done|].
    intros j Hj%elem_of_row_range Hout.
    specialize (Hcov (beg + r) j ltac:(lia) Hj Hout). set_solver. }
  unfold SpMatCSR_new.
  destruct ((beg =? 0) && bool_decide (rc = ∅)) eqn:Efast.
  { apply andb_true_iff in Efast as [Hbeg%Nat.eqb_eq Hrc%bool_decide_eq_true].
    by destruct Hslow. }
  rewrite reserve_fits_true by done. cbn [negb].
  destruct (split_rows_spec beg end_ xbeg xend row col val rc Hle Hcov)
    as (s & -> & HL & HR).
  simpl. eexists. split; [done|]. simpl. split; [done|]. split; [done|].
  pose proof HL as (_ & _ & HLlast & HLrows).
  rewrite HLlast. simpl. split.
  - destruct (length (lcol s) =? 0) eqn:Enz; [|done]. intros _.
    apply Nat.eqb_eq in Enz. split; [done|]. intros r Hr.
    exact (rows_built_empty _ _ _ _ _ r HL Hr (nil_length_inv _ Enz)).
  - intros r Hr. split.
    + destruct (length (lcol s) =? 0) eqn:Enz.
      * apply Nat.eqb_eq in Enz. rewrite block_row_empty. symmetry.
        exact (rows_built_empty _ _ _ _ _ r HL Hr (nil_length_inv _ Enz)).
      * by destruct (HLrows r Hr) as [_ ->].
    + destruct (bool_decide (rc = ∅)) eqn:Erc.
      * apply bool_decide_eq_true in Erc. rewrite block_row_empty.
        symmetry. by apply Hnorem.
      * apply bool_decide_eq_false in Erc.
        destruct (HR Erc) as (_ & _ & _ & HRrows).
        by destruct (HRrows r Hr) as [_ ->].
Qed.

(** X8. The renumbering pass of the block constructor (taken unless [beg == 0]
    and the ghost set is empty), on input arrays that are read inside their
    bounds, when [row[beg] <= row[end]], so that [reserve] does not throw,
    and every column outside the column range is in the ghost set, so that
    the assertion holds: the constructor returns, row [r] of the local
    block is row [beg + r] restricted to the column range with every column
    lowered by [xbeg], row [r] of the remote block is the rest of the row
    with every column replaced by its rank in the ghost set, both in the
    order of the input; [has_rem] tells whether there is a ghost column and
    a local block that is not uploaded ([has_loc] false) has no entry. *)
Theorem renumbering_pass_rows {real : Type} `{RealOps real}
    (beg end_ xbeg xend : nat) (row col : list nat) (val : list real)
    (rc : gset nat) :
  beg ≤ end_ → rows_readable beg end_ row col val →
  row !!! beg ≤ row !!! end_ →
  (∀ i j, beg ≤ i < end_ → row !!! i ≤ j < row !!! (i + 1) →
          outside xbeg xend (col !!! j) → col !!! j ∈ rc) →
  ¬ (beg = 0 ∧ rc = ∅) →
  ∃ A, SpMatCSR_new beg end_ xbeg xend row col val rc = Some A ∧
       n A = end_ - beg ∧
       (has_rem A = true ↔ rc ≠ ∅) ∧
       (has_loc A = false →
          ∀ r, r < end_ - beg →
            local_entries xbeg xend row col val (beg + r) = []) ∧
       ∀ r, r < end_ - beg →
         block_row (loc A) r = local_entries xbeg xend row col val (beg + r) ∧
         block_row (rem A) r
         = remote_entries xbeg xend row col val (build_r2l rc) (beg + r).
Proof.
  intros Hle _ Hrow Hcov Hslow.
  destruct (renumbering_block beg end_ xbeg xend row col val rc Hle Hrow Hcov Hslow)
    as (A & HA & Hn & Hrem & Hloc & Hrows).
  exists A. split; [done|]. split; [done|]. split; [|split; [|done]].
  - rewrite Hrem. destruct (bool_decide (rc = ∅)) eqn:E; simpl.
    + apply bool_decide_eq_true in E. split; [done|]. by intros [].
    + by apply bool_decide_eq_false in E.
  - intros Hl. by destruct (Hloc Hl).
Qed.

Lemma ex_ghost_cover (i j : nat) :
  0 ≤ i < 2 → ex_row !!! i ≤ j < ex_row !!! (i + 1) →
  outside 0 2 (ex_col !!! j) →
  ex_col !!! j ∈ ghost_set ex_part ex_part ex_row ex_col 0.
Proof.
  intros Hi Hj Hout. apply elem_of_ghost_set. by exists i, j.
Qed.

Lemma ex_ghost_nonempty :
  ¬ (0 = 0 ∧ ghost_set ex_part ex_part ex_row ex_col 0 = ∅).
Proof.
  intros [_ He].
  assert (size (ghost_set ex_part ex_part ex_row ex_col 0) = 2) as Hs
    by (vm_compute; reflexivity).
  rewrite He, size_empty in Hs. lia.
Qed.

Lemma renumbering_pass_rows_witness :
  0 ≤ 2 ∧ rows_readable 0 2 ex_row ex_col ex_val ∧
  ex_row !!! 0 ≤ ex_row !!! 2 ∧
  ∃ A : SpMatCSR Z,
    SpMatCSR_new 0 2 0 2 ex_row ex_col ex_val
      (ghost_set ex_part ex_part ex_row ex_col 0) = Some A ∧
    n A = 2 - 0 ∧
    (has_rem A = true ↔ ghost_set ex_part ex_part ex_row ex_col 0 ≠ ∅) ∧
    (has_loc A = false →
       ∀ r, r < 2 - 0 → local_entries 0 2 ex_row ex_col ex_val (0 + r) = []) ∧
    ∀ r, r < 2 - 0 →
      block_row (loc A) r = local_entries 0 2 ex_row ex_col ex_val (0 + r) ∧
      block_row (rem A) r
      = remote_entries 0 2 ex_row ex_col ex_val
          (build_r2l (ghost_set ex_part ex_part ex_row ex_col 0)) (0 + r).
Proof.
  split; [lia|]. split; [exact ex_readable|]. split; [vm_compute; lia|].
  apply (renumbering_pass_rows 0 2 0 2 ex_row ex_col ex_val
           (ghost_set ex_part ex_part ex_row ex_col 0)).
  - lia.
  - exact ex_readable.
  - vm_compute; lia.
  - exact ex_ghost_cover.
  - exact ex_ghost_nonempty.
Defined.

(** X9. The column numbers that the two kernels read [x] with: every column of
    the local block is below the number of columns of the device, every
    column of the remote block is below the number of ghost columns, the
    length of [exc[d].rx]. *)
Theorem block_columns_in_range {real : Type} `{RealOps real}
    (beg end_ xbeg xend : nat) (row col : list nat) (val : list real)
    (rc : gset nat) (A : SpMatCSR real) :
  beg ≤ end_ →
  (∀ i j, beg ≤ i < end_ → row !!! i ≤ j < row !!! (i + 1) →
          outside xbeg xend (col !!! j) → col !!! j ∈ rc) →
  ¬ (beg = 0 ∧ rc = ∅) →
  SpMatCSR_new beg end_ xbeg xend row col val rc = Some A →
  ∀ r e, r < n A →
    (e ∈ block_row (loc A) r → e.1 < xend - xbeg) ∧
    (e ∈ block_row (rem A) r → e.1 < size rc).
Proof.
  intros Hle Hcov Hslow HA.
  pose proof (SpMatCSR_new_reserved _ _ _ _ _ _ _ _ _ HA Hslow) as Hrow.
  destruct (renumbering_block beg end_ xbeg xend row col val rc Hle Hrow Hcov Hslow)
    as (A' & HA' & Hn & _ & _ & Hrows).
  rewrite HA in HA'. injection HA' as <-.
  intros r e Hr. rewrite Hn in Hr. destruct (Hrows r Hr) as [-> ->].
  split.
  - unfold local_entries.
    intros (j & -> & [Hp _]%list_elem_of_filter)%list_elem_of_fmap. simpl. lia.
  - unfold remote_entries.
    intros (j & -> & [Hout Hj%elem_of_row_range]%list_elem_of_filter)%list_elem_of_fmap.
    simpl. specialize (Hcov (beg + r) j ltac:(lia) Hj Hout).
    destruct (build_r2l_spec rc) as (_ & _ & Hk & Hdom).
    apply Hdom in Hcov as [k Hlk]. rewrite Hlk. simpl.
    by destruct (Hk _ _ Hlk).
Qed.

Lemma block_columns_in_range_witness :
  ∃ A : SpMatCSR Z,
    SpMatCSR_new 0 2 0 2 ex_row ex_col ex_val
      (ghost_set ex_part ex_part ex_row ex_col 0) = Some A ∧
    ∀ r e, r < n A →
      (e ∈ block_row (loc A) r → e.1 < 2 - 0) ∧
      (e ∈ block_row (rem A) r →
       e.1 < size (ghost_set ex_part ex_part ex_row ex_col 0)).
Proof.
  assert (is_Some (SpMatCSR_new 0 2 0 2 ex_row ex_col ex_val
            (ghost_set ex_part ex_part ex_row ex_col 0))) as [A HA]
    by (eexists; vm_compute; reflexivity).
  exists A. split; [exact HA|].
  apply (block_columns_in_range 0 2 0 2 ex_row ex_col ex_val
           (ghost_set ex_part ex_part ex_row ex_col 0) A).
  - lia.
  - exact ex_ghost_cover.
  - exact ex_ghost_nonempty.
  - exact HA.
Defined.

(** X10. Undoing the renumbering gives the row back: the local entries with
    [xbeg] added to the column, together with the remote entries with the
    column looked up in the sorted ghost set, are the nonzeros of row
    [beg + r] of the input, each one once. *)
Theorem renumbering_round_trip {real : Type} `{RealOps real}
    (beg end_ xbeg xend : nat) (row col : list nat) (val : list real)
    (rc : gset nat) (A : SpMatCSR real) :
  beg ≤ end_ →
  (∀ i j, beg ≤ i < end_ → row !!! i ≤ j < row !!! (i + 1) →
          outside xbeg xend (col !!! j) → col !!! j ∈ rc) →
  ¬ (beg = 0 ∧ rc = ∅) →
  SpMatCSR_new beg end_ xbeg xend row col val rc = Some A →
  ∀ r, r < n A →
    ((λ e, (e.1 + xbeg, e.2)) <$> block_row (loc A) r) ++
    ((λ e, (set_elements rc !!! e.1, e.2)) <$> block_row (rem A) r)
    ≡ₚ (λ j, (col !!! j, val !!! j)) <$> row_range row (beg + r).
Proof.
  intros Hle Hcov Hslow HA.
  pose proof (SpMatCSR_new_reserved _ _ _ _ _ _ _ _ _ HA Hslow) as Hrow.
  destruct (renumbering_block beg end_ xbeg xend row col val rc Hle Hrow Hcov Hslow)
    as (A' & HA' & Hn & _ & _ & Hrows).
  rewrite HA in HA'. injection HA' as <-.
  intros r Hr. rewrite Hn in Hr. destruct (Hrows r Hr) as [-> ->].
  unfold local_entries, remote_entries. rewrite <-!list_fmap_compose.
  assert ((λ e : nat * real, (e.1 + xbeg, e.2)) ∘ (λ j, (col !!! j - xbeg, val !!! j))
          <$> filter (λ j, xbeg ≤ col !!! j < xend) (row_range row (beg + r))
          = (λ j, (col !!! j, val !!! j))
            <$> filter (λ j, xbeg ≤ col !!! j < xend) (row_range row (beg + r)))
    as ->.
  { apply list_fmap_ext. intros t j Hj. simpl.
    apply list_elem_of_lookup_2, list_elem_of_filter in Hj as [Hin _].
    f_equal. lia. }
  assert ((λ e : nat * real, (set_elements rc !!! e.1, e.2)) ∘
            (λ j, (default 0 (build_r2l rc !! (col !!! j)), val !!! j))
          <$> filter (λ j, outside xbeg xend (col !!! j)) (row_range row (beg + r))
          = (λ j, (col !!! j, val !!! j))
            <$> filter (λ j, outside xbeg xend (col !!! j)) (row_range row (beg + r)))
    as ->.
  { apply list_fmap_ext. intros t j Hj. simpl.
    apply list_elem_of_lookup_2, list_elem_of_filter in Hj
      as [Hout Hj%elem_of_row_range].
    specialize (Hcov (beg + r) j ltac:(lia) Hj Hout).
    destruct (build_r2l_spec rc) as (_ & _ & Hk & Hdom).
    apply Hdom in Hcov as [k Hlk]. rewrite Hlk. simpl.
    f_equal. by destruct (Hk _ _ Hlk). }
  rewrite <-fmap_app. apply fmap_Permutation.
  apply (filter_app_complement (λ j, xbeg ≤ col !!! j < xend)).
Qed.

Lemma renumbering_round_trip_witness :
  ∃ A : SpMatCSR Z,
    SpMatCSR_new 0 2 0 2 ex_row ex_col ex_val
      (ghost_set ex_part ex_part ex_row ex_col 0) = Some A ∧
    ∀ r, r < n A →
      ((λ e, (e.1 + 0, e.2)) <$> block_row (loc A) r) ++
      ((λ e, (set_elements (ghost_set ex_part ex_part ex_row ex_col 0) !!! e.1, e.2))
         <$> block_row (rem A) r)
      ≡ₚ (λ j, (ex_col !!! j, ex_val !!! j)) <$> row_range ex_row (0 + r).
Proof.
  assert (is_Some (SpMatCSR_new 0 2 0 2 ex_row ex_col ex_val
            (ghost_set ex_part ex_part ex_row ex_col 0))) as [A HA]
    by (eexists; vm_compute; reflexivity).
  exists A. split; [exact HA|].
  apply (renumbering_round_trip 0 2 0 2 ex_row ex_col ex_val
           (ghost_set ex_part ex_part ex_row ex_col 0) A).
  - lia.
  - exact ex_ghost_cover.
  - exact ex_ghost_nonempty.
  - exact HA.
Defined.

(** ** The fast path *)

(** X11. With [beg == 0] and no ghost column the constructor uploads the rows as
    they are: the columns of the local block are the global column numbers,
    whatever [xbeg] is, and there is no remote block. *)
Theorem fast_path_rows {real : Type} `{RealOps real} (end_ xbeg xend : nat)
    (row col : list nat) (val : list real) :
  (∀ i, i < end_ → row !!! i ≤ row !!! (i + 1)) →
  ∃ A, SpMatCSR_new 0 end_ xbeg xend row col val ∅ = Some A ∧
       n A = end_ ∧ has_rem A = false ∧
       (has_loc A = false ↔ row !!! end_ = 0) ∧
       ∀ r, r < end_ →
         block_row (loc A) r = (λ j, (col !!! j, val !!! j)) <$> row_range row r ∧
         block_row (rem A) r = [].
Proof.
  intros Hmono. unfold SpMatCSR_new. simpl.
  rewrite bool_decide_eq_true_2 by done. rewrite Nat.sub_0_r.
  eexists. split; [done|]. simpl. split; [done|]. split; [done|]. split.
  { destruct (Nat.eqb_spec (row !!! end_) 0); simpl; split; done. }
  intros r Hr. split; [|done].
  assert (row !!! (r + 1) ≤ row !!! end_) as Hrle.
  { apply (steps_le row end_); [done|lia..]. }
  destruct (Nat.eqb_spec (row !!! end_) 0) as [Hz|Hnz].
  - rewrite block_row_empty, row_range_nil; [done|]. lia.
  - unfold block_row, row_range. simpl.
    rewrite !lookup_total_take_lt by lia.
    apply list_fmap_ext. intros t j Hj. apply lookup_seq in Hj as [-> Ht].
    by rewrite !lookup_total_take_lt by lia.
Qed.

Lemma fast_path_rows_witness :
  (∀ i, i < 3 → bug_row !!! i ≤ bug_row !!! (i + 1)) ∧
  ∃ A : SpMatCSR Z,
    SpMatCSR_new 0 3 16 64 bug_row bug_col bug_val ∅ = Some A ∧
    n A = 3 ∧ has_rem A = false ∧
    (has_loc A = false ↔ bug_row !!! 3 = 0) ∧
    ∀ r, r < 3 →
      block_row (loc A) r
      = (λ j, (bug_col !!! j, bug_val !!! j)) <$> row_range bug_row r ∧
      block_row (rem A) r = [].
Proof.
  assert (∀ i, i < 3 → bug_row !!! i ≤ bug_row !!! (i + 1)) as Hmono.
  { intros i Hi. do 3 (destruct i as [|i]; [vm_compute; lia|]). lia. }
  split; [exact Hmono|].
  exact (fast_path_rows 3 16 64 bug_row bug_col bug_val Hmono).
Defined.

(** ** The constructed matrix *)

Lemma SpMatCSR_new_flags {real : Type} `{RealOps real} (beg end_ xbeg xend : nat)
    (row col : list nat) (val : list real) (rc : gset nat) (M : SpMatCSR real) :
  SpMatCSR_new beg end_ xbeg xend row col val rc = Some M →
  n M = end_ - beg ∧ (has_rem M = true ↔ rc ≠ ∅).
Proof.
  unfold SpMatCSR_new.
  destruct ((beg =? 0) && bool_decide (rc = ∅)) eqn:E.
  - apply andb_true_iff in E as [_ Hrc%bool_decide_eq_true].
    intros [= <-]. simpl. split; [done|]. split; [done|]. by intros [].
  - destruct (negb (reserve_fits _ _)); [done|].
    destruct (split_rows _ _ _ _ _ _ _ _) as [s|]; [|done]. simpl.
    intros [= <-]. simpl. split; [done|].
    destruct (bool_decide (rc = ∅)) eqn:Erc; simpl.
    + apply bool_decide_eq_true in Erc. split; [done|]. by intros [].
    + by apply bool_decide_eq_false in Erc.
Qed.

(** X13. What the constructor leaves in the matrix: [rows()], [cols()] and
    [nonzeros()] are [n], [m] and [row[n]]; there is one block slot and one
    [exdata] per queue; the slot of a device without rows stays null, the
    block of a device with rows has the device's number of rows and has a
    remote part exactly when the device has ghost columns. *)
Theorem SpMat_new_shape {real : Type} `{RealOps real} (q : list device)
    (p xp : list nat) (nr nc : nat) (row col : list nat) (val : list real)
    (A : SpMat real) :
  SpMat_new q p xp nr nc row col val = Some A →
  queue A = q ∧ part A = p ∧
  nrows A = nr ∧ ncols A = nc ∧ nnz A = row !!! nr ∧
  length (mtx A) = length q ∧ length (exc A) = length q ∧
  ∀ d, d < length q →
    (p !!! (d + 1) ≤ p !!! d → mtx A !!! d = None) ∧
    (p !!! d < p !!! (d + 1) →
     ∃ M, mtx A !!! d = Some M ∧ n M = p !!! (d + 1) - p !!! d ∧
          (has_rem M = true ↔
           x_remote_cols (setup_exchange (real:=real) (length q) p xp row col) !!! d
           ≠ ∅)).
Proof.
  intros HA. pose proof (SpMat_new_built _ _ _ _ _ _ _ _ _ HA) as HB.
  unfold SpMat_new in HA.
  destruct (mapM _ _) as [blocks|] eqn:Hm; [|done].
  simpl in HA. injection HA as <-. simpl.
  do 5 (split; [done|]).
  apply mapM_Some_1 in Hm. pose proof (Forall2_length _ _ _ Hm) as Hlen.
  rewrite length_seq in Hlen.
  split; [done|]. split; [apply length_setup_exchange_exc|].
  intros d Hd.
  pose proof (built_new_block q p xp row col val _ d HB Hd) as Hnew.
  simpl in Hnew. unfold new_block in Hnew.
  destruct (p !!! d <? p !!! (d + 1)) eqn:E.
  - apply Nat.ltb_lt in E. split; [lia|]. intros _.
    destruct (SpMatCSR_new _ _ _ _ _ _ _ _) as [M|] eqn:HM; [|done].
    simpl in Hnew. injection Hnew as <-.
    exists M. split; [done|]. by apply SpMatCSR_new_flags in HM.
  - apply Nat.ltb_ge in E. injection Hnew as <-. split; [done|]. lia.
Qed.

Lemma SpMat_new_shape_witness :
  ∃ A : SpMat Z,
    SpMat_new bug_queue bug_part bug_xpart 3 64 bug_row bug_col bug_val = Some A ∧
    queue A = bug_queue ∧ part A = bug_part ∧
    nrows A = 3 ∧ ncols A = 64 ∧ nnz A = bug_row !!! 3 ∧
    length (mtx A) = length bug_queue ∧ length (exc A) = length bug_queue ∧
    ∀ d, d < length bug_queue →
      (bug_part !!! (d + 1) ≤ bug_part !!! d → mtx A !!! d = None) ∧
      (bug_part !!! d < bug_part !!! (d + 1) →
       ∃ M, mtx A !!! d = Some M ∧ n M = bug_part !!! (d + 1) - bug_part !!! d ∧
            (has_rem M = true ↔
             x_remote_cols (setup_exchange (real:=Z) (length bug_queue)
                              bug_part bug_xpart bug_row bug_col) !!! d
             ≠ ∅)).
Proof.
  assert (is_Some (SpMat_new bug_queue bug_part bug_xpart 3 64 bug_row bug_col bug_val))
    as [A HA] by (eexists; vm_compute; reflexivity).
  exists A. split; [exact HA|].
  exact (SpMat_new_shape bug_queue bug_part bug_xpart 3 64 bug_row bug_col bug_val
           A HA).
Defined.

(** ** The calibration matrix of [device_spmv_perf] *)

(** The grid point of a row number. *)
Lemma grid_decode (n i j k : nat) :
  i < n → j < n →
  ((k * n + j) * n + i) mod n = i ∧
  ((k * n + j) * n + i) / n mod n = j ∧
  ((k * n + j) * n + i) / (n * n) = k.
Proof.
  intros Hi Hj.
  assert (((k * n + j) * n + i) / n = k * n + j) as Hd.
  { symmetry. apply (Nat.div_unique _ n (k * n + j) i); lia. }
  split; [|split].
  - symmetry. apply (Nat.mod_unique _ n (k * n + j) i); lia.
  - rewrite Hd. symmetry. apply (Nat.mod_unique _ n k j); lia.
  - symmetry. apply (Nat.div_unique _ (n * n) k (j * n + i)); nia.
Qed.

Lemma poisson_point_inv {real : Type} `{RealOps real} (n : nat)
    (one off diag : real) (i j k : nat) (st : csr real * nat) :
  i < n → j < n →
  poisson_inv n one off diag ((k * n + j) * n + i) st →
  poisson_inv n one off diag (S ((k * n + j) * n + i))
    (poisson_point n one off diag i j k st).
Proof.
  intros Hi Hj. destruct st as [[rp cs vs] idx]. simpl.
  intros (Hidx & H0 & Hb). simpl in *. subst idx.
  set (m := (k * n + j) * n + i) in *.
  pose proof (rows_built_snoc _ _ _ _ _ Hb) as Hs.
  destruct Hb as (Hlen & _ & Hlast & _).
  assert (poisson_row n one off diag m
          = if (i =? 0) || (i =? n - 1) || (j =? 0) || (j =? n - 1) ||
               (k =? 0) || (k =? n - 1)
            then [(m, one)]
            else [(m - n * n, off); (m - n, off); (m - 1, off); (m, diag);
                  (m + 1, off); (m + n, off); (m + n * n, off)]) as HE.
  { unfold poisson_row. subst m.
    destruct (grid_decode n i j k Hi Hj) as (-> & -> & ->). done. }
  rewrite HE in Hs. unfold poisson_point. rewrite Hlast. simpl default.
  assert (∀ x, (rp ++ [x]) !!! 0 = 0) as Hrow0.
  { intros x. rewrite lookup_total_app_l by lia. done. }
  destruct ((i =? 0) || (i =? n - 1) || (j =? 0) || (j =? n - 1) ||
            (k =? 0) || (k =? n - 1)); simpl in Hs |- *;
    rewrite length_app in Hs; simpl in Hs; (split; [done|]);
    (split; [apply Hrow0|]); exact Hs.
Qed.

Lemma poisson_matrix_inv {real : Type} `{RealOps real} (n : nat)
    (one off diag : real) :
  poisson_inv n one off diag (n * n * n)
    (for_range 0 n (λ k,
       for_range 0 n (λ j,
         for_range 0 n (λ i, poisson_point n one off diag i j k)))
       (Csr [0] [] [], 0)).
Proof.
  apply (for_range_ind (λ k st, poisson_inv n one off diag (k * n * n) st) 0 n);
    [lia| |].
  { split; [done|]. split; [done|]. apply rows_built_0. }
  intros k st Hk Hst.
  replace (S k * n * n) with ((k * n + n) * n) by lia.
  apply (for_range_ind (λ j st, poisson_inv n one off diag ((k * n + j) * n) st) 0 n);
    [lia| |].
  { by replace ((k * n + 0) * n) with (k * n * n) by lia. }
  intros j st' Hj Hst'.
  replace ((k * n + S j) * n) with ((k * n + j) * n + n) by lia.
  apply (for_range_ind
           (λ i st, poisson_inv n one off diag ((k * n + j) * n + i) st) 0 n);
    [lia| |].
  { by replace ((k * n + j) * n + 0) with ((k * n + j) * n) by lia. }
  intros i st'' Hi Hst''.
  replace ((k * n + j) * n + S i) with (S ((k * n + j) * n + i)) by lia.
  apply poisson_point_inv; [lia..|done].
Qed.

Lemma rows_built_last {real : Type} `{RealOps real} (rp cs : list nat)
    (vs : list real) (E : nat → list (nat * real)) (m : nat) :
  rows_built rp cs vs E m → rp !!! m = length cs.
Proof.
  intros (Hlen & _ & Hlast & _).
  rewrite last_lookup, Hlen in Hlast. simpl in Hlast.
  by apply list_lookup_total_correct.
Qed.

(** A block built row by row from non-empty rows whose columns are below
    [nc] is a well-formed CSR matrix. *)
Lemma rows_built_csr_ok {real : Type} `{RealOps real} (rp cs : list nat)
    (vs : list real) (E : nat → list (nat * real)) (m nc : nat) :
  rows_built rp cs vs E m → rp !!! 0 = 0 →
  (∀ r, r < m → E r ≠ []) →
  (∀ r e, r < m → e ∈ E r → e.1 < nc) →
  csr_ok m nc rp cs vs.
Proof.
  intros Hb H0 Hne Hcol.
  pose proof (rows_built_last _ _ _ _ _ Hb) as Hlast.
  destruct Hb as (Hlen & Hvs & _ & Hrows).
  assert (∀ r, r < m → rp !!! r < rp !!! (r + 1)) as Hmono.
  { intros r Hr. destruct (Hrows r Hr) as [_ Hrow].
    pose proof (length_block_row (Csr rp cs vs) r) as Hl. simpl in Hl.
    rewrite Hrow in Hl. specialize (Hne r Hr).
    destruct (E r); [done|]. simpl in Hl. lia. }
  split.
  - done.
  - intros i Hi. specialize (Hmono i Hi). lia.
  - by rewrite Hlast.
  - by rewrite Hlast.
  - intros j Hj.
    destruct (steps_cover rp m j) as (r & Hr & Hjr); [lia|].
    destruct (Hrows r Hr) as [_ Hrow].
    pose proof (elem_of_block_row (Csr rp cs vs) r j Hjr) as Hin.
    rewrite Hrow in Hin. by apply (Hcol r _ Hr) in Hin.
Qed.

Lemma poisson_row_nonempty {real : Type} (n : nat) (one off diag : real)
    (idx : nat) :
  poisson_row n one off diag idx ≠ [].
Proof.
  unfold poisson_row.
  by destruct ((idx mod n =? 0) || (idx mod n =? n - 1) || (idx / n mod n =? 0) ||
      (idx / n mod n =? n - 1) || (idx / (n * n) =? 0) || (idx / (n * n) =? n - 1)).
Qed.

(** Inside the cube the six neighbours exist: no column of the stencil
    wraps below zero or leaves the matrix. *)
Lemma poisson_interior (n idx : nat) :
  idx < n * n * n →
  (idx mod n =? 0) || (idx mod n =? n - 1) || (idx / n mod n =? 0) ||
    (idx / n mod n =? n - 1) || (idx / (n * n) =? 0) || (idx / (n * n) =? n - 1)
  = false →
  n * n ≤ idx ∧ idx + n * n < n * n * n ∧ 3 ≤ n.
Proof.
  intros Hidx Hc.
  repeat (apply orb_false_iff in Hc as [Hc ?]).
  repeat match goal with H : (_ =? _) = false |- _ => apply Nat.eqb_neq in H end.
  assert (n ≠ 0) as Hn by lia.
  assert (n * n ≠ 0) as Hnn by lia.
  assert (idx / (n * n) < n) as Hk.
  { apply Nat.Div0.div_lt_upper_bound; lia. }
  pose proof (Nat.mul_succ_div_gt idx (n * n) Hnn) as Hup.
  pose proof (Nat.Div0.mul_div_le idx (n * n)) as Hlo.
  set (k := idx / (n * n)) in *.
  assert (1 ≤ k ≤ n - 2) as Hk' by lia.
  split; [|split]; nia.
Qed.

Lemma poisson_row_bound {real : Type} (n : nat) (one off diag : real)
    (idx : nat) (e : nat * real) :
  idx < n * n * n → e ∈ poisson_row n one off diag idx → e.1 < n * n * n.
Proof.
  intros Hidx. unfold poisson_row.
  destruct ((idx mod n =? 0) || (idx mod n =? n - 1) || (idx / n mod n =? 0) ||
      (idx / n mod n =? n - 1) || (idx / (n * n) =? 0) || (idx / (n * n) =? n - 1))
    eqn:Hc.
  - intros ->%list_elem_of_singleton. done.
  - destruct (poisson_interior n idx Hidx Hc) as (Hlo & Hhi & Hn).
    rewrite !elem_of_cons, elem_of_nil.
    intros [->|[->|[->|[->|[->|[->|[->|[]]]]]]]]; simpl; nia.
Qed.

Lemma poisson_matrix_built {real : Type} `{RealOps real} (n : nat)
    (one off diag : real) :
  let P := poisson_matrix n one off diag in
  c_row P !!! 0 = 0 ∧
  rows_built (c_row P) (c_col P) (c_val P) (poisson_row n one off diag)
    (n * n * n).
Proof.
  pose proof (poisson_matrix_inv n one off diag) as (_ & H0 & Hb).
  by split.
Qed.

(** X14. The matrix of [device_spmv_perf], row by row: [n]^3 rows, the row of a
    grid point on the boundary of the cube is the unit row, the row of an
    inner point is the 7-point stencil on its six neighbours. *)
Theorem poisson_matrix_rows {real : Type} `{RealOps real} (n : nat)
    (one off diag : real) :
  length (c_row (poisson_matrix n one off diag)) = S (n * n * n) ∧
  c_row (poisson_matrix n one off diag) !!! 0 = 0 ∧
  ∀ idx, idx < n * n * n →
    block_row (poisson_matrix n one off diag) idx
    = poisson_row n one off diag idx ∧
    ((idx mod n =? 0) || (idx mod n =? n - 1) || (idx / n mod n =? 0) ||
       (idx / n mod n =? n - 1) || (idx / (n * n) =? 0) ||
       (idx / (n * n) =? n - 1) = false →
     n * n ≤ idx ∧ idx + n * n < n * n * n).
Proof.
  destruct (poisson_matrix_built n one off diag) as (H0 & Hb).
  split; [apply Hb|]. split; [done|].
  intros idx Hidx. split.
  - destruct Hb as (_ & _ & _ & Hrows).
    destruct (Hrows idx Hidx) as [_ Hrow].
    by destruct (poisson_matrix n one off diag).
  - intros Hc. destruct (poisson_interior n idx Hidx Hc) as (? & ? & _). done.
Qed.

(** X15. The arrays that [device_spmv_perf] hands to the [SpMat] constructor are
    a well-formed CSR matrix with [n]^3 rows and columns. *)
Theorem poisson_matrix_csr_ok {real : Type} `{RealOps real} (n : nat)
    (one off diag : real) :
  csr_ok (n * n * n) (n * n * n)
    (c_row (poisson_matrix n one off diag))
    (c_col (poisson_matrix n one off diag))
    (c_val (poisson_matrix n one off diag)).
Proof.
  destruct (poisson_matrix_built n one off diag) as (H0 & Hb).
  apply (rows_built_csr_ok _ _ _ _ _ _ Hb H0).
  - intros r _. apply poisson_row_nonempty.
  - intros r e Hr. by apply poisson_row_bound.
Qed.

(** The number of nonzeros pushed by the loops of [device_spmv_perf]. *)
Lemma poisson_line_count {real : Type} (n : nat) (one off diag : real)
    (j k : nat) (st : csr real * nat) :
  2 ≤ n →
  length (c_col (for_range 0 n (λ i, poisson_point n one off diag i j k) st).1)
  = length (c_col st.1) + n
    + 6 * (if (j =? 0) || (j =? n - 1) || (k =? 0) || (k =? n - 1)
           then 0 else n - 2).
Proof.
  intros Hn.
  assert (length (c_col (for_range 0 n (λ i, poisson_point n one off diag i j k) st).1)
          = length (c_col st.1) + n
            + 6 * (if (j =? 0) || (j =? n - 1) || (k =? 0) || (k =? n - 1)
                   then 0 else Nat.min (n - 1) (n - 2))) as ->.
  { apply (for_range_ind (λ i (s : csr real * nat),
             length (c_col s.1)
             = length (c_col st.1) + i
               + 6 * (if (j =? 0) || (j =? n - 1) || (k =? 0) || (k =? n - 1)
                      then 0 else Nat.min (i - 1) (n - 2))) 0 n); [lia| |].
    - simpl. destruct ((j =? 0) || (j =? n - 1) || (k =? 0) || (k =? n - 1)); lia.
    - intros i [m idx] Hi. unfold poisson_point. simpl.
      destruct (Nat.eqb_spec i 0), (Nat.eqb_spec i (n - 1)),
        (Nat.eqb_spec j 0), (Nat.eqb_spec j (n - 1)),
        (Nat.eqb_spec k 0), (Nat.eqb_spec k (n - 1));
        simpl; rewrite length_app; simpl; lia. }
  destruct ((j =? 0) || (j =? n - 1) || (k =? 0) || (k =? n - 1)); lia.
Qed.

Lemma poisson_plane_count {real : Type} (n : nat) (one off diag : real)
    (k : nat) (st : csr real * nat) :
  2 ≤ n →
  length (c_col (for_range 0 n (λ j,
            for_range 0 n (λ i, poisson_point n one off diag i j k)) st).1)
  = length (c_col st.1) + n * n
    + 6 * (if (k =? 0) || (k =? n - 1) then 0 else (n - 2) * (n - 2)).
Proof.
  intros Hn.
  assert (length (c_col (for_range 0 n (λ j,
            for_range 0 n (λ i, poisson_point n one off diag i j k)) st).1)
          = length (c_col st.1) + n * n
            + 6 * (if (k =? 0) || (k =? n - 1) then 0
                   else Nat.min (n - 1) (n - 2) * (n - 2))) as ->.
  { apply (for_range_ind (λ j (s : csr real * nat),
             length (c_col s.1)
             = length (c_col st.1) + j * n
               + 6 * (if (k =? 0) || (k =? n - 1) then 0
                      else Nat.min (j - 1) (n - 2) * (n - 2))) 0 n); [lia| |].
    - simpl. destruct ((k =? 0) || (k =? n - 1)); lia.
    - intros j s Hj Hs. rewrite poisson_line_count by done. rewrite Hs.
      destruct (Nat.eqb_spec j 0), (Nat.eqb_spec j (n - 1)),
        (Nat.eqb_spec k 0), (Nat.eqb_spec k (n - 1)); cbn [orb]; try lia.
      replace (Nat.min (S j - 1) (n - 2)) with (S (Nat.min (j - 1) (n - 2))) by lia.
      lia. }
  destruct ((k =? 0) || (k =? n - 1)); [lia|].
  by replace (Nat.min (n - 1) (n - 2)) with (n - 2) by lia.
Qed.

Lemma poisson_matrix_count {real : Type} (n : nat) (one off diag : real) :
  2 ≤ n →
  length (c_col (poisson_matrix n one off diag))
  = 6 * (n - 2) * (n - 2) * (n - 2) + n * n * n.
Proof.
  intros Hn. unfold poisson_matrix.
  assert (length (c_col (for_range 0 n (λ k,
            for_range 0 n (λ j,
              for_range 0 n (λ i, poisson_point n one off diag i j k)))
            (Csr [0] [] [], 0)).1)
          = n * n * n + 6 * (Nat.min (n - 1) (n - 2) * ((n - 2) * (n - 2)))) as ->.
  { apply (for_range_ind (λ k (s : csr real * nat),
             length (c_col s.1)
             = k * n * n + 6 * (Nat.min (k - 1) (n - 2) * ((n - 2) * (n - 2))))
             0 n); [lia|done|].
    intros k s Hk Hs. rewrite poisson_plane_count by done. rewrite Hs.
    destruct (Nat.eqb_spec k 0), (Nat.eqb_spec k (n - 1)); cbn [orb]; try lia.
    replace (Nat.min (S k - 1) (n - 2)) with (S (Nat.min (k - 1) (n - 2))) by lia.
    lia. }
  replace (Nat.min (n - 1) (n - 2)) with (n - 2) by lia. lia.
Qed.

(** X16. [device_spmv_perf] pushes exactly as many nonzeros as it reserved room
    for, [6 (n - 2)^3 + n^3]; the last row offset, which the constructor
    stores as the number of nonzeros, is that count. *)
Theorem poisson_matrix_nonzeros {real : Type} `{RealOps real} (n : nat)
    (one off diag : real) :
  2 ≤ n →
  length (c_col (poisson_matrix n one off diag))
    = 6 * (n - 2) * (n - 2) * (n - 2) + n * n * n ∧
  length (c_val (poisson_matrix n one off diag))
    = 6 * (n - 2) * (n - 2) * (n - 2) + n * n * n ∧
  c_row (poisson_matrix n one off diag) !!! (n * n * n)
    = 6 * (n - 2) * (n - 2) * (n - 2) + n * n * n.
Proof.
  intros Hn.
  destruct (poisson_matrix_built n one off diag) as (_ & Hb).
  pose proof (rows_built_last _ _ _ _ _ Hb) as Hlast.
  destruct Hb as (_ & Hvs & _).
  rewrite Hlast, Hvs. by rewrite poisson_matrix_count.
Qed.

Lemma poisson_matrix_nonzeros_witness :
  2 ≤ 3 ∧
  length (c_col (poisson_matrix 3 1%Z (-4)%Z 24%Z)) = 6 * (3 - 2) * (3 - 2) * (3 - 2) + 3 * 3 * 3 ∧
  length (c_val (poisson_matrix 3 1%Z (-4)%Z 24%Z)) = 6 * (3 - 2) * (3 - 2) * (3 - 2) + 3 * 3 * 3 ∧
  c_row (poisson_matrix 3 1%Z (-4)%Z 24%Z) !!! (3 * 3 * 3)
    = 6 * (3 - 2) * (3 - 2) * (3 - 2) + 3 * 3 * 3.
Proof.
  split; [lia|]. apply (poisson_matrix_nonzeros 3 1%Z (-4)%Z 24%Z). lia.
Defined.

(** ** The calibration run *)

Lemma vparts_single {A : Type} (N : nat) (v : list A) :
  length v = N → vparts 1 [0; N] v = [v].
Proof.
  intros Hv. unfold vparts, vpart. simpl.
  rewrite Nat.sub_0_r, drop_0. by rewrite take_ge by lia.
Qed.

Lemma fast_path_sound_single (part xpart : list nat) :
  xpart !!! 0 = 0 → fast_path_sound 1 part xpart.
Proof. intros Hx d Hd _ _. by assert (d = 0) as -> by lia. Qed.

Lemma ref_mul_set {real : Type} `{RealOps real} (nr : nat) (row col : list nat)
    (val x y : list real) (alpha : real) :
  ref_mul nr row col val x y alpha false
  = (λ i, rmul alpha (dot x (block_row (Csr row col val) i))) <$> seq 0 nr.
Proof.
  unfold ref_mul. apply list_fmap_ext. intros _ i _.
  by rewrite ref_row_dot.
Qed.

(** X17. The two runs of [device_spmv_perf], for any arithmetic (no law is
    assumed, so this covers [float]): construction succeeds, both calls of
    [mul] return, and row [idx] of [y] is [one] times the sum, started from
    0 and taken in the order in which the row was pushed, of the products
    of the entries of the row with the entries [one] of [x], whatever the
    fresh [y] held. *)
Theorem device_spmv_perf_result {real : Type} `{RealOps real} (dev : device)
    (n : nat) (one off diag : real) (y : list real) :
  0 < wgsize dev → 0 < num_workgroups dev → length y = n * n * n →
  ∃ A',
    device_spmv_perf_runs dev n one off diag y
    = Some (A', [(λ idx, rmul one (dot (replicate (n * n * n) one)
                                      (poisson_row n one off diag idx)))
                 <$> seq 0 (n * n * n)]).
Proof.
  intros Hw Hg Hy. unfold device_spmv_perf_runs.
  set (n3 := n * n * n) in *. set (P := poisson_matrix n one off diag).
  set (x := replicate n3 one).
  assert (∀ d, d < length [dev] →
            0 < wgsize ([dev] !!! d) ∧ 0 < num_workgroups ([dev] !!! d)) as Hdev.
  { intros d Hd. simpl in Hd. by assert (d = 0) as -> by lia. }
  pose proof (partition_ok_single n3) as Hpart.
  destruct (poisson_matrix_built n one off diag) as (Hrow0 & Hb).
  fold P n3 in Hrow0, Hb.
  assert (csr_ok n3 n3 (c_row P) (c_col P) (c_val P)) as Hcsr.
  { apply (rows_built_csr_ok _ _ _ _ _ _ Hb Hrow0).
    - intros r _. apply poisson_row_nonempty.
    - intros r e Hr. by apply poisson_row_bound. }
  assert (fast_path_sound (length [dev]) [0; n3] [0; n3]) as Hfast
    by (by apply fast_path_sound_single).
  destruct (SpMat_new_is_Some [dev] [0; n3] [0; n3] n3 n3
              (c_row P) (c_col P) (c_val P) Hpart Hcsr) as [A HA].
  rewrite HA. simpl.
  apply SpMat_new_built in HA.
  assert (length x = n3) as Hx by apply length_replicate.
  set (y1 := if c_row P !!! n3 =? 0 then replicate n3 r0
             else ref_mul n3 (c_row P) (c_col P) (c_val P) x y one false).
  assert (∀ y0, length y0 = n3 →
            mul_value 1 [0; n3] [0; n3] (c_row P) (c_col P) (c_val P) x y0 one false
            = [y1]) as Hval.
  { intros y0 Hy0.
    rewrite (single_device_value [0; n3] [0; n3] n3 n3 (c_row P) (c_col P) (c_val P)
               x y0 one false Hpart Hpart Hcsr Hrow0 Hy0).
    unfold y1. by destruct (c_row P !!! n3 =? 0). }
  assert (length y1 = n3) as Hy1.
  { unfold y1. destruct (c_row P !!! n3 =? 0);
      [apply length_replicate|apply length_ref_mul]. }
  destruct (mul_exact [dev] [0; n3] [0; n3] (c_row P) (c_col P) (c_val P)
              n3 n3 Hdev Hpart Hpart Hcsr Hrow0 Hfast A x y one false HA Hy)
    as (A1 & Hmul1 & HA1).
  change (length [dev]) with 1 in Hmul1.
  rewrite (vparts_single n3 x Hx), (vparts_single n3 y Hy), (Hval y Hy) in Hmul1.
  rewrite Hmul1. simpl.
  destruct (mul_exact [dev] [0; n3] [0; n3] (c_row P) (c_col P) (c_val P)
              n3 n3 Hdev Hpart Hpart Hcsr Hrow0 Hfast A1 x y1 one false HA1 Hy1)
    as (A2 & Hmul2 & HA2).
  change (length [dev]) with 1 in Hmul2.
  rewrite (vparts_single n3 x Hx), (vparts_single n3 y1 Hy1), (Hval y1 Hy1) in Hmul2.
  rewrite Hmul2.
  exists A2. do 3 f_equal.
  destruct Hb as (_ & _ & _ & Hrows).
  destruct (decide (n3 = 0)) as [Hz|Hpos].
  { unfold y1. rewrite Hz. by destruct (c_row P !!! 0 =? 0). }
  assert (c_row P !!! n3 ≠ 0) as Hnz.
  { destruct (Hrows (n3 - 1) ltac:(lia)) as [_ Hrow].
    pose proof (poisson_row_nonempty n one off diag (n3 - 1)) as Hne.
    rewrite <-Hrow in Hne. unfold block_row, row_range in Hne. simpl in Hne.
    replace (n3 - 1 + 1) with n3 in Hne by lia.
    destruct (c_row P !!! n3 - c_row P !!! (n3 - 1)) eqn:E; [done|]. lia. }
  unfold y1. apply Nat.eqb_neq in Hnz. rewrite Hnz. rewrite ref_mul_set.
  apply list_fmap_ext. intros i idx [-> Hidx]%lookup_seq. simpl.
  do 2 f_equal.
  by destruct (Hrows i Hidx) as [_ Hrow].
Qed.

Lemma device_spmv_perf_result_witness :
  0 < wgsize (Device 4 2) ∧ 0 < num_workgroups (Device 4 2) ∧
  length (replicate 27 7%Z) = 3 * 3 * 3 ∧
  ∃ A',
    device_spmv_perf_runs (Device 4 2) 3 1%Z (-4)%Z 24%Z (replicate 27 7%Z)
    = Some (A', [(λ idx, rmul 1%Z (dot (replicate (3 * 3 * 3) 1%Z)
                                      (poisson_row 3 1%Z (-4)%Z 24%Z idx)))
                 <$> seq 0 (3 * 3 * 3)]).
Proof.
  split; [simpl; lia|]. split; [simpl; lia|]. split; [reflexivity|].
  apply (device_spmv_perf_result (Device 4 2) 3 1%Z (-4)%Z 24%Z (replicate 27 7%Z));
    [simpl; lia|simpl; lia|reflexivity].
Defined.

